(** * Remote command execution engine and lifecycle reconciler

    A shallow embedding of the remote-shell command engine
    ([services/ssh/SshService.ts]) and of the node lifecycle procedures
    ([CelestiaNodeStarter], [CelestiaNodeStopper], [CelestiaNodeStatus],
    [CelestiaNodeInitializer]), followed by the properties established
    about them.

    Conventions of the embedding.
    - A JavaScript string is a [string]: a sequence of 8-bit code units.
    - A number that holds milliseconds or a count is a [Z].
    - A rejected promise or a thrown exception is the right injection of a
      sum, a fulfilled promise the left one.
    - Calls to the logger write to a sink and never change control flow;
      they are left out.
    - Part I holds the definitions, Part II the lemmas and theorems. *)

From stdpp Require Import base option list strings gmap pretty.
From Stdlib Require Import ZArith Lia Sorted.

Open Scope Z_scope.

(** * Part I: definitions *)

(** ** JavaScript string primitives used by the sources *)

Module JsString.

(** [s.startsWith(p)] *)
Definition startsWith (s p : string) : bool := String.prefix p s.

(** [s.includes(p)]: [p] occurs at some position of [s]. *)
Fixpoint includes (s p : string) : bool :=
  String.prefix p s ||
  match s with
  | EmptyString => false
  | String _ s' => includes s' p
  end.

(** [s.slice(n)] for a position [n] within the string. *)
Fixpoint drop (n : nat) (s : string) : string :=
  match n, s with
  | O, _ => s
  | S _, EmptyString => EmptyString
  | S n', String _ s' => drop n' s'
  end.

(** [s.replace(pat, rep)] with a string pattern: the first occurrence of
    [pat] is replaced, the rest of the text is kept.  The replacement texts
    used by the sources contain no dollar sign, so no replacement pattern
    is ever expanded. *)
Fixpoint replace (s pat rep : string) : string :=
  if String.prefix pat s then rep +:+ drop (String.length pat) s
  else match s with
       | EmptyString => EmptyString
       | String c s' => String c (replace s' pat rep)
       end.

(** White space and line terminators among the 8-bit code units: tab, line
    feed, vertical tab, form feed, carriage return, space and no-break
    space. *)
Definition isWhite (c : Ascii.ascii) : bool :=
  let n := Ascii.N_of_ascii c in
  ((9 <=? n)%N && (n <=? 13)%N) || (n =? 32)%N || (n =? 160)%N.

Fixpoint trimStart (s : string) : string :=
  match s with
  | EmptyString => EmptyString
  | String c s' => if isWhite c then trimStart s' else s
  end.

Fixpoint trimEnd (s : string) : string :=
  match s with
  | EmptyString => EmptyString
  | String c s' =>
      match trimEnd s' with
      | EmptyString => if isWhite c then EmptyString else String c EmptyString
      | t => String c t
      end
  end.

(** [s.trim()] *)
Definition trim (s : string) : string := trimEnd (trimStart s).

(** [s.split(sep)] for a separator of one code unit; the result always has
    at least one element. *)
Fixpoint split (sep : Ascii.ascii) (s : string) : list string :=
  match s with
  | EmptyString => [EmptyString]
  | String c s' =>
      if Ascii.eqb c sep then EmptyString :: split sep s'
      else match split sep s' with
           | [] => [String c EmptyString]
           | x :: xs => String c x :: xs
           end
  end.

(** Truthiness of a string: every string but the empty one. *)
Definition truthy (s : string) : bool :=
  match s with EmptyString => false | _ => true end.

Definition newline : Ascii.ascii := Ascii.ascii_of_N 10.

End JsString.

(** ** The retry and sudo policy of [SshService] *)

Module Ssh.
Import JsString.

Record SshConnection := {
  sshKey : string;
  remoteUser : string;
  remoteHost : string;
}.

Record SshCommandResult := {
  stdout : string;
  stderr : string;
}.

Record CommandOptions := {
  timeout : option Z;
  requiresSudo : option bool;
  retries : option Z;
}.

(** [options = {}] *)
Definition noOptions : CommandOptions :=
  {| timeout := None; requiresSudo := None; retries := None |}.

(** An [Error] object, identified by its message. *)
Record JsError := { message : string }.

Definition Outcome (A : Type) : Type := A + JsError.

(** What one awaited call of [executeRemoteCommandPooled] gives back to its
    caller: the settled promise and the time that went by meanwhile. *)
Record Reply := {
  outcome : Outcome SshCommandResult;
  took : N;
}.

(** The remote side as seen by one sequential caller: the reply to the
    [n]-th submission, given the target, the command text and the
    timeout. *)
Definition Remote : Type := nat -> SshConnection -> string -> Z -> Reply.

Inductive Event :=
| Submitted (cmd : string) (timeoutMs : Z) (res : Outcome SshCommandResult)
| Slept (ms : Z).

Record World := {
  now : Z;
  calls : nat;
  trace : list Event;
}.

(** Asynchronous code of one logical task: a state transformer over the
    world that ends with a value or with a thrown error. *)
Definition M (A : Type) : Type := World -> Outcome A * World.

Definition ret {A} (a : A) : M A := fun w => (inl a, w).

Definition throw {A} (e : JsError) : M A := fun w => (inr e, w).

Definition bind {A B} (c : M A) (k : A -> M B) : M B :=
  fun w =>
    match c w with
    | (inl a, w') => k a w'
    | (inr e, w') => (inr e, w')
    end.

(** [try { return c } catch (error) { h error }] *)
Definition tryCatch {A} (c : M A) (h : JsError -> M A) : M A :=
  fun w =>
    match c w with
    | (inl a, w') => (inl a, w')
    | (inr e, w') => h e w'
    end.

(** [await new Promise(resolve => setTimeout(resolve, ms))] *)
Definition sleep (ms : Z) : M unit :=
  fun w =>
    (inl tt, {| now := now w + ms; calls := calls w;
                trace := trace w ++ [Slept ms] |}).

(** [Date.now()] *)
Definition dateNow : M Z := fun w => (inl (now w), w).

Declare Scope js_scope.
Notation "'let*' x ':=' c 'in' k" := (bind c (fun x => k))
  (at level 10, x name, c at level 100, k at level 200) : js_scope.
Notation "c ';;' k" := (bind c (fun _ => k))
  (at level 100, k at level 200, right associativity) : js_scope.
Open Scope js_scope.

Section WithRemote.
Variable remote : Remote.

(** [executeRemoteCommandPooled], from the side of the caller that
    awaits it.  The queue behind it is the subject of module [Pool]. *)
Definition executeRemoteCommandPooled
    (connection : SshConnection) (cmd : string) (timeoutMs : Z)
    : M SshCommandResult :=
  fun w =>
    let r := remote (calls w) connection cmd timeoutMs in
    (outcome r,
     {| now := now w + Z.of_N (took r);
        calls := S (calls w);
        trace := trace w ++ [Submitted cmd timeoutMs (outcome r)] |}).

(** The rewrite at the head of [executeSudoCommand]. *)
Definition modifiedCommand (command : string) : string :=
  if startsWith command "sudo " && negb (includes command "sudo -n")
  then replace command "sudo " "sudo -n "
  else command.

(** The loop [for (attempt = 1; attempt <= retries; attempt++)] of
    [executeSudoCommand], over the attempt numbers still to come. *)
Fixpoint sudoAttempts (connection : SshConnection)
    (modified : string) (timeoutMs retries : Z) (attempts : list Z)
    : M SshCommandResult :=
  match attempts with
  | [] => throw {| message := "Unexpected end of executeSudoCommand" |}
  | attempt :: rest =>
      tryCatch
        (executeRemoteCommandPooled connection modified timeoutMs)
        (fun error =>
           if attempt =? retries then throw error
           else sleep (2000 * attempt) ;;
                sudoAttempts connection modified timeoutMs retries rest)
  end.

Definition executeSudoCommand (connection : SshConnection)
    (command : string) (timeoutMs retries : Z) : M SshCommandResult :=
  sudoAttempts connection (modifiedCommand command) timeoutMs retries
    (seqZ 1 retries).

(** The loop of the plain path of [executeRemoteCommandWithOptions]. *)
Fixpoint plainAttempts (connection : SshConnection)
    (cmd : string) (timeoutMs retries : Z) (attempts : list Z)
    : M SshCommandResult :=
  match attempts with
  | [] =>
      throw
        {| message := "Unexpected end of executeRemoteCommandWithOptions" |}
  | attempt :: rest =>
      tryCatch
        (executeRemoteCommandPooled connection cmd timeoutMs)
        (fun error =>
           if attempt =? retries then throw error
           else sleep (1000 * attempt) ;;
                plainAttempts connection cmd timeoutMs retries rest)
  end.

Inductive Path := SudoPath | PlainPath.

(** The destructuring defaults and the branch of
    [executeRemoteCommandWithOptions]. *)
Definition timeoutOf (options : CommandOptions) : Z :=
  default 30000 (timeout options).

Definition requiresSudoOf (cmd : string) (options : CommandOptions) : bool :=
  default (includes cmd "sudo") (requiresSudo options).

Definition retriesOf (options : CommandOptions) : Z :=
  default 1 (retries options).

Definition pathOf (cmd : string) (options : CommandOptions) : Path :=
  if requiresSudoOf cmd options || startsWith cmd "sudo"
  then SudoPath else PlainPath.

Definition executeRemoteCommandWithOptions (connection : SshConnection)
    (cmd : string) (options : CommandOptions) : M SshCommandResult :=
  match pathOf cmd options with
  | SudoPath =>
      executeSudoCommand connection cmd (timeoutOf options)
        (retriesOf options)
  | PlainPath =>
      plainAttempts connection cmd (timeoutOf options) (retriesOf options)
        (seqZ 1 (retriesOf options))
  end.

(** [SshService.executeCommand(connection)]: the closure handed to the
    lifecycle procedures. *)
Definition runRemote (connection : SshConnection)
    (cmd : string) (options : CommandOptions) : M SshCommandResult :=
  executeRemoteCommandWithOptions connection cmd options.

End WithRemote.

(** Readers of a trace. *)
Definition submittedTexts (tr : list Event) : list string :=
  omap (fun ev => match ev with Submitted c _ _ => Some c | Slept _ => None end) tr.

Definition sleeps (tr : list Event) : list Z :=
  omap (fun ev => match ev with Slept ms => Some ms | Submitted _ _ _ => None end) tr.

(** The base delay of the back-off of each path. *)
Definition baseDelay (p : Path) : Z :=
  match p with SudoPath => 2000 | PlainPath => 1000 end.

(** The text handed to the pool on each path. *)
Definition sentText (p : Path) (cmd : string) : string :=
  match p with SudoPath => modifiedCommand cmd | PlainPath => cmd end.

(** The message of the error raised when a loop runs out of attempts
    without having returned or thrown. *)
Definition unexpectedEnd (p : Path) : JsError :=
  match p with
  | SudoPath => {| message := "Unexpected end of executeSudoCommand" |}
  | PlainPath =>
      {| message := "Unexpected end of executeRemoteCommandWithOptions" |}
  end.

(** The shape the two attempt loops share, with the path as a parameter. *)
Fixpoint retryLoop (remote : Remote) (p : Path) (connection : SshConnection)
    (text : string) (timeoutMs retries : Z) (attempts : list Z)
    : M SshCommandResult :=
  match attempts with
  | [] => throw (unexpectedEnd p)
  | attempt :: rest =>
      tryCatch
        (executeRemoteCommandPooled remote connection text timeoutMs)
        (fun error =>
           if attempt =? retries then throw error
           else sleep (baseDelay p * attempt) ;;
                retryLoop remote p connection text timeoutMs retries rest)
  end.

(** A target that fails every command submitted to it. *)
Definition alwaysFails (remote : Remote) (connection : SshConnection) : Prop :=
  forall n cmd timeoutMs,
    exists e, outcome (remote n connection cmd timeoutMs) = inr e.

(** What attempt number [i] of [R] leaves in the trace when it fails: the
    submission and, unless it was the last attempt, the wait before the
    next one.  [first] is the number of submissions made before attempt
    one. *)
Definition failedAttempt (remote : Remote) (connection : SshConnection)
    (text : string) (timeoutMs base R : Z) (first : nat) (i : Z)
    : list Event :=
  Submitted text timeoutMs
    (outcome (remote (first + Z.to_nat (i - 1))%nat connection text timeoutMs))
  :: (if i =? R then [] else [Slept (base * i)]).

(** The entries a call appends: waits, and submissions of the one text of
    the call; a fulfilled submission is among them exactly when the call
    returns its result. *)
Definition entriesOf (text : string) (timeoutMs : Z)
    (res : Outcome SshCommandResult) (delta : list Event) : Prop :=
  Forall (fun ev => match ev with
                    | Submitted c t _ => c = text /\ t = timeoutMs
                    | Slept _ => True
                    end) delta
  /\ (forall r, Submitted text timeoutMs (inl r) ∈ delta <-> res = inl r).

End Ssh.

(** ** The lifecycle procedures: start, stop, status *)

Module Lifecycle.
Import JsString Ssh.
Open Scope js_scope.

(** The double quote, for command texts that contain one. *)
Definition dq : string := String (Ascii.ascii_of_N 34) EmptyString.

(** The command texts of the procedures. *)
Definition isActiveCmd : string :=
  "systemctl is-active celestia-light.service 2>/dev/null || echo "
  +:+ dq +:+ "inactive" +:+ dq.

Definition statusBriefCmd : string :=
  "systemctl status celestia-light.service --no-pager --lines=5".

Definition startCmd : string := "sudo systemctl start celestia-light.service".

Definition statusLongCmd : string :=
  "sudo systemctl status celestia-light.service --no-pager --lines=20".

Definition journalCmd : string :=
  "sudo journalctl -u celestia-light.service --no-pager --lines=10".

Definition stopCmd : string := "sudo systemctl stop celestia-light".

Definition pgrepCmd : string :=
  "pgrep -f " +:+ dq +:+ "celestia.*light" +:+ dq.

Definition pgrepOrNoneCmd : string :=
  pgrepCmd +:+ " || echo " +:+ dq +:+ "NO_PROCESSES" +:+ dq.

Definition serviceDetailsCmd : string :=
  "sudo systemctl status celestia-light.service --no-pager --lines=10 "
  +:+ "2>/dev/null || echo " +:+ dq +:+ "Service not found" +:+ dq.

Definition psCmd : string := "ps aux | grep celestia | grep -v grep || true".

(** The option objects of the procedures. *)
Definition stopOptions : CommandOptions :=
  {| timeout := Some 90000; requiresSudo := Some true; retries := Some 2 |}.

Definition queryOptions : CommandOptions :=
  {| timeout := Some 15000; requiresSudo := None; retries := Some 2 |}.

Definition pollOptions : CommandOptions :=
  {| timeout := Some 10000; requiresSudo := None; retries := None |}.

Definition detailsOptions : CommandOptions :=
  {| timeout := Some 30000; requiresSudo := Some true; retries := Some 2 |}.

Definition psOptions : CommandOptions :=
  {| timeout := Some 20000; requiresSudo := None; retries := Some 2 |}.

(** [stdout.trim().split('\n').filter(pid => pid.trim())] *)
Definition pidsOf (out : string) : list string :=
  filter (fun pid => truthy (trim pid) = true) (split newline (trim out)).

(** Whether a reply to the state query carries the active token. *)
Definition isActiveReply (res : Outcome SshCommandResult) : bool :=
  match res with
  | inl r => String.eqb (trim (stdout r)) "active"
  | inr _ => false
  end.

Section WithTarget.
Variable remote : Remote.
(** What [SshService.createConnection()] resolves to: the target read
    from the environment, or [null]. *)
Variable createConnection : option SshConnection.

(** *** [CelestiaNodeStarter] *)

Definition isServiceRunning (connection : SshConnection) : M bool :=
  tryCatch
    (let* serviceStatus := runRemote remote connection isActiveCmd noOptions in
     ret (String.eqb (trim (stdout serviceStatus)) "active"))
    (fun _ => ret false).

Definition startService (connection : SshConnection) : M unit :=
  tryCatch
    (let* startResult := runRemote remote connection startCmd noOptions in
     sleep 3000)
    (fun error => throw error).

Definition showServiceStatus (connection : SshConnection) : M unit :=
  tryCatch
    (let* statusResult := runRemote remote connection statusLongCmd noOptions in
     let* logsResult := runRemote remote connection journalCmd noOptions in
     ret tt)
    (fun _ => ret tt).

Definition start : M bool :=
  tryCatch
    (match createConnection with
     | None => ret false
     | Some connection =>
         let* already := isServiceRunning connection in
         if already then
           let* statusResult :=
             runRemote remote connection statusBriefCmd noOptions in
           ret true
         else
           startService connection ;;
           sleep 5000 ;;
           let* isRunning := isServiceRunning connection in
           if isRunning then ret true
           else showServiceStatus connection ;; ret false
     end)
    (fun _ => ret false).

(** *** [CelestiaNodeStopper] *)

Definition stopSystemdService (connection : SshConnection) : M unit :=
  tryCatch
    (let* result := runRemote remote connection stopCmd stopOptions in
     sleep 3000 ;;
     tryCatch
       (let* statusResult :=
          runRemote remote connection isActiveCmd queryOptions in
        ret tt)
       (fun _ => ret tt))
    (fun error => throw error).

(** The loop [while (Date.now() - startTime < maxWaitTime)] of
    [verifyNodeStopped].  [fuel] bounds the number of condition checks;
    [None] is the loop still running when the fuel is spent. *)
Fixpoint pollUntilStopped (fuel : nat) (connection : SshConnection)
    (startTime : Z) (w : World) : option (Outcome unit * World) :=
  match fuel with
  | O => None
  | S fuel' =>
      if now w - startTime <? 30000 then
        match runRemote remote connection pgrepOrNoneCmd pollOptions w with
        | (inl processCheck, w1) =>
            if String.eqb (trim (stdout processCheck)) "NO_PROCESSES"
            then Some (inl tt, w1)
            else pollUntilStopped fuel' connection startTime
                   (snd (sleep 3000 w1))
        | (inr _, w1) => Some (inl tt, w1)
        end
      else Some (inl tt, w)
  end.

Definition verifyNodeStopped (fuel : nat) (connection : SshConnection)
    (w : World) : option (Outcome unit * World) :=
  match pollUntilStopped fuel connection (now w) w with
  | Some (inl u, w') => Some (inl u, w')
  | Some (inr _, w') => Some (inl tt, w')
  | None => None
  end.

Definition stopNode (fuel : nat) (w : World) : option (bool * World) :=
  match createConnection with
  | None => Some (false, w)
  | Some connection =>
      match stopSystemdService connection w with
      | (inl _, w1) =>
          match verifyNodeStopped fuel connection w1 with
          | Some (inl _, w2) => Some (true, w2)
          | Some (inr _, w2) => Some (false, w2)
          | None => None
          end
      | (inr _, w1) => Some (false, w1)
      end
  end.

(** *** [CelestiaNodeStatus] *)

Record Status := {
  isRunning : bool;
  serviceStatus : string;
  processIds : list string;
  processDetails : string;
  serviceDetails : string;
}.

(** [isCelestiaProcessesRunning]: the service state first, the process
    list only when the service is not reported active. *)
Definition isCelestiaProcessesRunning : M bool :=
  tryCatch
    (match createConnection with
     | None => ret false
     | Some connection =>
         fun w =>
           let (serviceStatus, w1) :=
             runRemote remote connection isActiveCmd queryOptions w in
           if isActiveReply serviceStatus then (inl true, w1)
           else
             let (processResult, w2) :=
               runRemote remote connection pgrepCmd queryOptions w1 in
             match processResult with
             | inl r => (inl (truthy (trim (stdout r))), w2)
             | inr _ => (inl false, w2)
             end
     end)
    (fun _ => ret false).

(** The first [try] block of [getStatus]: the service state, then the
    service details.  The state is assigned before the second query, so
    it survives a failure of that query. *)
Definition queryService (connection : SshConnection)
    : M (string * string) :=
  fun w =>
    match runRemote remote connection isActiveCmd queryOptions w with
    | (inl serviceStatusResult, w1) =>
        match runRemote remote connection serviceDetailsCmd detailsOptions w1 with
        | (inl serviceDetailsResult, w2) =>
            (inl (trim (stdout serviceStatusResult),
                  trim (stdout serviceDetailsResult)), w2)
        | (inr _, w2) =>
            (inl (trim (stdout serviceStatusResult),
                  "Could not retrieve service details"%string), w2)
        end
    | (inr _, w1) =>
        (inl ("unknown"%string,
              "Could not retrieve service details"%string), w1)
    end.

Definition queryProcessIds (connection : SshConnection)
    : M (list string) :=
  tryCatch
    (let* processResult := runRemote remote connection pgrepCmd queryOptions in
     ret (pidsOf (stdout processResult)))
    (fun _ => ret []).

Definition queryProcessDetails (connection : SshConnection) : M string :=
  tryCatch
    (let* detailsResult := runRemote remote connection psCmd psOptions in
     ret (trim (stdout detailsResult)))
    (fun _ => ret "Could not retrieve process details"%string).

Definition getStatus : M Status :=
  tryCatch
    (match createConnection with
     | None =>
         ret {| isRunning := false; serviceStatus := "inactive";
                processIds := [];
                processDetails := "Remote connection not configured";
                serviceDetails := "Remote connection not configured" |}
     | Some connection =>
         let* service := queryService connection in
         let* pids := queryProcessIds connection in
         let* details := queryProcessDetails connection in
         ret {| isRunning :=
                  String.eqb (fst service) "active"
                  || (0 <? length pids)%nat;
                serviceStatus := fst service;
                processIds := pids;
                processDetails := details;
                serviceDetails := snd service |}
     end)
    (fun error =>
       ret {| isRunning := false; serviceStatus := "error";
              processIds := [];
              processDetails := "Error: " +:+ message error;
              serviceDetails := "Error: " +:+ message error |}).

End WithTarget.

(** Readers of a trace, for the statements about the procedures. *)
Definition submissionOf (text : string) (ev : Event) : bool :=
  match ev with
  | Submitted c _ _ => String.eqb c text
  | Slept _ => false
  end.

(** The service manager answered the state query with the active token. *)
Definition reportsActive (tr : list Event) : Prop :=
  exists t r,
    Submitted isActiveCmd t (inl r) ∈ tr
    /\ trim (stdout r) = "active"%string.

(** The process-list query answered with at least one process id. *)
Definition foundProcess (tr : list Event) : Prop :=
  exists t r,
    Submitted pgrepCmd t (inl r) ∈ tr /\ pidsOf (stdout r) <> [].

(** The process-list query answered with some output. *)
Definition foundOutput (tr : list Event) : Prop :=
  exists t r,
    Submitted pgrepCmd t (inl r) ∈ tr /\ truthy (trim (stdout r)) = true.

(** The number of [start service] commands a trace holds, in either
    spelling. *)
Definition startInvocations (tr : list Event) : nat :=
  length (filter (fun ev => submissionOf startCmd ev = true
                            \/ submissionOf (modifiedCommand startCmd) ev = true)
            tr).

End Lifecycle.

(** ** The command runner: [executeRemoteCommand]

    One call spawns one child process and settles one promise.  The model
    is event driven: the child emits data, a close or an error; time goes by
    in between; the two timers of the call fire when the clock reaches the
    time they are due (timers are taken to be exact).  The timer that only
    writes progress lines to the log is left out with the log.

    Numbers are integers.  A time-out is a delay for [setTimeout] and a
    number printed by a template literal; the statements about the runner
    take it between 1 and 2147483647, the delays that [setTimeout] keeps
    as they are, and which are printed digit by digit. *)

Module Runner.
Import JsString Ssh.

Inductive Signal := SIGTERM | SIGKILL.

Inductive ProcessEvent :=
| StdoutData (chunk : string)
| StderrData (chunk : string)
| Close (code : option Z)
| ProcessError (error : JsError).

(** The state of one call: the local variables of the promise executor,
    the two timer handles, the child and the promise. *)
Record Exec := {
  cmd : string;
  timeoutMs : Z;
  clock : Z;
  stdoutAcc : string;
  stderrAcc : string;
  finished : bool;
  (** [timer]: when the timeout callback is due, while it is armed. *)
  timer : option Z;
  (** The inner [setTimeout]: when the forced kill is due, while armed. *)
  killTimer : option Z;
  (** [ssh.pid]: undefined when the child could not be spawned. *)
  pid : option nat;
  (** The calls of [ssh.kill], each with the time it was made. *)
  kills : list (Z * Signal);
  (** The promise: unsettled, fulfilled or rejected. *)
  settled : option (Outcome SshCommandResult);
}.

(** [resolve] and [reject]: the first call settles the promise, later calls
    do nothing. *)
Definition settle (o : Outcome SshCommandResult) (s : Exec) : Exec :=
  match settled s with
  | Some _ => s
  | None =>
      {| cmd := cmd s; timeoutMs := timeoutMs s; clock := clock s;
         stdoutAcc := stdoutAcc s; stderrAcc := stderrAcc s;
         finished := finished s; timer := timer s; killTimer := killTimer s;
         pid := pid s; kills := kills s; settled := Some o |}
  end.

(** [ssh.kill(signal)] *)
Definition kill (sig : Signal) (s : Exec) : Exec :=
  {| cmd := cmd s; timeoutMs := timeoutMs s; clock := clock s;
     stdoutAcc := stdoutAcc s; stderrAcc := stderrAcc s;
     finished := finished s; timer := timer s; killTimer := killTimer s;
     pid := pid s; kills := kills s ++ [(clock s, sig)]; settled := settled s |}.

(** The delay [setTimeout] works with: the runtime sets a delay that is
    larger than 2147483647 or less than 1 to 1. *)
Definition timerDelay (ms : Z) : Z :=
  if (ms <? 1) || (2147483647 <? ms) then 1 else ms.

(** The error of the time-out.  The number is printed digit by digit, as
    the template literal prints an integer below 10^21; a larger number,
    which the runtime prints with an exponent, is no delay that
    [setTimeout] keeps, and the statements leave it out. *)
Definition timeoutError (ms : Z) (command : string) : JsError :=
  {| message := "SSH command timeout after " +:+ pretty ms +:+ "ms: " +:+ command |}.

Definition showCode (code : option Z) : string :=
  match code with Some c => pretty c | None => "null" end.

Definition failureError (code : option Z) (err : string) : JsError :=
  {| message := "SSH command failed with code " +:+ showCode code +:+ ": " +:+ err |}.

Section WithLogger.
(** [Logger.normalizeMessage], which is not among the sources at hand. *)
Variable normalizeMessage : string -> string.

(** The state right after [spawn] and the arming of [timer], with the
    delay [setTimeout] makes of [ms]. *)
Definition spawned (command : string) (ms : Z) (childPid : option nat)
    (startTime : Z) : Exec :=
  {| cmd := command; timeoutMs := ms; clock := startTime;
     stdoutAcc := ""; stderrAcc := ""; finished := false;
     timer := Some (startTime + timerDelay ms); killTimer := None;
     pid := childPid; kills := []; settled := None |}.

(** The callback of [timer], run at the time [at_].  The delay of the
    inner timer, 5000, is one that [setTimeout] keeps. *)
Definition onTimeout (at_ : Z) (s : Exec) : Exec :=
  let s0 :=
    {| cmd := cmd s; timeoutMs := timeoutMs s; clock := at_;
       stdoutAcc := stdoutAcc s; stderrAcc := stderrAcc s;
       finished := finished s; timer := None; killTimer := killTimer s;
       pid := pid s; kills := kills s; settled := settled s |} in
  if finished s0 then s0
  else
    let s1 := kill SIGTERM s0 in
    settle (inr (timeoutError (timeoutMs s) (cmd s)))
      {| cmd := cmd s1; timeoutMs := timeoutMs s1; clock := clock s1;
         stdoutAcc := stdoutAcc s1; stderrAcc := stderrAcc s1;
         finished := true; timer := None; killTimer := Some (at_ + 5000);
         pid := pid s1; kills := kills s1; settled := settled s1 |}.

(** The callback of the inner timer, run at the time [at_]. *)
Definition onForceKill (at_ : Z) (s : Exec) : Exec :=
  let s0 :=
    {| cmd := cmd s; timeoutMs := timeoutMs s; clock := at_;
       stdoutAcc := stdoutAcc s; stderrAcc := stderrAcc s;
       finished := finished s; timer := timer s; killTimer := None;
       pid := pid s; kills := kills s; settled := settled s |} in
  match pid s0 with
  | Some _ => kill SIGKILL s0
  | None => s0
  end.

(** [d] milliseconds go by: the timers that come due fire, the timeout
    before the forced kill it arms; a timer fires when it is due, or at
    once when that time is already past. *)
Definition elapse (d : N) (s : Exec) : Exec :=
  let target := clock s + Z.of_N d in
  let s1 :=
    match timer s with
    | Some t => if t <=? target then onTimeout (Z.max (clock s) t) s else s
    | None => s
    end in
  let s2 :=
    match killTimer s1 with
    | Some t => if t <=? target then onForceKill (Z.max (clock s1) t) s1 else s1
    | None => s1
    end in
  {| cmd := cmd s2; timeoutMs := timeoutMs s2; clock := target;
     stdoutAcc := stdoutAcc s2; stderrAcc := stderrAcc s2;
     finished := finished s2; timer := timer s2; killTimer := killTimer s2;
     pid := pid s2; kills := kills s2; settled := settled s2 |}.

(** The listeners on the child. *)
Definition onEvent (ev : ProcessEvent) (s : Exec) : Exec :=
  match ev with
  | StdoutData chunk =>
      {| cmd := cmd s; timeoutMs := timeoutMs s; clock := clock s;
         stdoutAcc := stdoutAcc s +:+ normalizeMessage chunk;
         stderrAcc := stderrAcc s;
         finished := finished s; timer := timer s; killTimer := killTimer s;
         pid := pid s; kills := kills s; settled := settled s |}
  | StderrData chunk =>
      {| cmd := cmd s; timeoutMs := timeoutMs s; clock := clock s;
         stdoutAcc := stdoutAcc s;
         stderrAcc := stderrAcc s +:+ normalizeMessage chunk;
         finished := finished s; timer := timer s; killTimer := killTimer s;
         pid := pid s; kills := kills s; settled := settled s |}
  | Close code =>
      let trimmedStdout := normalizeMessage (stdoutAcc s) in
      let trimmedStderr := normalizeMessage (stderrAcc s) in
      settle
        (match code with
         | Some 0 => inl {| stdout := trimmedStdout; stderr := trimmedStderr |}
         | _ => inr (failureError code trimmedStderr)
         end)
        {| cmd := cmd s; timeoutMs := timeoutMs s; clock := clock s;
           stdoutAcc := stdoutAcc s; stderrAcc := stderrAcc s;
           finished := true; timer := None; killTimer := killTimer s;
           pid := pid s; kills := kills s; settled := settled s |}
  | ProcessError error =>
      settle (inr error)
        {| cmd := cmd s; timeoutMs := timeoutMs s; clock := clock s;
           stdoutAcc := stdoutAcc s; stderrAcc := stderrAcc s;
           finished := true; timer := None; killTimer := killTimer s;
           pid := pid s; kills := kills s; settled := settled s |}
  end.

(** A history of the call: time going by and events of the child. *)
Inductive Step :=
| Elapse (d : N)
| Emit (ev : ProcessEvent).

Definition step (s : Exec) (st : Step) : Exec :=
  match st with
  | Elapse d => elapse d s
  | Emit ev => onEvent ev s
  end.

Definition run (s : Exec) (history : list Step) : Exec :=
  fold_left step history s.

End WithLogger.

(** The time a history takes. *)
Definition elapsed (history : list Step) : Z :=
  fold_left (fun acc st => match st with
                           | Elapse d => acc + Z.of_N d
                           | Emit _ => acc
                           end) history 0.

(** The child neither closes nor fails: all it does is write. *)
Definition neverExits (history : list Step) : Prop :=
  Forall (fun st => match st with
                    | Emit (Close _) | Emit (ProcessError _) => False
                    | _ => True
                    end) history.

(** The three stages of a call with timeout [T], spawned at [startTime],
    whose child never exits, by the time [e] gone by since the spawn. *)
Inductive Stage (command : string) (T startTime : Z) (e : Z) (s : Exec) : Prop :=
| Waiting :
    (e < T \/ e = 0) ->
    timer s = Some (startTime + T) -> killTimer s = None ->
    finished s = false -> kills s = [] -> settled s = None ->
    Stage command T startTime e s
| Terminating :
    T <= e -> e < T + 5000 ->
    timer s = None -> killTimer s = Some (startTime + T + 5000) ->
    finished s = true -> kills s = [(startTime + T, SIGTERM)] ->
    settled s = Some (inr (timeoutError T command)) ->
    Stage command T startTime e s
| Killed :
    T + 5000 <= e ->
    timer s = None -> killTimer s = None ->
    finished s = true ->
    kills s = [(startTime + T, SIGTERM); (startTime + T + 5000, SIGKILL)] ->
    settled s = Some (inr (timeoutError T command)) ->
    Stage command T startTime e s.

Definition Escalating (command : string) (T : Z) (child : nat)
    (startTime : Z) (e : Z) (s : Exec) : Prop :=
  0 <= e /\ clock s = startTime + e /\ cmd s = command /\ timeoutMs s = T
  /\ pid s = Some child /\ Stage command T startTime e s.

End Runner.

(** ** The connection pool and its command queues

    The pool is shared by every caller, and a call of [processCommandQueue]
    lives across many turns of the event loop.  The model keeps the pooled
    objects in a store, the map of the pool as references into the store,
    and, with each object, the calls of [processCommandQueue] that are
    suspended on it.  An input is one turn of the event loop that concerns
    the pool. *)

Module Pool.
Import Ssh.

(** An entry of a command queue.  [rid] stands for the identity of the
    promise the entry carries, that is, of its [resolve] and [reject]. *)
Record Request := {
  cmd : string;
  timeout : Z;
  rid : nat;
}.

(** Where a call of [processCommandQueue] is suspended: at the [await] of
    the runner, holding the request it took off the queue, or at the
    [await] of the delay between commands. *)
Inductive Await :=
| AwaitRunner (r : Request)
| AwaitDelay.

Record PooledConnection := {
  connection : SshConnection;
  lastUsed : Z;
  isActive : bool;
  commandQueue : list Request;
  (** The suspended calls of [processCommandQueue] that hold this object. *)
  drains : list Await;
}.

(** What an observer of the pool sees, tagged with the key of the
    session. *)
Inductive Ev :=
| Queued (key : string) (r : nat)
| Started (key : string) (r : nat)
| Settled (key : string) (r : nat) (ok : bool).

Record State := {
  store : list PooledConnection;
  connectionPool : gmap string nat;
  poolCleanupInterval : bool;
  nextRid : nat;
  log : list Ev;
}.

Definition initial : State :=
  {| store := []; connectionPool := ∅; poolCleanupInterval := false;
     nextRid := 0; log := [] |}.

Definition keyOf (c : SshConnection) : string :=
  remoteUser c +:+ "@" +:+ remoteHost c.

(** Field updates. *)
Definition withStore (st : list PooledConnection) (s : State) : State :=
  {| store := st; connectionPool := connectionPool s;
     poolCleanupInterval := poolCleanupInterval s; nextRid := nextRid s;
     log := log s |}.

Definition withLog (l : list Ev) (s : State) : State :=
  {| store := store s; connectionPool := connectionPool s;
     poolCleanupInterval := poolCleanupInterval s; nextRid := nextRid s;
     log := l |}.

Definition touch (now : Z) (p : PooledConnection) : PooledConnection :=
  {| connection := connection p; lastUsed := now; isActive := isActive p;
     commandQueue := commandQueue p; drains := drains p |}.

Definition setActive (b : bool) (p : PooledConnection) : PooledConnection :=
  {| connection := connection p; lastUsed := lastUsed p; isActive := b;
     commandQueue := commandQueue p; drains := drains p |}.

Definition setQueue (q : list Request) (p : PooledConnection) : PooledConnection :=
  {| connection := connection p; lastUsed := lastUsed p; isActive := isActive p;
     commandQueue := q; drains := drains p |}.

Definition setDrains (d : list Await) (p : PooledConnection) : PooledConnection :=
  {| connection := connection p; lastUsed := lastUsed p; isActive := isActive p;
     commandQueue := commandQueue p; drains := d |}.

(** [getPooledConnection]: the reference of the session of the key, made
    on the spot when the map has none; the first session arms the
    clean-up interval. *)
Definition getPooledConnection (c : SshConnection) (now : Z) (s : State)
    : nat * State :=
  let key := keyOf c in
  let s1 :=
    match connectionPool s !! key with
    | Some _ => s
    | None =>
        let pooledConnection :=
          {| connection := c; lastUsed := now; isActive := false;
             commandQueue := []; drains := [] |} in
        let pool := <[key := length (store s)]> (connectionPool s) in
        {| store := store s ++ [pooledConnection];
           connectionPool := pool;
           poolCleanupInterval :=
             if (size pool =? 1)%nat && negb (poolCleanupInterval s)
             then true else poolCleanupInterval s;
           nextRid := nextRid s; log := log s |}
    end in
  let ref := default 0%nat (connectionPool s1 !! key) in
  (ref, withStore (alter (touch now) ref (store s1)) s1).

(** The loop of [processCommandQueue] from its head to the next [await],
    or to the end of the function. *)
Definition drainLoop (ref : nat) (now : Z) (s : State) : State :=
  match store s !! ref with
  | None => s
  | Some pooled =>
      match commandQueue pooled with
      | r :: rest =>
          withLog (log s ++ [Started (keyOf (connection pooled)) (rid r)])
            (withStore
               (<[ref := setDrains (drains pooled ++ [AwaitRunner r])
                           (setQueue rest pooled)]> (store s)) s)
      | [] =>
          withStore (<[ref := touch now (setActive false pooled)]> (store s)) s
      end
  end.

Definition processCommandQueue (ref : nat) (now : Z) (s : State) : State :=
  match store s !! ref with
  | None => s
  | Some pooled =>
      if isActive pooled || (length (commandQueue pooled) =? 0)%nat then s
      else drainLoop ref now
             (withStore (<[ref := setActive true pooled]> (store s)) s)
  end.

(** [executeRemoteCommandPooled], up to the return of its promise. *)
Definition executeRemoteCommandPooled (c : SshConnection) (command : string)
    (timeoutMs : Z) (now : Z) (s : State) : State :=
  let (ref, s1) := getPooledConnection c now s in
  match store s1 !! ref with
  | None => s1
  | Some pooled =>
      let request := {| cmd := command; timeout := timeoutMs; rid := nextRid s1 |} in
      let s2 :=
        {| store :=
             <[ref := setQueue (commandQueue pooled ++ [request]) pooled]> (store s1);
           connectionPool := connectionPool s1;
           poolCleanupInterval := poolCleanupInterval s1;
           nextRid := S (nextRid s1);
           log := log s1 ++ [Queued (keyOf c) (nextRid s1)] |} in
      if isActive pooled then s2 else processCommandQueue ref now s2
  end.

(** The suspended call number [j] on the object [ref] goes on: after the
    runner, with its outcome, it resolves or rejects the request and either
    waits for the delay or loops; after the delay, it loops. *)
Definition resume (ref j : nat) (ok : bool) (now : Z) (s : State) : State :=
  match store s !! ref with
  | None => s
  | Some pooled =>
      match drains pooled !! j with
      | None => s
      | Some a =>
          let pooled1 := setDrains (delete j (drains pooled)) pooled in
          match a with
          | AwaitRunner r =>
              let l := log s ++ [Settled (keyOf (connection pooled)) (rid r) ok] in
              if ok then
                withLog l
                  (withStore
                     (<[ref := setDrains (drains pooled1 ++ [AwaitDelay]) pooled1]>
                        (store s)) s)
              else
                drainLoop ref now
                  (withLog l (withStore (<[ref := pooled1]> (store s)) s))
          | AwaitDelay =>
              drainLoop ref now (withStore (<[ref := pooled1]> (store s)) s)
          end
      end
  end.

Definition maxIdleTime : Z := 300000.

(** The test of the clean-up for one entry of the map. *)
Definition reapable (st : list PooledConnection) (now : Z) (ref : nat) : bool :=
  match st !! ref with
  | Some pooled => negb (isActive pooled) && (maxIdleTime <? now - lastUsed pooled)
  | None => false
  end.

(** One tick of the clean-up interval. *)
Definition cleanupTick (now : Z) (s : State) : State :=
  if poolCleanupInterval s then
    let pool :=
      filter (fun kv => reapable (store s) now (snd kv) = false)
        (connectionPool s) in
    {| store := store s; connectionPool := pool;
       poolCleanupInterval := if (size pool =? 0)%nat then false else true;
       nextRid := nextRid s; log := log s |}
  else s.

(** [cleanupConnectionPool] *)
Definition cleanupConnectionPool (s : State) : State :=
  {| store := store s; connectionPool := ∅; poolCleanupInterval := false;
     nextRid := nextRid s; log := log s |}.

Inductive Input :=
| Submit (c : SshConnection) (command : string) (timeoutMs : Z) (now : Z)
| Resume (ref j : nat) (ok : bool) (now : Z)
| Tick (now : Z)
| Teardown.

Definition step (s : State) (i : Input) : State :=
  match i with
  | Submit c command timeoutMs now =>
      executeRemoteCommandPooled c command timeoutMs now s
  | Resume ref j ok now => resume ref j ok now s
  | Tick now => cleanupTick now s
  | Teardown => cleanupConnectionPool s
  end.

Definition run (s : State) (inputs : list Input) : State :=
  fold_left step inputs s.

(** *** The reading of a log, one key at a time *)

(** The lane of a key: the requests settled so far, the request in the
    hands of the runner, and the requests waiting, oldest first. *)
Record Lane := {
  done : list nat;
  running : option nat;
  pending : list nat;
}.

Definition idle : Lane := {| done := []; running := None; pending := [] |}.

(** One event read against a lane.  A start is accepted only when nothing
    runs and the request is the oldest one waiting; a settlement only for
    the request that runs. *)
Definition observe (key : string) (l : Lane) (ev : Ev) : option Lane :=
  match ev with
  | Queued k r =>
      if String.eqb k key
      then Some {| done := done l; running := running l;
                   pending := pending l ++ [r] |}
      else Some l
  | Started k r =>
      if String.eqb k key then
        match running l, pending l with
        | None, r' :: rest =>
            if (r =? r')%nat
            then Some {| done := done l; running := Some r; pending := rest |}
            else None
        | _, _ => None
        end
      else Some l
  | Settled k r _ =>
      if String.eqb k key then
        match running l with
        | Some r' =>
            if (r =? r')%nat
            then Some {| done := done l ++ [r]; running := None;
                         pending := pending l |}
            else None
        | None => None
        end
      else Some l
  end.

Definition observeAll (key : string) (l : option Lane) (evs : list Ev)
    : option Lane :=
  fold_left (fun acc ev => acc ≫= fun l => observe key l ev) evs l.

(** The log of a key is serial when every event of it is accepted. *)
Definition serial (key : string) (evs : list Ev) : option Lane :=
  observeAll key (Some idle) evs.

(** The requests of a key in the order queued, started and settled. *)
Definition queuedOf (key : string) (evs : list Ev) : list nat :=
  omap (fun ev => match ev with
                  | Queued k r => if String.eqb k key then Some r else None
                  | _ => None
                  end) evs.

Definition startedOf (key : string) (evs : list Ev) : list nat :=
  omap (fun ev => match ev with
                  | Started k r => if String.eqb k key then Some r else None
                  | _ => None
                  end) evs.

Definition settledOf (key : string) (evs : list Ev) : list nat :=
  omap (fun ev => match ev with
                  | Settled k r _ => if String.eqb k key then Some r else None
                  | _ => None
                  end) evs.

(** *** The discipline of the full teardown *)

Definition awaitsRunner (a : Await) : bool :=
  match a with AwaitRunner _ => true | AwaitDelay => false end.

(** No request is outstanding: no queue holds one and no runner works on
    one. *)
Definition quiescent (s : State) : bool :=
  forallb (fun p => (length (commandQueue p) =? 0)%nat
                    && negb (existsb awaitsRunner (drains p)))
    (store s).

(** Every teardown among the inputs finds the pool quiescent: the callers
    have awaited what they submitted. *)
Fixpoint disciplined (s : State) (inputs : list Input) : bool :=
  match inputs with
  | [] => true
  | i :: rest =>
      match i with Teardown => quiescent s | _ => true end
      && disciplined (step s i) rest
  end.

(** *** Well-formed states of the pool *)

Definition evKey (ev : Ev) : string :=
  match ev with
  | Queued k _ | Started k _ | Settled k _ _ => k
  end.

(** The request a session has in the hands of the runner. *)
Definition runningOf (ds : list Await) : option nat :=
  match ds with
  | [AwaitRunner r] => Some (rid r)
  | _ => None
  end.

(** The session the map holds for a key. *)
Definition liveObject (s : State) (key : string) : option PooledConnection :=
  connectionPool s !! key ≫= fun ref => store s !! ref.

(** A lane agrees with a session. *)
Definition laneMatches (l : Lane) (o : option PooledConnection) : Prop :=
  match o with
  | Some p =>
      running l = runningOf (drains p) /\ pending l = rid <$> commandQueue p
  | None => running l = None /\ pending l = []
  end.

(** An object is either at rest, with nothing queued and no call suspended
    on it, or active with exactly one suspended call. *)
Definition objOk (p : PooledConnection) : Prop :=
  (isActive p = false /\ drains p = [] /\ commandQueue p = [])
  \/ (isActive p = true /\ exists a, drains p = [a]).

(** An object has no request outstanding. *)
Definition settledObj (p : PooledConnection) : Prop :=
  commandQueue p = [] /\ existsb awaitsRunner (drains p) = false.

(** From [s] to [s']: the object [ref] becomes [p'], the log grows by
    [evs], nothing else that the invariant reads changes. *)
Definition updates (s s' : State) (ref : nat) (p' : PooledConnection)
    (evs : list Ev) : Prop :=
  store s' !! ref = Some p'
  /\ (forall i, i <> ref -> store s' !! i = store s !! i)
  /\ connectionPool s' = connectionPool s
  /\ log s' = log s ++ evs.

Record Inv (s : State) : Prop := {
  inv_map :
    forall key ref, connectionPool s !! key = Some ref ->
      exists p, store s !! ref = Some p /\ keyOf (connection p) = key;
  inv_obj : forall ref p, store s !! ref = Some p -> objOk p;
  inv_orphan :
    forall ref p, store s !! ref = Some p ->
      connectionPool s !! keyOf (connection p) <> Some ref -> settledObj p;
  inv_lane :
    forall key, exists l,
      serial key (log s) = Some l /\ laneMatches l (liveObject s key);
}.

End Pool.

(** ** Readers of a history of the runner *)

Module RunnerReading.
Import Ssh Runner.

Section WithLogger.
Variable normalizeMessage : string -> string.

(** What the [data] listeners have gathered from a history, on top of
    [acc]. *)
Definition outOf (acc : string) (history : list Step) : string :=
  fold_left (fun a st => match st with
                         | Emit (StdoutData chunk) => a +:+ normalizeMessage chunk
                         | _ => a
                         end) history acc.

Definition errOf (acc : string) (history : list Step) : string :=
  fold_left (fun a st => match st with
                         | Emit (StderrData chunk) => a +:+ normalizeMessage chunk
                         | _ => a
                         end) history acc.

(** How the promise is settled by the end of the child, [before] being the
    history up to that event. *)
Definition exitOutcome (before : list Step) (ev : ProcessEvent)
    : option (Outcome SshCommandResult) :=
  match ev with
  | Close (Some 0) =>
      Some (inl {| stdout := normalizeMessage (outOf "" before);
                   stderr := normalizeMessage (errOf "" before) |})
  | Close code =>
      Some (inr (failureError code (normalizeMessage (errOf "" before))))
  | ProcessError error => Some (inr error)
  | _ => None
  end.

End WithLogger.

(** The child ends: it closes or fails. *)
Definition isExit (ev : ProcessEvent) : bool :=
  match ev with
  | Close _ | ProcessError _ => true
  | _ => false
  end.

(** The child of a call has ended within a history: it has closed or
    failed. *)
Definition childEnded (history : list Step) : bool :=
  existsb (fun st => match st with
                     | Emit ev => isExit ev
                     | Elapse _ => false
                     end) history.

(** Where the promise of a call stands after a history, for a call of
    [command] spawned at [startTime] with time-out [T]: not settled, the
    child running and the timer armed; or the child has ended; or the
    time-out has fired and rejected it. *)
Inductive Settlement (command : string) (T startTime : Z)
    (history : list Step) (s : Exec) : Prop :=
| Pending :
    childEnded history = false -> settled s = None -> finished s = false ->
    timer s = Some (startTime + timerDelay T) ->
    Settlement command T startTime history s
| ByExit :
    childEnded history = true ->
    Settlement command T startTime history s
| ByTimeout :
    settled s = Some (inr (timeoutError T command)) ->
    timerDelay T <= elapsed history ->
    Settlement command T startTime history s.

(** The states of a call by what its timers and signals have done, for a
    call spawned at [startTime] with timeout [T]. *)
Inductive SignalStage (T startTime : Z) (s : Exec) : Prop :=
| Armed :
    timer s = Some (startTime + T) -> killTimer s = None -> kills s = [] ->
    clock s <= startTime + T ->
    SignalStage T startTime s
| Cleared :
    timer s = None -> killTimer s = None -> kills s = [] ->
    SignalStage T startTime s
| TermSent :
    timer s = None -> killTimer s = Some (startTime + T + 5000) ->
    kills s = [(startTime + T, SIGTERM)] -> clock s < startTime + T + 5000 ->
    SignalStage T startTime s
| TermOnly :
    timer s = None -> killTimer s = None ->
    kills s = [(startTime + T, SIGTERM)] ->
    SignalStage T startTime s
| KillSent :
    timer s = None -> killTimer s = None ->
    kills s = [(startTime + T, SIGTERM); (startTime + T + 5000, SIGKILL)] ->
    SignalStage T startTime s.

(** After the graceful signal, with a child that was spawned: the forced
    kill is pending until [T + 5000] and sent from then on. *)
Definition AfterTerm (T : Z) (child : nat) (startTime : Z) (e : Z) (s : Exec)
    : Prop :=
  pid s = Some child /\ clock s = startTime + e /\ timer s = None
  /\ ((e < T + 5000 /\ killTimer s = Some (startTime + T + 5000)
       /\ kills s = [(startTime + T, SIGTERM)])
      \/ (T + 5000 <= e /\ killTimer s = None
          /\ kills s = [(startTime + T, SIGTERM);
                        (startTime + T + 5000, SIGKILL)])).

End RunnerReading.

(** ** Readings of the pool: identities, the clean-up interval, progress *)

Module PoolReading.
Import Ssh Pool.

(** The identities of the requests queued, whatever the key. *)
Definition queuedIds (evs : list Ev) : list nat :=
  omap (fun ev => match ev with Queued _ r => Some r | _ => None end) evs.

(** The clean-up interval runs exactly when the map holds a session. *)
Definition armed (s : State) : Prop :=
  poolCleanupInterval s = negb (size (connectionPool s) =? 0)%nat.

(** The turns a session still needs before it is at rest: two for each
    request queued and for the one in the hands of the runner, one for a
    delay under way. *)
Definition weight (p : PooledConnection) : nat :=
  2 * length (commandQueue p)
  + match drains p with
    | [AwaitRunner _] => 2
    | [AwaitDelay] => 1
    | _ => 0
    end.

(** [n] turns in which the suspended call of the session [ref] goes on:
    turn [i] happens at the time [at_ i], and a runner that returns in it
    returns with the outcome [oks i]. *)
Definition resumes (ref : nat) (oks : nat -> bool) (at_ : nat -> Z) (n : nat)
    : list Input :=
  (fun i => Resume ref 0 (oks i) (at_ i)) <$> seq 0 n.

End PoolReading.

(** ** The queue and the runner together *)

Module PoolRunner.
Import Ssh.

(** [await this.executeRemoteCommand(...)] in [processCommandQueue]: the
    call suspended on the session [ref] goes on in the turn in which the
    promise of the runner is settled, with its outcome; until then it
    stays suspended.  [e] is the call of the runner as that turn finds
    it. *)
Definition runnerReturns (ref : nat) (e : Runner.Exec) (s : Pool.State)
    : Pool.State :=
  match Runner.settled e with
  | Some (inl _) => Pool.step s (Pool.Resume ref 0 true (Runner.clock e))
  | Some (inr _) => Pool.step s (Pool.Resume ref 0 false (Runner.clock e))
  | None => s
  end.

End PoolRunner.

(** ** Readings of the lifecycle procedures *)

Module LifecycleReading.
Import JsString Ssh Lifecycle.

(** A reply to the poll of [verifyNodeStopped] that keeps the poll going:
    the command succeeded and its output is not the token. *)
Definition listsProcesses (res : Outcome SshCommandResult) : bool :=
  match res with
  | inl r => negb (String.eqb (trim (stdout r)) "NO_PROCESSES")
  | inr _ => false
  end.

(** What one round of the poll leaves in the trace: the submission and,
    when the reply keeps the poll going, the wait before the next round. *)
Definition pollRound (res : Outcome SshCommandResult) : list Event :=
  Submitted pgrepOrNoneCmd 10000 res
  :: (if listsProcesses res then [Slept 3000] else []).

(** The submissions of a trace, in order: the text, the time-out and the
    result of each. *)
Definition submissionsOf (tr : list Event)
    : list (string * Z * Outcome SshCommandResult) :=
  omap (fun ev => match ev with
                  | Submitted c t res => Some (c, t, res)
                  | Slept _ => None
                  end) tr.

(** Every submission of [delta] carries what the target replies to it,
    [first] submissions having been made before those of [delta]. *)
Definition answeredBy (remote : Remote) (connection : SshConnection)
    (first : nat) (delta : list Event) : Prop :=
  forall j c t res,
    submissionsOf delta !! j = Some (c, t, res) ->
    res = outcome (remote (first + j)%nat connection c t).

(** The text is submitted at least once in [delta]. *)
Definition asks (text : string) (delta : list Event) : Prop :=
  exists t res, Submitted text t res ∈ delta.

End LifecycleReading.

(** ** The target of the environment and the initializer

    [SshService.createConnection] and [CelestiaNodeInitializer].  The
    environment of the process is a finite map from the names of the
    variables that are set to their values. *)

Module Initializer.
Import JsString Ssh.
Open Scope js_scope.

(** [process.env] *)
Definition Env : Type := gmap string string.

(** [a || b] on values that are a string or [undefined]: [a] when it is
    truthy, that is, a string that is not empty. *)
Definition orElse (a b : option string) : option string :=
  match a with
  | Some s => if truthy s then a else b
  | None => b
  end.

(** [a || d] with a string literal [d] that is not empty. *)
Definition orDefault (a : option string) (d : string) : string :=
  match a with
  | Some s => if truthy s then s else d
  | None => d
  end.

(** [!v] on a value that is a string or [undefined]. *)
Definition falsy (v : option string) : bool :=
  match v with
  | Some s => negb (truthy s)
  | None => true
  end.

(** [SshService.createConnection()] *)
Definition createConnection (env : Env) : option SshConnection :=
  let sshKey := "~/.ssh/id_rsa.pem"%string in
  let remoteUser := orElse (env !! "VM_USER"%string) (env !! "REMOTE_USER"%string) in
  let remoteHost :=
    orElse (env !! "VM_IP_ADDRESS"%string) (env !! "REMOTE_HOST"%string) in
  if falsy remoteUser || falsy remoteHost then None
  else
    Some {| sshKey := sshKey;
            remoteUser := default ""%string remoteUser;
            remoteHost := default ""%string remoteHost |}.

(** The default of the parameter [targetNetwork], used when the caller
    passes no argument. *)
Definition networkOf (env : Env) (targetNetwork : option string) : string :=
  match targetNetwork with
  | Some n => n
  | None => orDefault (env !! "CELESTIA_NETWORK"%string) "mocha"
  end.

Definition initCmd (env : Env) (targetNetwork : string) : string :=
  orDefault (env !! "CELESTIA_BINARY_PATH"%string) "/usr/local/bin/celestia"
  +:+ " light init --p2p.network " +:+ targetNetwork.

Definition initOptions : CommandOptions :=
  {| timeout := Some 300000; requiresSudo := None; retries := None |}.

(** The directory that [removeNodeInitialization] removes. *)
Definition nodeStore (env : Env) (targetNetwork : string)
    (celestiaUser : option string) : string :=
  let effectiveCelestiaUser :=
    orElse celestiaUser (env !! "CELESTIA_USER"%string) in
  if falsy effectiveCelestiaUser
  then "$HOME/.celestia-light-" +:+ targetNetwork
  else "/home/" +:+ default ""%string effectiveCelestiaUser
       +:+ "/.celestia-light-" +:+ targetNetwork.

Definition removeCmd (env : Env) (targetNetwork : string)
    (celestiaUser : option string) : string :=
  "rm -rf " +:+ nodeStore env targetNetwork celestiaUser.

Section WithTarget.
Variable remote : Remote.
Variable env : Env.

(** [initializeNode]: a failure of the command whose message says that
    the node store already exists counts as success; any other failure is
    thrown again, by the inner and then by the outer handler. *)
Definition initializeNode (targetNetwork : option string) : M bool :=
  let targetNetwork := networkOf env targetNetwork in
  tryCatch
    (match createConnection env with
     | None => ret false
     | Some connection =>
         tryCatch
           (runRemote remote connection (initCmd env targetNetwork) initOptions ;;
            ret true)
           (fun error =>
              if includes (message error) "already exists" then ret true
              else throw error)
     end)
    (fun error => throw error).

(** [removeNodeInitialization] *)
Definition removeNodeInitialization (targetNetwork : option string)
    (celestiaUser : option string) : M bool :=
  let targetNetwork := networkOf env targetNetwork in
  tryCatch
    (match createConnection env with
     | None => ret false
     | Some connection =>
         tryCatch
           (runRemote remote connection
              (removeCmd env targetNetwork celestiaUser) noOptions ;;
            ret true)
           (fun _ => ret false)
     end)
    (fun _ => ret false).

End WithTarget.

(** An environment variable that is unset or set to the empty string. *)
Definition unsetOrEmpty (env : Env) (name : string) : Prop :=
  env !! name = None \/ env !! name = Some ""%string.

End Initializer.

(** ** Sample targets and inputs, used to run the definitions *)

Module Samples.
Import Ssh.

Definition vm : SshConnection :=
  {| sshKey := "~/.ssh/id_rsa.pem"; remoteUser := "azureuser";
     remoteHost := "10.0.0.4" |}.

Definition world0 : World := {| now := 0; calls := 0; trace := [] |}.

Definition ok (out : string) : Outcome SshCommandResult :=
  inl {| stdout := out; stderr := "" |}.

Definition failed (msg : string) : Outcome SshCommandResult :=
  inr {| message := msg |}.

(** A target on which every submission fails, each with an error of its
    own. *)
Definition downRemote : Remote :=
  fun n _ _ _ =>
    {| outcome := failed ("SSH command failed with code 255: " +:+ pretty n);
       took := 40 |}.

Definition threeTries : CommandOptions :=
  {| timeout := Some 90000; requiresSudo := Some true; retries := Some 3 |}.

(** A target that answers the submissions of one task from a script, in
    order, and with [fallback] once the script is used up. *)
Definition scripted (replies : list (Outcome SshCommandResult))
    (fallback : Outcome SshCommandResult) : Remote :=
  fun n _ _ _ => {| outcome := nth n replies fallback; took := 50 |}.

(** The service is active, but the status dump that follows fails. *)
Definition activeThenBroken : Remote :=
  scripted [ok "active"] (failed "SSH command failed with code 255: ").

(** The service is inactive and the start command fails. *)
Definition startFails : Remote :=
  scripted [ok "inactive"]
    (failed "SSH command failed with code 1: sudo: a password is required").

(** The service is inactive, the start command succeeds, and the service
    is active afterwards. *)
Definition startSucceeds : Remote :=
  scripted [ok "inactive"; ok ""; ok "active"] (ok "").

(** The stop command succeeds, but a process stays in the process list
    for good. *)
Definition lingering : Remote :=
  scripted [ok ""; ok "inactive"] (ok "4242").

(** The service manager says inactive, the process list has two ids. *)
Definition unmanaged : Remote :=
  scripted [ok "inactive"; ok "not found"; ok ("4242" +:+ String JsString.newline "4243")]
    (ok "").

(** A second target. *)
Definition vm2 : SshConnection :=
  {| sshKey := "~/.ssh/id_rsa.pem"; remoteUser := "root";
     remoteHost := "10.0.0.5" |}.

(** Inputs of the pool with two targets: three commands for the first,
    one for the second, two failures, and two ticks of the clean-up. *)
Definition busyDay : list Pool.Input :=
  [Pool.Submit vm "a" 30000 0; Pool.Submit vm "b" 30000 1;
   Pool.Submit vm2 "c" 30000 2; Pool.Resume 0 0 true 5;
   Pool.Submit vm "d" 30000 6; Pool.Resume 0 0 true 7;
   Pool.Resume 0 0 false 8; Pool.Resume 0 0 false 9; Pool.Tick 400000;
   Pool.Resume 1 0 false 400001; Pool.Tick 800000].

(** A target whose first submission fails and whose later ones answer. *)
Definition flaky : Remote :=
  scripted [failed "SSH command failed with code 255: "] (ok "stopped").

(** An environment that names a target, and a target on which the node
    store is already there. *)
Definition env0 : Initializer.Env :=
  <["VM_USER"%string := "azureuser"%string]>
    (<["VM_IP_ADDRESS"%string := "10.0.0.4"%string]>
       (<["REMOTE_USER"%string := "root"%string]> ∅)).

Definition alreadyThere : Remote :=
  scripted []
    (failed "SSH command failed with code 1: Error: node store already exists").

End Samples.

(** * Part II: lemmas and theorems *)

(** ** Facts about the string primitives *)

Module JsStringFacts.
Import JsString.

Example trim_both_ends :
  trim (String newline "  active " +:+ String newline "") = "active"%string.
Proof. reflexivity. Qed.

Example split_lines :
  split newline ("4242" +:+ String newline "4243" +:+ String newline "")
  = ["4242"; "4243"; ""]%string.
Proof. reflexivity. Qed.

Example split_empty : split newline "" = [""%string].
Proof. reflexivity. Qed.

Example replace_first_only :
  replace "sudo sh -c 'sudo id'" "sudo " "sudo -n " = "sudo -n sh -c 'sudo id'"%string.
Proof. reflexivity. Qed.

Example includes_inside : includes "echo x | sudo tee" "sudo" = true.
Proof. reflexivity. Qed.

Lemma startsWith_includes (s p : string) :
  startsWith s p = true -> includes s p = true.
Proof.
  unfold startsWith. destruct s; simpl; intros ->; reflexivity.
Qed.

Lemma replace_at_head (s pat rep : string) :
  startsWith s pat = true ->
  replace s pat rep = rep +:+ drop (String.length pat) s.
Proof.
  unfold startsWith. destruct s; simpl; intros ->; reflexivity.
Qed.

Lemma prefix_weaken (p q s : string) :
  String.prefix (p +:+ q) s = true -> String.prefix p s = true.
Proof.
  revert s. induction p as [|a p IH]; intros s.
  { intros _. destruct s; reflexivity. }
  change (String a p +:+ q) with (String a (p +:+ q)).
  destruct s as [|b s]; [discriminate|]. cbn.
  destruct (Ascii.ascii_dec a b); [apply IH | discriminate].
Qed.

Lemma startsWith_sudo_space (s : string) :
  startsWith s "sudo " = true -> startsWith s "sudo" = true.
Proof. apply (prefix_weaken "sudo" " "). Qed.

End JsStringFacts.

(** ** The sudo rewrite *)

Module SudoRewrite.
Import JsString JsStringFacts Ssh.

Lemma modifiedCommand_rewritten (c : string) :
  startsWith c "sudo " = true -> includes c "sudo -n" = false ->
  modifiedCommand c = "sudo -n " +:+ drop 5 c.
Proof.
  intros Hs Hi. unfold modifiedCommand. rewrite Hs, Hi. simpl andb. cbv iota.
  now rewrite replace_at_head.
Qed.

Lemma modifiedCommand_kept (c : string) :
  startsWith c "sudo " && negb (includes c "sudo -n") = false ->
  modifiedCommand c = c.
Proof. intros H. unfold modifiedCommand. now rewrite H. Qed.

Lemma rewritten_has_flag (x : string) :
  includes ("sudo -n " +:+ x) "sudo -n" = true.
Proof. reflexivity. Qed.

(** C4.  The rewrite of a [sudo ] command into its [sudo -n ] form is
    idempotent: rewriting an already rewritten text changes nothing. *)
Theorem modifiedCommand_idempotent (command : string) :
  modifiedCommand (modifiedCommand command) = modifiedCommand command.
Proof.
  destruct (startsWith command "sudo " && negb (includes command "sudo -n"))
    eqn:Hc.
  - apply andb_true_iff in Hc as [Hs Hi].
    apply negb_true_iff in Hi.
    rewrite (modifiedCommand_rewritten _ Hs Hi).
    apply modifiedCommand_kept.
    rewrite rewritten_has_flag. apply andb_false_r.
  - now rewrite !(modifiedCommand_kept _ Hc).
Qed.

Example rewrite_stop :
  modifiedCommand "sudo systemctl stop celestia-light"
  = "sudo -n systemctl stop celestia-light".
Proof. reflexivity. Qed.

Example rewrite_later_sudo :
  modifiedCommand "echo x | sudo tee /etc/f" = "echo x | sudo tee /etc/f".
Proof. reflexivity. Qed.

End SudoRewrite.

(** ** Retry with back-off *)

Module Retry.
Import JsString JsStringFacts Ssh.

Lemma sudoAttempts_retryLoop remote connection text timeoutMs R attempts w :
  sudoAttempts remote connection text timeoutMs R attempts w
  = retryLoop remote SudoPath connection text timeoutMs R attempts w.
Proof.
  revert w. induction attempts as [|a rest IH]; intros w; [reflexivity|].
  simpl. unfold tryCatch, bind.
  destruct (executeRemoteCommandPooled _ _ _ _ w) as [[v|e] w1]; [reflexivity|].
  destruct (a =? R); [reflexivity|].
  destruct (sleep _ w1) as [[u|e'] w2]; [apply IH | reflexivity].
Qed.

Lemma plainAttempts_retryLoop remote connection text timeoutMs R attempts w :
  plainAttempts remote connection text timeoutMs R attempts w
  = retryLoop remote PlainPath connection text timeoutMs R attempts w.
Proof.
  revert w. induction attempts as [|a rest IH]; intros w; [reflexivity|].
  simpl. unfold tryCatch, bind.
  destruct (executeRemoteCommandPooled _ _ _ _ w) as [[v|e] w1]; [reflexivity|].
  destruct (a =? R); [reflexivity|].
  destruct (sleep _ w1) as [[u|e'] w2]; [apply IH | reflexivity].
Qed.

(** Both paths run the shared loop on the text of their path. *)
Lemma executeRemoteCommandWithOptions_retryLoop remote connection cmd options w :
  executeRemoteCommandWithOptions remote connection cmd options w
  = retryLoop remote (pathOf cmd options) connection
      (sentText (pathOf cmd options) cmd) (timeoutOf options)
      (retriesOf options) (seqZ 1 (retriesOf options)) w.
Proof.
  unfold executeRemoteCommandWithOptions, executeSudoCommand.
  destruct (pathOf cmd options); simpl sentText.
  - apply sudoAttempts_retryLoop.
  - apply plainAttempts_retryLoop.
Qed.

Lemma seqZ_step (a : Z) (n : nat) :
  seqZ a (Z.of_nat (S n)) = a :: seqZ (a + 1) (Z.of_nat n).
Proof.
  rewrite seqZ_cons by lia.
  f_equal. f_equal; lia.
Qed.

Section FailingLoop.
Variables (remote : Remote) (p : Path) (connection : SshConnection).
Variables (text : string) (timeoutMs R : Z) (first : nat).
Hypothesis failing : alwaysFails remote connection.

Lemma retryLoop_cons_fail (a : Z) (rest : list Z) (w : World) :
  retryLoop remote p connection text timeoutMs R (a :: rest) w
  = let w1 := snd (executeRemoteCommandPooled remote connection text timeoutMs w) in
    if a =? R
    then (outcome (remote (calls w) connection text timeoutMs), w1)
    else retryLoop remote p connection text timeoutMs R rest
           (snd (sleep (baseDelay p * a) w1)).
Proof.
  cbn [retryLoop]. unfold tryCatch, executeRemoteCommandPooled.
  destruct (failing (calls w) text timeoutMs) as [e He].
  rewrite He. cbn [snd]. destruct (a =? R); reflexivity.
Qed.

Lemma retryLoop_failing (n : nat) :
  forall (a : Z) (w : World),
    1 <= a -> a + Z.of_nat n = R + 1 -> (1 <= n)%nat ->
    calls w = (first + Z.to_nat (a - 1))%nat ->
    fst (retryLoop remote p connection text timeoutMs R (seqZ a (Z.of_nat n)) w)
    = outcome (remote (first + Z.to_nat (R - 1))%nat connection text timeoutMs)
    /\ calls (snd (retryLoop remote p connection text timeoutMs R
                     (seqZ a (Z.of_nat n)) w))
       = (first + Z.to_nat R)%nat
    /\ trace (snd (retryLoop remote p connection text timeoutMs R
                     (seqZ a (Z.of_nat n)) w))
       = trace w ++
         concat (failedAttempt remote connection text timeoutMs
                   (baseDelay p) R first <$> seqZ a (Z.of_nat n)).
Proof.
  induction n as [|n IH]; intros a w Ha Hlen Hn Hcalls; [lia|].
  rewrite seqZ_step, retryLoop_cons_fail.
  cbn [fmap list_fmap concat]. unfold failedAttempt at 1.
  cbv zeta. destruct (a =? R) eqn:HaR.
  - apply Z.eqb_eq in HaR. subst a.
    assert (n = 0%nat) as -> by lia.
    change (seqZ (R + 1) (Z.of_nat 0)) with (@nil Z).
    cbn [fst snd executeRemoteCommandPooled calls trace fmap list_fmap concat].
    rewrite <- Hcalls, app_nil_r.
    repeat split. rewrite Hcalls. lia.
  - apply Z.eqb_neq in HaR.
    destruct (IH (a + 1)
                (snd (sleep (baseDelay p * a)
                        (snd (executeRemoteCommandPooled remote connection
                                text timeoutMs w)))))
      as (Hres & Hc & Htr); [lia | lia | lia | |].
    { cbn. rewrite Hcalls. replace (a + 1 - 1) with (Z.succ (a - 1)) by lia.
      rewrite Z2Nat.inj_succ by lia. lia. }
    repeat split; [exact Hres | exact Hc |].
    rewrite Htr. cbn [sleep executeRemoteCommandPooled snd trace].
    rewrite <- Hcalls, <- !app_assoc. reflexivity.
Qed.

End FailingLoop.

Lemma sleeps_failedAttempts remote connection text timeoutMs base R first (n : nat) :
  forall a, a + Z.of_nat n = R + 1 ->
    sleeps (concat (failedAttempt remote connection text timeoutMs base R first
                      <$> seqZ a (Z.of_nat n)))
    = (fun i => base * i) <$> seqZ a (Z.of_nat n - 1).
Proof.
  induction n as [|n IH]; intros a Hlen; [reflexivity|].
  rewrite seqZ_step. cbn [fmap list_fmap concat].
  unfold failedAttempt at 1.
  destruct (a =? R) eqn:HaR.
  - apply Z.eqb_eq in HaR. assert (n = 0%nat) as -> by lia. reflexivity.
  - apply Z.eqb_neq in HaR. destruct n as [|n]; [lia|].
    cbn [app sleeps omap list_omap].
    change (omap ?f ?l) with (sleeps l).
    rewrite IH by lia.
    replace (Z.of_nat (S (S n)) - 1) with (Z.of_nat (S n)) by lia.
    rewrite (seqZ_step a n). cbn [fmap list_fmap].
    f_equal. f_equal. f_equal. lia.
Qed.

Lemma scaled_seqZ_increasing (base a : Z) (n : nat) :
  0 < base ->
  StronglySorted Z.lt ((fun i => base * i) <$> seqZ a (Z.of_nat n)).
Proof.
  intros Hb. revert a. induction n as [|n IH]; intros a; [constructor|].
  rewrite seqZ_step. cbn [fmap list_fmap]. constructor; [apply IH|].
  apply Forall_fmap, Forall_forall. intros x Hx.
  apply elem_of_seqZ in Hx. cbn. nia.
Qed.

End Retry.

(** ** The policy as a whole *)

Module Policy.
Import JsString JsStringFacts Ssh SudoRewrite Retry.

Lemma submittedTexts_failedAttempts remote connection text timeoutMs base R first
    (n : nat) :
  forall a,
    submittedTexts
      (concat (failedAttempt remote connection text timeoutMs base R first
                 <$> seqZ a (Z.of_nat n)))
    = replicate n text.
Proof.
  induction n as [|n IH]; intros a; [reflexivity|].
  rewrite seqZ_step. cbn [fmap list_fmap concat replicate].
  unfold failedAttempt at 1. unfold submittedTexts in *.
  destruct (a =? R); cbn [app omap list_omap]; now rewrite IH.
Qed.

(** C2.  With [retries = R] (one when the option is left out), [R] at
    least one, against a target that fails every command: exactly [R]
    attempts are made, all with the text of the path taken; the wait after
    failed attempt [i], for [i] below [R], is [i] times the base delay of
    the path (2000 on the sudo path, 1000 on the plain path), so the waits
    strictly increase; and the error that reaches the caller is the very
    error of attempt [R]. *)
Theorem retry_backoff (remote : Remote) (connection : SshConnection)
    (cmd : string) (options : CommandOptions) (w : World) (R : Z) :
  retriesOf options = R ->
  1 <= R ->
  alwaysFails remote connection ->
  let p := pathOf cmd options in
  let text := sentText p cmd in
  let run := executeRemoteCommandWithOptions remote connection cmd options w in
  let attempts :=
    concat (failedAttempt remote connection text (timeoutOf options)
              (baseDelay p) R (calls w) <$> seqZ 1 R) in
  trace (snd run) = trace w ++ attempts
  /\ calls (snd run) = (calls w + Z.to_nat R)%nat
  /\ submittedTexts attempts = replicate (Z.to_nat R) text
  /\ sleeps attempts = (fun i => baseDelay p * i) <$> seqZ 1 (R - 1)
  /\ StronglySorted Z.lt (sleeps attempts)
  /\ baseDelay p = (if requiresSudoOf cmd options || startsWith cmd "sudo"
                    then 2000 else 1000)
  /\ (exists e, fst run = inr e)
  /\ fst run
     = outcome (remote (calls w + Z.to_nat (R - 1))%nat connection text
                  (timeoutOf options)).
Proof.
  intros HRo H1 Hfail p text run attempts.
  assert (Z.of_nat (Z.to_nat R) = R) as Hnat by lia.
  subst run. rewrite executeRemoteCommandWithOptions_retryLoop, HRo.
  fold p. fold text. subst attempts.
  assert (seqZ 1 R = seqZ 1 (Z.of_nat (Z.to_nat R))) as Hseq
    by now rewrite Hnat.
  rewrite Hseq.
  destruct (retryLoop_failing remote p connection text (timeoutOf options) R
              (calls w) Hfail (Z.to_nat R) 1 w)
    as (Hres & Hc & Htr); [lia | lia | lia | cbn; lia |].
  assert (sleeps
            (concat (failedAttempt remote connection text (timeoutOf options)
                       (baseDelay p) R (calls w) <$> seqZ 1 (Z.of_nat (Z.to_nat R))))
          = (fun i => baseDelay p * i) <$> seqZ 1 (R - 1)) as Hsl.
  { rewrite sleeps_failedAttempts by lia. now rewrite Hnat. }
  repeat split.
  - exact Htr.
  - exact Hc.
  - apply submittedTexts_failedAttempts.
  - exact Hsl.
  - rewrite Hsl. replace (R - 1) with (Z.of_nat (Z.to_nat (R - 1))) by lia.
    apply scaled_seqZ_increasing. destruct p; cbn; lia.
  - unfold p, pathOf.
    destruct (requiresSudoOf cmd options || startsWith cmd "sudo"); reflexivity.
  - rewrite Hres.
    apply (Hfail (calls w + Z.to_nat (R - 1))%nat text (timeoutOf options)).
  - exact Hres.
Qed.

(** The theorem at a concrete run: three attempts of a privileged stop
    command against a target that is down. *)
Lemma retry_backoff_witness :
  retriesOf Samples.threeTries = 3
  /\ 1 <= 3
  /\ alwaysFails Samples.downRemote Samples.vm
  /\ sleeps (trace (snd (executeRemoteCommandWithOptions Samples.downRemote
                           Samples.vm "sudo systemctl stop celestia-light"
                           Samples.threeTries Samples.world0)))
     = [2000; 4000]
  /\ fst (executeRemoteCommandWithOptions Samples.downRemote
            Samples.vm "sudo systemctl stop celestia-light"
            Samples.threeTries Samples.world0)
     = Samples.failed "SSH command failed with code 255: 2".
Proof.
  assert (alwaysFails Samples.downRemote Samples.vm) as Hdown
    by (intros n c t; eexists; reflexivity).
  pose proof (retry_backoff Samples.downRemote Samples.vm
                "sudo systemctl stop celestia-light" Samples.threeTries
                Samples.world0 3 eq_refl ltac:(lia) Hdown) as H.
  cbv zeta in H. destruct H as (Htr & _ & _ & Hsl & _ & _ & _ & Hres).
  split; [reflexivity|]. split; [lia|]. split; [exact Hdown|].
  split; [|exact Hres].
  rewrite Htr. exact Hsl.
Defined.

(** With no attempt allowed the loop body never runs: nothing is submitted
    and the error of the fall-through is raised. *)
Example zero_retries_no_attempt :
  executeRemoteCommandWithOptions Samples.downRemote Samples.vm "uptime"
    {| timeout := None; requiresSudo := None; retries := Some 0 |}
    Samples.world0
  = (inr {| message := "Unexpected end of executeRemoteCommandWithOptions" |},
     Samples.world0).
Proof. reflexivity. Qed.

(** C3.  When [requiresSudo] is not supplied it defaults to whether the
    command text contains [sudo]; the sudo path is taken exactly when the
    resulting flag is true or the text starts with [sudo], and the plain
    path otherwise. *)
Theorem sudo_routing (remote : Remote) (connection : SshConnection)
    (cmd : string) (options : CommandOptions) :
  (requiresSudo options = None ->
     requiresSudoOf cmd options = includes cmd "sudo"
     /\ (pathOf cmd options = SudoPath <-> includes cmd "sudo" = true))
  /\ (forall b, requiresSudo options = Some b -> requiresSudoOf cmd options = b)
  /\ (pathOf cmd options = SudoPath
      <-> requiresSudoOf cmd options = true \/ startsWith cmd "sudo" = true)
  /\ (pathOf cmd options = PlainPath
      <-> requiresSudoOf cmd options = false /\ startsWith cmd "sudo" = false)
  /\ (pathOf cmd options = SudoPath ->
      executeRemoteCommandWithOptions remote connection cmd options
      = executeSudoCommand remote connection cmd (timeoutOf options)
          (retriesOf options))
  /\ (pathOf cmd options = PlainPath ->
      executeRemoteCommandWithOptions remote connection cmd options
      = plainAttempts remote connection cmd (timeoutOf options)
          (retriesOf options) (seqZ 1 (retriesOf options))).
Proof.
  assert (pathOf cmd options = SudoPath
          <-> requiresSudoOf cmd options = true \/ startsWith cmd "sudo" = true)
    as Hsudo.
  { unfold pathOf. rewrite <- orb_true_iff.
    destruct (requiresSudoOf cmd options || startsWith cmd "sudo");
      split; congruence. }
  assert (pathOf cmd options = PlainPath
          <-> requiresSudoOf cmd options = false /\ startsWith cmd "sudo" = false)
    as Hplain.
  { unfold pathOf. rewrite <- orb_false_iff.
    destruct (requiresSudoOf cmd options || startsWith cmd "sudo");
      split; congruence. }
  split; [|split; [|split; [exact Hsudo|split; [exact Hplain|split]]]].
  - intros Hnone.
    assert (requiresSudoOf cmd options = includes cmd "sudo") as Hdef
      by (unfold requiresSudoOf; now rewrite Hnone).
    split; [exact Hdef|]. rewrite Hsudo, Hdef. split; [|now left].
    intros [H|H]; [exact H | now apply startsWith_includes].
  - intros b Hb. unfold requiresSudoOf. now rewrite Hb.
  - intros Hp. unfold executeRemoteCommandWithOptions. now rewrite Hp.
  - intros Hp. unfold executeRemoteCommandWithOptions. now rewrite Hp.
Qed.

(** Every submission of the shared loop carries the text it was given. *)
Lemma retryLoop_texts remote p connection text timeoutMs R attempts :
  forall w, exists delta,
    trace (snd (retryLoop remote p connection text timeoutMs R attempts w))
    = trace w ++ delta
    /\ Forall (fun t => t = text) (submittedTexts delta).
Proof.
  induction attempts as [|a rest IH]; intros w.
  - exists []. cbn. now rewrite app_nil_r.
  - cbn [retryLoop]. unfold tryCatch, executeRemoteCommandPooled.
    destruct (outcome (remote (calls w) connection text timeoutMs)) as [v|e].
    + eexists [_]. cbn. split; [reflexivity|]. repeat constructor.
    + destruct (a =? R).
      * eexists [_]. cbn. split; [reflexivity|]. repeat constructor.
      * unfold bind, sleep.
        match goal with
        | |- context [retryLoop _ _ _ _ _ _ _ ?w1] =>
            destruct (IH w1) as (delta & Htr & Hall)
        end.
        eexists (_ :: _ :: delta). rewrite Htr. cbn [trace].
        rewrite <- !app_assoc. split; [reflexivity|].
        cbn. constructor; [reflexivity | exact Hall].
Qed.

(** C10.  The [-n] rewrite touches a command only when its text begins
    with [sudo ] and does not already contain [sudo -n]; every submission
    made for a command carries the rewritten text in that case and the
    original text in every other case, whichever way the command reached
    the sudo path. *)
Theorem rewrite_scope (remote : Remote) (connection : SshConnection)
    (cmd : string) (options : CommandOptions) (w : World) :
  (modifiedCommand cmd <> cmd ->
     startsWith cmd "sudo " = true /\ includes cmd "sudo -n" = false)
  /\ (startsWith cmd "sudo " = true -> includes cmd "sudo -n" = false ->
      pathOf cmd options = SudoPath
      /\ modifiedCommand cmd = "sudo -n " +:+ drop 5 cmd)
  /\ (exists delta,
        trace (snd (executeRemoteCommandWithOptions remote connection cmd
                      options w))
        = trace w ++ delta
        /\ Forall
             (fun t =>
                t = (if startsWith cmd "sudo "
                        && negb (includes cmd "sudo -n")
                     then "sudo -n " +:+ drop 5 cmd else cmd))
             (submittedTexts delta)
        /\ (startsWith cmd "sudo " = false ->
            Forall (fun t => t = cmd) (submittedTexts delta))).
Proof.
  split; [|split].
  - intros Hne.
    destruct (startsWith cmd "sudo " && negb (includes cmd "sudo -n")) eqn:Hc.
    + apply andb_true_iff in Hc as [Hs Hi]. now apply negb_true_iff in Hi.
    + now rewrite modifiedCommand_kept in Hne.
  - intros Hs Hi. split; [|now apply modifiedCommand_rewritten].
    unfold pathOf.
    now rewrite (startsWith_sudo_space _ Hs), orb_true_r.
  - rewrite executeRemoteCommandWithOptions_retryLoop.
    destruct (retryLoop_texts remote (pathOf cmd options) connection
                (sentText (pathOf cmd options) cmd) (timeoutOf options)
                (retriesOf options) (seqZ 1 (retriesOf options)) w)
      as (delta & Htr & Hall).
    exists delta. split; [exact Htr|].
    assert (sentText (pathOf cmd options) cmd
            = (if startsWith cmd "sudo " && negb (includes cmd "sudo -n")
               then "sudo -n " +:+ drop 5 cmd else cmd)) as Hsent.
    { destruct (startsWith cmd "sudo " && negb (includes cmd "sudo -n")) eqn:Hc.
      - apply andb_true_iff in Hc as [Hs Hi]. apply negb_true_iff in Hi.
        assert (pathOf cmd options = SudoPath) as ->.
        { unfold pathOf. rewrite (startsWith_sudo_space _ Hs).
          now rewrite orb_true_r. }
        cbn. now apply modifiedCommand_rewritten.
      - destruct (pathOf cmd options); cbn; [|reflexivity].
        now apply modifiedCommand_kept. }
    rewrite Hsent in Hall. split; [exact Hall|].
    intros Hs. rewrite Hs in Hall. exact Hall.
Qed.

End Policy.

(** ** What one call of [runRemote] leaves in the world *)

Module RunRemote.
Import JsString JsStringFacts Ssh Retry.

(** Stepping rules of the task monad. *)
Lemma bind_ok {A B} (c : M A) (k : A -> M B) (w w1 : World) (a : A) :
  c w = (inl a, w1) -> bind c k w = k a w1.
Proof. intros H. unfold bind. now rewrite H. Qed.

Lemma bind_err {A B} (c : M A) (k : A -> M B) (w w1 : World) (e : JsError) :
  c w = (inr e, w1) -> bind c k w = (inr e, w1).
Proof. intros H. unfold bind. now rewrite H. Qed.

Lemma tryCatch_ok {A} (c : M A) (h : JsError -> M A) (w w1 : World) (a : A) :
  c w = (inl a, w1) -> tryCatch c h w = (inl a, w1).
Proof. intros H. unfold tryCatch. now rewrite H. Qed.

Lemma tryCatch_err {A} (c : M A) (h : JsError -> M A) (w w1 : World) (e : JsError) :
  c w = (inr e, w1) -> tryCatch c h w = h e w1.
Proof. intros H. unfold tryCatch. now rewrite H. Qed.

(** The clock never runs backwards during a call. *)
Lemma retryLoop_clock remote p connection text timeoutMs R attempts :
  Forall (fun a => 0 <= a) attempts ->
  forall w,
    now w <= now (snd (retryLoop remote p connection text timeoutMs R attempts w)).
Proof.
  induction 1 as [|a rest Ha Hrest IH]; intros w; [cbn; lia|].
  cbn [retryLoop]. unfold tryCatch, executeRemoteCommandPooled.
  destruct (outcome (remote (calls w) connection text timeoutMs)) as [v|e];
    [cbn; lia|].
  destruct (a =? R); [cbn; lia|].
  unfold bind, sleep.
  match goal with
  | |- context [retryLoop _ _ _ _ _ _ _ ?w1] => specialize (IH w1)
  end.
  simpl in IH |- *. destruct p; simpl baseDelay in *; lia.
Qed.

Lemma seqZ_nonneg (R : Z) : Forall (fun a => 0 <= a) (seqZ 1 R).
Proof. apply Forall_forall. intros a Ha. apply elem_of_seqZ in Ha. lia. Qed.

Lemma runRemote_clock remote connection cmd options w :
  now w <= now (snd (runRemote remote connection cmd options w)).
Proof.
  unfold runRemote. rewrite executeRemoteCommandWithOptions_retryLoop.
  apply retryLoop_clock, seqZ_nonneg.
Qed.

Lemma retryLoop_entries remote p connection text timeoutMs R attempts :
  forall w, exists delta,
    trace (snd (retryLoop remote p connection text timeoutMs R attempts w))
    = trace w ++ delta
    /\ entriesOf text timeoutMs
         (fst (retryLoop remote p connection text timeoutMs R attempts w)) delta.
Proof.
  induction attempts as [|a rest IH]; intros w.
  - exists []. cbn. rewrite app_nil_r. split; [reflexivity|].
    split; [constructor|]. intros r. split; [|discriminate].
    intros Hin. inversion Hin.
  - cbn [retryLoop]. unfold tryCatch, executeRemoteCommandPooled.
    destruct (outcome (remote (calls w) connection text timeoutMs)) as [v|e] eqn:Ho.
    + exists [Submitted text timeoutMs (inl v)]. cbn. split; [reflexivity|].
      split; [repeat constructor|]. intros r.
      rewrite list_elem_of_singleton. split; congruence.
    + destruct (a =? R).
      * exists [Submitted text timeoutMs (inr e)]. cbn. split; [reflexivity|].
        split; [repeat constructor|]. intros r.
        rewrite list_elem_of_singleton. split; congruence.
      * unfold bind, sleep.
        match goal with
        | |- context [retryLoop _ _ _ _ _ _ _ ?w1] =>
            destruct (IH w1) as (delta & Htr & Hall & Hok)
        end.
        exists (Submitted text timeoutMs (inr e) :: Slept (baseDelay p * a) :: delta).
        split; [rewrite Htr; simpl; now rewrite <- !app_assoc|].
        split; [repeat constructor; exact Hall|].
        intros r. rewrite <- Hok, !elem_of_cons.
        split; [intros [H|[H|H]]; [discriminate|discriminate|exact H] | auto].
Qed.

Lemma runRemote_entries remote connection cmd options w :
  exists delta,
    trace (snd (runRemote remote connection cmd options w)) = trace w ++ delta
    /\ entriesOf (sentText (pathOf cmd options) cmd) (timeoutOf options)
         (fst (runRemote remote connection cmd options w)) delta.
Proof.
  unfold runRemote. rewrite executeRemoteCommandWithOptions_retryLoop.
  apply retryLoop_entries.
Qed.

(** A call with the default single attempt is one submission. *)
Lemma runRemote_once remote connection cmd options w :
  retriesOf options = 1 ->
  runRemote remote connection cmd options w
  = executeRemoteCommandPooled remote connection
      (sentText (pathOf cmd options) cmd) (timeoutOf options) w.
Proof.
  intros HR. unfold runRemote.
  rewrite executeRemoteCommandWithOptions_retryLoop, HR.
  change (seqZ 1 1) with [1]. cbn [retryLoop].
  unfold tryCatch, executeRemoteCommandPooled.
  destruct (outcome _); reflexivity.
Qed.

End RunRemote.

(** ** The stop procedure *)

Module Stop.
Import JsString JsStringFacts Ssh Retry RunRemote Lifecycle.

Section WithTarget.
Variables (remote : Remote) (connection : SshConnection).

(** Every round of the poll that goes on costs at least the three
    seconds of its wait, so the loop ends within the fuel that covers
    the thirty seconds. *)
Lemma pollUntilStopped_total (startTime : Z) :
  forall (fuel : nat) (w : World),
    (1 <= fuel)%nat ->
    startTime + 30000 - now w <= 3000 * (Z.of_nat fuel - 1) ->
    exists w', pollUntilStopped remote fuel connection startTime w
               = Some (inl tt, w').
Proof.
  induction fuel as [|fuel IH]; intros w Hfuel Hleft; [lia|].
  cbn [pollUntilStopped].
  destruct (now w - startTime <? 30000) eqn:Hlt; [|eauto].
  apply Z.ltb_lt in Hlt.
  pose proof (runRemote_clock remote connection pgrepOrNoneCmd pollOptions w)
    as Hclock.
  destruct (runRemote remote connection pgrepOrNoneCmd pollOptions w)
    as [[processCheck|e] w1]; [|eauto].
  destruct (String.eqb _ _); [eauto|].
  cbn [snd] in Hclock. apply IH; [lia | cbn; lia].
Qed.

Lemma verifyNodeStopped_total (fuel : nat) (w : World) :
  (11 <= fuel)%nat ->
  exists w', verifyNodeStopped remote fuel connection w = Some (inl tt, w').
Proof.
  intros Hfuel. unfold verifyNodeStopped.
  destruct (pollUntilStopped_total (now w) fuel w) as [w' ->];
    [lia | lia | eauto].
Qed.

Lemma stopSystemdService_ok (w w1 : World) (r : SshCommandResult) :
  runRemote remote connection stopCmd stopOptions w = (inl r, w1) ->
  exists w2, stopSystemdService remote connection w = (inl tt, w2).
Proof.
  intros Hrun. unfold stopSystemdService, tryCatch at 1, bind at 1.
  rewrite Hrun. unfold bind at 1, sleep at 1. unfold tryCatch, bind.
  destruct (runRemote remote connection isActiveCmd queryOptions _)
    as [[statusResult|e] w2]; eauto.
Qed.

Lemma stopSystemdService_fail (w w1 : World) (e : JsError) :
  runRemote remote connection stopCmd stopOptions w = (inr e, w1) ->
  stopSystemdService remote connection w = (inr e, w1).
Proof.
  intros Hrun. unfold stopSystemdService, tryCatch at 1, bind at 1.
  now rewrite Hrun.
Qed.

(** C6.  With a configured target and fuel for the whole poll, the stop
    operation ends, and its result is decided by the privileged stop
    command alone: if that command succeeds (within its two attempts)
    the operation reports success, whatever the status re-check and the
    quiescence poll observe, a poll that runs out of its thirty seconds
    with processes still listed included; if the command fails, the
    operation reports failure. *)
Theorem stop_decided_by_stop_command (fuel : nat) (w : World) :
  (11 <= fuel)%nat ->
  (forall r w1,
      runRemote remote connection stopCmd stopOptions w = (inl r, w1) ->
      exists w2, stopNode remote (Some connection) fuel w = Some (true, w2))
  /\ (forall e w1,
      runRemote remote connection stopCmd stopOptions w = (inr e, w1) ->
      stopNode remote (Some connection) fuel w = Some (false, w1))
  /\ pathOf stopCmd stopOptions = SudoPath
  /\ retriesOf stopOptions = 2.
Proof.
  intros Hfuel. split; [|split; [|split; reflexivity]].
  - intros r w1 Hrun. unfold stopNode.
    destruct (stopSystemdService_ok w w1 r Hrun) as [w2 ->].
    destruct (verifyNodeStopped_total fuel w2 Hfuel) as [w3 ->]. eauto.
  - intros e w1 Hrun. unfold stopNode.
    now rewrite (stopSystemdService_fail w w1 e Hrun).
Qed.

End WithTarget.

(** The theorem on a target whose process never leaves the process list:
    the poll runs out of time, and the stop operation still succeeds. *)
Lemma stop_decided_by_stop_command_witness :
  (11 <= 11)%nat
  /\ (exists w2,
        stopNode Samples.lingering (Some Samples.vm) 11 Samples.world0
        = Some (true, w2))
  /\ length (filter (fun ev => submissionOf pgrepOrNoneCmd ev = true)
               (match stopNode Samples.lingering (Some Samples.vm) 11
                        Samples.world0 with
                | Some (_, w2) => trace w2
                | None => []
                end)) = 10%nat.
Proof.
  split; [lia|]. split; [|vm_compute; reflexivity].
  destruct (stop_decided_by_stop_command Samples.lingering Samples.vm 11
              Samples.world0 (le_n 11)) as (Hok & _).
  eapply Hok. vm_compute. reflexivity.
Defined.

End Stop.

(** ** The start procedure *)

Module Start.
Import JsString JsStringFacts Ssh Retry RunRemote Lifecycle.

Section WithTarget.
Variables (remote : Remote) (connection : SshConnection).

(** The world after one submission. *)
Local Abbreviation after text w :=
  (snd (executeRemoteCommandPooled remote connection text 30000 w)).

Lemma isServiceRunning_eq (w : World) :
  isServiceRunning remote connection w
  = (inl (isActiveReply (outcome (remote (calls w) connection isActiveCmd 30000))),
     after isActiveCmd w).
Proof.
  unfold isServiceRunning, tryCatch, bind.
  rewrite runRemote_once by reflexivity.
  change (sentText (pathOf isActiveCmd noOptions) isActiveCmd) with isActiveCmd.
  change (timeoutOf noOptions) with 30000.
  unfold executeRemoteCommandPooled. cbn [snd].
  destruct (outcome (remote (calls w) connection isActiveCmd 30000)); reflexivity.
Qed.

Lemma startService_eq (w : World) :
  startService remote connection w
  = match outcome (remote (calls w) connection (modifiedCommand startCmd) 30000) with
    | inl _ => sleep 3000 (after (modifiedCommand startCmd) w)
    | inr e => (inr e, after (modifiedCommand startCmd) w)
    end.
Proof.
  unfold startService, tryCatch, bind.
  rewrite runRemote_once by reflexivity.
  change (sentText (pathOf startCmd noOptions) startCmd)
    with (modifiedCommand startCmd).
  change (timeoutOf noOptions) with 30000.
  unfold executeRemoteCommandPooled. cbn [snd].
  destruct (outcome (remote (calls w) connection (modifiedCommand startCmd) 30000));
    reflexivity.
Qed.

(** The diagnostics after a failed start: they cannot fail the procedure,
    they do not wait and they do not ask for the service state again. *)
Lemma showServiceStatus_trace (w : World) :
  exists w' rest,
    showServiceStatus remote connection w = (inl tt, w')
    /\ trace w' = trace w ++ rest
    /\ Forall (fun ev => submissionOf isActiveCmd ev = false) rest
    /\ sleeps rest = [].
Proof.
  unfold showServiceStatus, tryCatch, bind.
  rewrite runRemote_once by reflexivity.
  unfold executeRemoteCommandPooled at 1.
  destruct (outcome (remote (calls w) connection _ _)) as [r1|e1].
  - rewrite runRemote_once by reflexivity.
    unfold executeRemoteCommandPooled at 1. cbn [calls].
    destruct (outcome (remote (S (calls w)) connection _ _)) as [r2|e2];
      eexists; eexists (_ :: _ :: nil); cbn [trace];
      rewrite <- !app_assoc;
      (split; [reflexivity|]; split; [reflexivity|];
       split; [repeat constructor | reflexivity]).
  - eexists; eexists (_ :: nil); cbn [trace].
    split; [reflexivity|]. split; [reflexivity|].
    split; [repeat constructor | reflexivity].
Qed.

(** The short circuit of an active service, as an equation. *)
Lemma start_active_eq (w : World) :
  isActiveReply (outcome (remote (calls w) connection isActiveCmd 30000)) = true ->
  start remote (Some connection) w
  = (inl (match outcome (remote (S (calls w)) connection statusBriefCmd 30000) with
          | inl _ => true
          | inr _ => false
          end),
     after statusBriefCmd (after isActiveCmd w)).
Proof.
  intros Hactive.
  unfold start, tryCatch at 1, bind at 1.
  rewrite isServiceRunning_eq, Hactive.
  unfold bind. rewrite runRemote_once by reflexivity.
  change (sentText (pathOf statusBriefCmd noOptions) statusBriefCmd)
    with statusBriefCmd.
  change (timeoutOf noOptions) with 30000.
  unfold executeRemoteCommandPooled. cbn [snd calls trace].
  destruct (outcome (remote (S (calls w)) connection statusBriefCmd 30000));
    reflexivity.
Qed.

(** X21.  When the first state query answers with the active token, the
    start procedure issues no start command and does not wait: it submits
    the state query and the status dump, nothing else, and resolves to
    true exactly when the status dump succeeds. *)
Lemma start_already_active (w : World) :
  isActiveReply (outcome (remote (calls w) connection isActiveCmd 30000)) = true ->
  let dump := outcome (remote (S (calls w)) connection statusBriefCmd 30000) in
  let run := start remote (Some connection) w in
  fst run = inl (match dump with inl _ => true | inr _ => false end)
  /\ trace (snd run)
     = trace w ++
       [Submitted isActiveCmd 30000
          (outcome (remote (calls w) connection isActiveCmd 30000));
        Submitted statusBriefCmd 30000 dump]
  /\ startInvocations
       [Submitted isActiveCmd 30000
          (outcome (remote (calls w) connection isActiveCmd 30000));
        Submitted statusBriefCmd 30000 dump] = 0%nat.
Proof.
  intros Hactive dump run. subst run dump.
  rewrite (start_active_eq w Hactive).
  split; [reflexivity|]. split.
  - cbn [snd executeRemoteCommandPooled trace calls].
    now rewrite <- app_assoc.
  - reflexivity.
Qed.

(** The procedure when the service is not active at first, as an
    equation. *)
Lemma start_inactive_eq (w : World) :
  isActiveReply (outcome (remote (calls w) connection isActiveCmd 30000)) = false ->
  start remote (Some connection) w
  = match outcome (remote (S (calls w)) connection (modifiedCommand startCmd) 30000) with
    | inl _ =>
        let w3 :=
          snd (sleep 5000
                 (snd (sleep 3000
                         (after (modifiedCommand startCmd) (after isActiveCmd w)))))
        in
        if isActiveReply
             (outcome (remote (S (S (calls w))) connection isActiveCmd 30000))
        then (inl true, after isActiveCmd w3)
        else (inl false,
              snd (showServiceStatus remote connection (after isActiveCmd w3)))
    | inr _ => (inl false, after (modifiedCommand startCmd) (after isActiveCmd w))
    end.
Proof.
  intros Hinactive. unfold start.
  destruct (outcome (remote (S (calls w)) connection (modifiedCommand startCmd) 30000))
    as [r|e] eqn:Hissued.
  - pose proof (startService_eq (after isActiveCmd w)) as Hstart.
    cbn [snd executeRemoteCommandPooled calls] in Hstart.
    rewrite Hissued in Hstart.
    cbv zeta.
    destruct (isActiveReply
                (outcome (remote (S (S (calls w))) connection isActiveCmd 30000)))
      eqn:Hre.
    + erewrite tryCatch_ok; [reflexivity|].
      erewrite bind_ok by apply isServiceRunning_eq. rewrite Hinactive.
      erewrite bind_ok by exact Hstart.
      erewrite bind_ok by reflexivity.
      erewrite bind_ok by apply isServiceRunning_eq.
      cbn [snd executeRemoteCommandPooled calls sleep]. rewrite Hre.
      unfold ret. now rewrite ?Hissued.
    + destruct (showServiceStatus_trace
                  (after isActiveCmd
                     (snd (sleep 5000
                             (snd (sleep 3000
                                     (after (modifiedCommand startCmd)
                                        (after isActiveCmd w))))))))
        as (w' & rest & Hshow & _).
      erewrite tryCatch_ok; [reflexivity|].
      erewrite bind_ok by apply isServiceRunning_eq. rewrite Hinactive.
      erewrite bind_ok by exact Hstart.
      erewrite bind_ok by reflexivity.
      erewrite bind_ok by apply isServiceRunning_eq.
      cbn [snd executeRemoteCommandPooled calls sleep] in Hre |- *. rewrite Hre.
      cbn [snd executeRemoteCommandPooled calls sleep] in Hshow.
      rewrite <- ?Hissued.
      erewrite bind_ok by exact Hshow.
      unfold ret. now rewrite Hshow.
  - pose proof (startService_eq (after isActiveCmd w)) as Hstart.
    cbn [snd executeRemoteCommandPooled calls] in Hstart.
    rewrite Hissued in Hstart.
    erewrite tryCatch_err; [reflexivity|].
    erewrite bind_ok by apply isServiceRunning_eq. rewrite Hinactive.
    erewrite bind_err by exact Hstart.
    cbn [snd executeRemoteCommandPooled calls]. now rewrite ?Hissued.
Qed.

(** C8, as amended.  When the service is not active at first, the start
    command is issued.  If it succeeds, a wait of 3000 ms follows it, then a
    further wait of 5000 ms, then the one re-check of the service state,
    whose answer is the result; whatever follows the re-check neither waits
    nor asks again.  If the command fails, the procedure reports failure at
    once: there is no wait and no re-check. *)
Theorem start_settle_delay (w : World) :
  let first := outcome (remote (calls w) connection isActiveCmd 30000) in
  let issued :=
    outcome (remote (S (calls w)) connection (modifiedCommand startCmd) 30000) in
  let recheck :=
    outcome (remote (S (S (calls w))) connection isActiveCmd 30000) in
  let run := start remote (Some connection) w in
  isActiveReply first = false ->
  (forall r, issued = inl r ->
     fst run = inl (isActiveReply recheck)
     /\ exists rest,
         trace (snd run)
         = trace w ++
           [Submitted isActiveCmd 30000 first;
            Submitted (modifiedCommand startCmd) 30000 issued;
            Slept 3000; Slept 5000;
            Submitted isActiveCmd 30000 recheck] ++ rest
         /\ Forall (fun ev => submissionOf isActiveCmd ev = false) rest
         /\ sleeps rest = [])
  /\ (forall e, issued = inr e ->
       fst run = inl false
       /\ trace (snd run)
          = trace w ++
            [Submitted isActiveCmd 30000 first;
             Submitted (modifiedCommand startCmd) 30000 issued]).
Proof.
  intros first issued recheck run Hinactive. subst run.
  rewrite (start_inactive_eq w Hinactive). fold issued. fold recheck.
  split.
  - intros r Hr. rewrite Hr. cbv zeta.
    destruct (isActiveReply recheck) eqn:Hre.
    + split; [reflexivity|]. exists [].
      cbn [snd executeRemoteCommandPooled sleep trace calls].
      rewrite <- !app_assoc. fold first. rewrite <- Hr. fold recheck.
      repeat split. constructor.
    + split; [reflexivity|].
      match goal with
      | |- context [showServiceStatus remote connection ?w1] =>
          destruct (showServiceStatus_trace w1) as (w' & rest & Hs & Htr & Hall & Hsl)
      end.
      exists rest. rewrite Hs. cbn [snd]. rewrite Htr.
      cbn [snd executeRemoteCommandPooled sleep trace calls].
      rewrite <- !app_assoc. fold first. rewrite <- Hr. fold recheck.
      repeat split; assumption.
  - intros e He. rewrite He. split; [reflexivity|].
    cbn [snd executeRemoteCommandPooled trace calls].
    rewrite <- !app_assoc. fold first. now rewrite <- He.
Qed.

End WithTarget.

(** C7.  The service is active and the status dump issued after the state
    query fails: no start command is issued, yet [start] reports failure.
    The dump only feeds the log; its failure reaches the outer handler
    because, unlike the dumps of [showServiceStatus], it is not guarded. *)
Theorem start_active_dump_fails :
  isActiveReply
    (outcome (Samples.activeThenBroken 0%nat Samples.vm isActiveCmd 30000)) = true
  /\ fst (start Samples.activeThenBroken (Some Samples.vm) Samples.world0)
     = inl false
  /\ trace (snd (start Samples.activeThenBroken (Some Samples.vm) Samples.world0))
     = [Submitted isActiveCmd 30000 (Samples.ok "active");
        Submitted statusBriefCmd 30000
          (Samples.failed "SSH command failed with code 255: ")]
  /\ startInvocations
       (trace (snd (start Samples.activeThenBroken (Some Samples.vm)
                      Samples.world0))) = 0%nat.
Proof. vm_compute. repeat split. Qed.

(** C8 as stated does not hold.  The service is inactive and the start
    command fails: the command was issued, no wait follows it, the service
    state is not asked again, and [start] reports failure. *)
Lemma start_failure_skips_settle :
  startInvocations
    (trace (snd (start Samples.startFails (Some Samples.vm) Samples.world0)))
  = 1%nat
  /\ sleeps (trace (snd (start Samples.startFails (Some Samples.vm)
                           Samples.world0))) = []
  /\ length (filter (fun ev => submissionOf isActiveCmd ev = true)
               (trace (snd (start Samples.startFails (Some Samples.vm)
                              Samples.world0)))) = 1%nat
  /\ fst (start Samples.startFails (Some Samples.vm) Samples.world0) = inl false.
Proof. vm_compute. repeat split. Qed.

(** The amended statement on two runs: a start command that succeeds and
    one that fails. *)
Lemma start_settle_delay_witness :
  isActiveReply
    (outcome (Samples.startSucceeds 0%nat Samples.vm isActiveCmd 30000)) = false
  /\ sleeps (trace (snd (start Samples.startSucceeds (Some Samples.vm)
                           Samples.world0))) = [3000; 5000]
  /\ fst (start Samples.startSucceeds (Some Samples.vm) Samples.world0) = inl true
  /\ fst (start Samples.startFails (Some Samples.vm) Samples.world0) = inl false.
Proof.
  split; [reflexivity|].
  destruct (start_settle_delay Samples.startSucceeds Samples.vm Samples.world0
              eq_refl) as (Hok & _).
  destruct (Hok {| stdout := ""; stderr := "" |} eq_refl)
    as (Hres & rest & Htr & _ & Hsl).
  destruct (start_settle_delay Samples.startFails Samples.vm Samples.world0
              eq_refl) as (_ & Hfail).
  destruct (Hfail _ eq_refl) as (Hres' & _).
  split; [|split; [exact Hres | exact Hres']].
  rewrite Htr. unfold sleeps in *. rewrite !omap_app, Hsl. reflexivity.
Defined.

End Start.

(** ** The status procedure *)

Module StatusFacts.
Import JsString JsStringFacts Ssh Retry RunRemote Lifecycle LifecycleReading.

Lemma reportsActive_app (a b : list Event) :
  reportsActive (a ++ b) <-> reportsActive a \/ reportsActive b.
Proof.
  unfold reportsActive. split.
  - intros (t & r & Hin & Hact). apply elem_of_app in Hin as [Hin|Hin];
      [left | right]; eauto.
  - intros [(t & r & Hin & Hact)|(t & r & Hin & Hact)];
      exists t, r; (split; [apply elem_of_app; auto | exact Hact]).
Qed.

Lemma foundProcess_app (a b : list Event) :
  foundProcess (a ++ b) <-> foundProcess a \/ foundProcess b.
Proof.
  unfold foundProcess. split.
  - intros (t & r & Hin & Hact). apply elem_of_app in Hin as [Hin|Hin];
      [left | right]; eauto.
  - intros [(t & r & Hin & Hact)|(t & r & Hin & Hact)];
      exists t, r; (split; [apply elem_of_app; auto | exact Hact]).
Qed.

(** The entries of a call for another text hold no submission of [text]. *)
Lemma entries_other_text other text timeoutMs res delta t x :
  entriesOf other timeoutMs res delta -> other <> text ->
  Submitted text t x ∉ delta.
Proof.
  intros [Hall _] Hne Hin.
  rewrite Forall_forall in Hall. specialize (Hall _ Hin). cbn in Hall.
  destruct Hall as [Heq _]. congruence.
Qed.

Lemma entries_reportsActive timeoutMs res delta :
  entriesOf isActiveCmd timeoutMs res delta ->
  reportsActive delta <-> isActiveReply res = true.
Proof.
  intros [Hall Hok]. unfold reportsActive, isActiveReply. split.
  - intros (t & r & Hin & Hact).
    rewrite Forall_forall in Hall. destruct (Hall _ Hin) as [_ ->].
    apply Hok in Hin. subst res. now apply String.eqb_eq.
  - destruct res as [r|e]; [|discriminate]. intros Hact.
    exists timeoutMs, r. split; [now apply Hok | now apply String.eqb_eq].
Qed.

Lemma entries_foundProcess timeoutMs res delta :
  entriesOf pgrepCmd timeoutMs res delta ->
  foundProcess delta <-> exists r, res = inl r /\ pidsOf (stdout r) <> [].
Proof.
  intros [Hall Hok]. unfold foundProcess. split.
  - intros (t & r & Hin & Hpids).
    rewrite Forall_forall in Hall. destruct (Hall _ Hin) as [_ ->].
    apply Hok in Hin. eauto.
  - intros (r & -> & Hpids). exists timeoutMs, r. split; [now apply Hok | exact Hpids].
Qed.

Lemma entries_not_reportsActive other timeoutMs res delta :
  entriesOf other timeoutMs res delta -> other <> isActiveCmd ->
  ~ reportsActive delta.
Proof.
  intros Hent Hne (t & r & Hin & _).
  exact (entries_other_text _ _ _ _ _ _ _ Hent Hne Hin).
Qed.

Lemma entries_not_foundProcess other timeoutMs res delta :
  entriesOf other timeoutMs res delta -> other <> pgrepCmd ->
  ~ foundProcess delta.
Proof.
  intros Hent Hne (t & r & Hin & _).
  exact (entries_other_text _ _ _ _ _ _ _ Hent Hne Hin).
Qed.

(** *** The replies of the target in a trace *)

Lemma asks_app (text : string) (a b : list Event) :
  asks text (a ++ b) <-> asks text a \/ asks text b.
Proof.
  unfold asks. split.
  - intros (t & res & Hin). apply elem_of_app in Hin as [Hin|Hin];
      [left | right]; eauto.
  - intros [(t & res & Hin)|(t & res & Hin)]; exists t, res;
      apply elem_of_app; auto.
Qed.

Lemma entries_not_asked other text timeoutMs res delta :
  entriesOf other timeoutMs res delta -> other <> text -> ~ asks text delta.
Proof.
  intros Hent Hne (t & x & Hin).
  exact (entries_other_text _ _ _ _ _ _ _ Hent Hne Hin).
Qed.

Lemma answeredBy_nil remote connection first :
  answeredBy remote connection first [].
Proof. intros j c t res H. discriminate. Qed.

Lemma answeredBy_app remote connection first (d1 d2 : list Event) :
  answeredBy remote connection first d1 ->
  answeredBy remote connection (first + length (submissionsOf d1)) d2 ->
  answeredBy remote connection first (d1 ++ d2).
Proof.
  intros H1 H2 j c t res Hj. unfold submissionsOf in Hj.
  rewrite omap_app in Hj. fold (submissionsOf d1) (submissionsOf d2) in Hj.
  apply lookup_app_Some in Hj as [Hj|[Hge Hj]]; [now apply H1|].
  apply H2 in Hj. rewrite Hj.
  now replace (first + length (submissionsOf d1)
               + (j - length (submissionsOf d1)))%nat
    with (first + j)%nat by lia.
Qed.

Lemma submissionsOf_app (d1 d2 : list Event) :
  length (submissionsOf (d1 ++ d2))
  = (length (submissionsOf d1) + length (submissionsOf d2))%nat.
Proof. unfold submissionsOf. now rewrite omap_app, length_app. Qed.

(** The loop of attempts records, for each submission, the reply of the
    target to it, and submits at least once when it has an attempt. *)
Lemma retryLoop_answered remote p connection text timeoutMs R attempts :
  forall w, exists delta,
    trace (snd (retryLoop remote p connection text timeoutMs R attempts w))
    = trace w ++ delta
    /\ answeredBy remote connection (calls w) delta
    /\ calls (snd (retryLoop remote p connection text timeoutMs R attempts w))
       = (calls w + length (submissionsOf delta))%nat
    /\ (attempts <> [] -> asks text delta).
Proof.
  induction attempts as [|a rest IH]; intros w.
  - exists []. cbn. rewrite app_nil_r. split; [reflexivity|].
    split; [apply answeredBy_nil|]. split; [lia | congruence].
  - cbn [retryLoop]. unfold tryCatch, executeRemoteCommandPooled.
    assert (forall x : Outcome SshCommandResult,
              x = outcome (remote (calls w) connection text timeoutMs) ->
              answeredBy remote connection (calls w)
                [Submitted text timeoutMs x]) as Hone.
    { intros x -> [|j] c t res Hj; [|discriminate].
      injection Hj as <- <- <-. now rewrite Nat.add_0_r. }
    assert (forall x l, asks text (Submitted text timeoutMs x :: l)) as Hask.
    { intros x l. exists timeoutMs, x. apply elem_of_cons. now left. }
    destruct (outcome (remote (calls w) connection text timeoutMs))
      as [v|e] eqn:Ho.
    + exists [Submitted text timeoutMs (inl v)]. cbn.
      split; [reflexivity|]. split; [now apply Hone|]. split; [lia | auto].
    + destruct (a =? R).
      * exists [Submitted text timeoutMs (inr e)]. cbn.
        split; [reflexivity|]. split; [now apply Hone|]. split; [lia | auto].
      * unfold bind, sleep.
        match goal with
        | |- context [retryLoop _ _ _ _ _ _ _ ?w1] =>
            destruct (IH w1) as (delta & Htr & Hans & Hcalls & _)
        end.
        exists (Submitted text timeoutMs (inr e)
                :: Slept (baseDelay p * a) :: delta).
        split; [rewrite Htr; simpl; now rewrite <- !app_assoc|].
        assert (length (submissionsOf
                          (Submitted text timeoutMs (inr e)
                           :: Slept (baseDelay p * a) :: delta))
                = S (length (submissionsOf delta))) as Hlen by reflexivity.
        split; [|split; [rewrite Hcalls, Hlen; cbn [calls]; lia | auto]].
        apply (answeredBy_app remote connection (calls w)
                 [Submitted text timeoutMs (inr e)]
                 (Slept (baseDelay p * a) :: delta));
          [now apply Hone|].
        cbn in Hans |- *. intros j c t res Hj.
        replace (calls w + 1 + j)%nat with (S (calls w + j)) by lia.
        exact (Hans j c t res Hj).
Qed.

Section WithTarget.
Variables (remote : Remote) (connection : SshConnection).

(** One call of [runRemote], with its result, its world and its entries. *)
Lemma runRemote_split (cmd : string) (options : CommandOptions) (w : World) :
  exists res w1 delta,
    runRemote remote connection cmd options w = (res, w1)
    /\ trace w1 = trace w ++ delta
    /\ entriesOf (sentText (pathOf cmd options) cmd) (timeoutOf options) res delta.
Proof.
  destruct (runRemote_entries remote connection cmd options w) as (delta & Htr & Hent).
  destruct (runRemote remote connection cmd options w) as [res w1].
  exists res, w1, delta. auto.
Qed.

(** The same, with the replies of the target: the entries carry them, and
    a call with at least one attempt submits its text. *)
Lemma runRemote_asked (cmd : string) (options : CommandOptions) (w : World) :
  1 <= retriesOf options ->
  exists res w1 delta,
    runRemote remote connection cmd options w = (res, w1)
    /\ trace w1 = trace w ++ delta
    /\ entriesOf (sentText (pathOf cmd options) cmd) (timeoutOf options) res delta
    /\ answeredBy remote connection (calls w) delta
    /\ calls w1 = (calls w + length (submissionsOf delta))%nat
    /\ asks (sentText (pathOf cmd options) cmd) delta.
Proof.
  intros HR.
  destruct (runRemote_split cmd options w) as (res & w1 & delta & Hrun & Htr & Hent).
  exists res, w1, delta. split; [exact Hrun|]. split; [exact Htr|].
  split; [exact Hent|].
  pose proof (retryLoop_answered remote (pathOf cmd options) connection
                (sentText (pathOf cmd options) cmd) (timeoutOf options)
                (retriesOf options) (seqZ 1 (retriesOf options)) w)
    as (delta' & Htr' & Hans & Hcalls & Hask).
  rewrite <- executeRemoteCommandWithOptions_retryLoop in Htr', Hcalls.
  fold (runRemote remote connection cmd options w) in Htr', Hcalls.
  rewrite Hrun in Htr', Hcalls. cbn [snd] in Htr', Hcalls.
  assert (delta' = delta) as -> by (apply (app_inv_head (trace w)); congruence).
  split; [exact Hans|]. split; [exact Hcalls|].
  apply Hask. rewrite seqZ_cons by lia. discriminate.
Qed.

Lemma queryService_spec (w : World) :
  exists ss sd w' delta,
    queryService remote connection w = (inl (ss, sd), w')
    /\ trace w' = trace w ++ delta
    /\ (String.eqb ss "active" = true <-> reportsActive delta)
    /\ ~ foundProcess delta
    /\ answeredBy remote connection (calls w) delta
    /\ calls w' = (calls w + length (submissionsOf delta))%nat
    /\ asks isActiveCmd delta /\ ~ asks pgrepCmd delta.
Proof.
  unfold queryService.
  destruct (runRemote_asked isActiveCmd queryOptions w ltac:(cbn; lia))
    as (res1 & w1 & d1 & -> & Htr1 & Hent1 & Hans1 & Hc1 & Hask1).
  change (sentText (pathOf isActiveCmd queryOptions) isActiveCmd)
    with isActiveCmd in Hent1, Hask1.
  pose proof (entries_reportsActive _ _ _ Hent1) as Hact1.
  assert (~ foundProcess d1) as Hno1
    by (apply (entries_not_foundProcess _ _ _ _ Hent1); discriminate).
  assert (~ asks pgrepCmd d1) as Hnp1
    by (apply (entries_not_asked _ _ _ _ _ Hent1); discriminate).
  destruct res1 as [r1|e1].
  - destruct (runRemote_asked serviceDetailsCmd detailsOptions w1 ltac:(cbn; lia))
      as (res2 & w2 & d2 & -> & Htr2 & Hent2 & Hans2 & Hc2 & _).
    assert (~ reportsActive d2) as Hna2
      by (apply (entries_not_reportsActive _ _ _ _ Hent2); discriminate).
    assert (~ foundProcess d2) as Hno2
      by (apply (entries_not_foundProcess _ _ _ _ Hent2); discriminate).
    assert (~ asks pgrepCmd d2) as Hnp2
      by (apply (entries_not_asked _ _ _ _ _ Hent2); discriminate).
    assert (trace w2 = trace w ++ (d1 ++ d2)) as Htr
      by (now rewrite Htr2, Htr1, app_assoc).
    assert (answeredBy remote connection (calls w) (d1 ++ d2)) as Hans
      by (apply answeredBy_app; [exact Hans1 | now rewrite <- Hc1]).
    assert (calls w2 = (calls w + length (submissionsOf (d1 ++ d2)))%nat) as Hc
      by (rewrite submissionsOf_app; lia).
    destruct res2 as [r2|e2]; do 3 eexists; exists (d1 ++ d2);
      (split; [reflexivity|]; split; [exact Htr|];
       rewrite reportsActive_app, foundProcess_app, !asks_app, Hact1;
       cbn [isActiveReply fst]; tauto).
  - do 3 eexists. exists d1. split; [reflexivity|]. split; [exact Htr1|].
    rewrite Hact1. cbn. split; [split; discriminate|]. auto 6.
Qed.

Lemma queryProcessIds_spec (w : World) :
  exists pids w' delta,
    queryProcessIds remote connection w = (inl pids, w')
    /\ trace w' = trace w ++ delta
    /\ (pids <> [] <-> foundProcess delta)
    /\ ~ reportsActive delta
    /\ answeredBy remote connection (calls w) delta
    /\ calls w' = (calls w + length (submissionsOf delta))%nat
    /\ asks pgrepCmd delta.
Proof.
  unfold queryProcessIds, tryCatch, bind.
  destruct (runRemote_asked pgrepCmd queryOptions w ltac:(cbn; lia))
    as (res & w1 & d & -> & Htr & Hent & Hans & Hc & Hask).
  change (sentText (pathOf pgrepCmd queryOptions) pgrepCmd)
    with pgrepCmd in Hent, Hask.
  pose proof (entries_foundProcess _ _ _ Hent) as Hfound.
  assert (~ reportsActive d) as Hna
    by (apply (entries_not_reportsActive _ _ _ _ Hent); discriminate).
  destruct res as [r|e]; do 2 eexists; exists d;
    (split; [reflexivity|]; split; [exact Htr|]; split; [|auto 6]);
    rewrite Hfound.
  - split; [eauto|]. intros (r' & Heq & Hp). now inversion Heq; subst.
  - split; [congruence|]. intros (r' & Heq & _). discriminate.
Qed.

Lemma queryProcessDetails_spec (w : World) :
  exists details w' delta,
    queryProcessDetails remote connection w = (inl details, w')
    /\ trace w' = trace w ++ delta
    /\ ~ foundProcess delta
    /\ ~ reportsActive delta
    /\ answeredBy remote connection (calls w) delta
    /\ calls w' = (calls w + length (submissionsOf delta))%nat.
Proof.
  unfold queryProcessDetails, tryCatch, bind.
  destruct (runRemote_asked psCmd psOptions w ltac:(cbn; lia))
    as (res & w1 & d & -> & Htr & Hent & Hans & Hc & _).
  assert (~ reportsActive d) as Hna
    by (apply (entries_not_reportsActive _ _ _ _ Hent); discriminate).
  assert (~ foundProcess d) as Hno
    by (apply (entries_not_foundProcess _ _ _ _ Hent); discriminate).
  destruct res as [r|e]; do 2 eexists; exists d; auto 7.
Qed.

(** C9.  With a configured target the status query always answers.  It
    submits the state query and, whatever that query answers, the
    process-list query; every submission it records carries the reply of
    the target.  Its [isRunning] is true exactly when the service manager
    answered the state query with the active token or the process-list
    query answered with at least one process id.  In particular a process
    that is found makes [isRunning] true when the state query failed or
    said otherwise. *)
Theorem status_running_iff (w : World) :
  exists st w' delta,
    getStatus remote (Some connection) w = (inl st, w')
    /\ trace w' = trace w ++ delta
    /\ (isRunning st = true <-> reportsActive delta \/ foundProcess delta)
    /\ (~ reportsActive delta -> foundProcess delta -> isRunning st = true)
    /\ (isRunning st = true
        <-> serviceStatus st = "active"%string \/ processIds st <> [])
    /\ answeredBy remote connection (calls w) delta
    /\ asks isActiveCmd delta
    /\ asks pgrepCmd delta.
Proof.
  destruct (queryService_spec w)
    as (ss & sd & w1 & d1 & Hq1 & Htr1 & Hact1 & Hno1 & Hans1 & Hc1 & Hask1 & _).
  destruct (queryProcessIds_spec w1)
    as (pids & w2 & d2 & Hq2 & Htr2 & Hfound2 & Hna2 & Hans2 & Hc2 & Hask2).
  destruct (queryProcessDetails_spec w2)
    as (details & w3 & d3 & Hq3 & Htr3 & Hno3 & Hna3 & Hans3 & Hc3).
  eexists. exists w3, (d1 ++ d2 ++ d3).
  split.
  { unfold getStatus. erewrite tryCatch_ok; [reflexivity|].
    erewrite bind_ok by exact Hq1.
    erewrite bind_ok by exact Hq2.
    erewrite bind_ok by exact Hq3.
    reflexivity. }
  split; [now rewrite Htr3, Htr2, Htr1, <- !app_assoc|].
  cbn [isRunning serviceStatus processIds fst].
  assert ((0 <? length pids)%nat = true <-> pids <> []) as Hlen.
  { destruct pids; cbn; split; congruence. }
  assert (String.eqb ss "active" || (0 <? length pids)%nat = true
          <-> reportsActive (d1 ++ d2 ++ d3) \/ foundProcess (d1 ++ d2 ++ d3))
    as Hiff.
  { rewrite orb_true_iff, Hlen, Hact1, Hfound2.
    rewrite !reportsActive_app, !foundProcess_app. tauto. }
  split; [exact Hiff|]. split; [intros _ Hf; apply Hiff; now right|].
  split; [rewrite orb_true_iff, Hlen, String.eqb_eq; reflexivity|].
  split.
  { apply answeredBy_app; [exact Hans1|]. rewrite <- Hc1.
    apply answeredBy_app; [exact Hans2 | now rewrite <- Hc2]. }
  rewrite !asks_app. auto.
Qed.

(** X14.  With a configured target the boolean query always answers.  It
    submits the state query, and the process-list query exactly when the
    service manager did not answer the state query with the active token;
    every submission it records carries the reply of the target.  It
    answers true exactly when the service manager answered with the
    active token or the process list answered with some output. *)
Lemma processes_running_iff (w : World) :
  exists b w' delta,
    isCelestiaProcessesRunning remote (Some connection) w = (inl b, w')
    /\ trace w' = trace w ++ delta
    /\ (b = true <-> reportsActive delta \/ foundOutput delta)
    /\ answeredBy remote connection (calls w) delta
    /\ asks isActiveCmd delta
    /\ (asks pgrepCmd delta <-> ~ reportsActive delta).
Proof.
  unfold isCelestiaProcessesRunning, tryCatch.
  destruct (runRemote_asked isActiveCmd queryOptions w ltac:(cbn; lia))
    as (res1 & w1 & d1 & -> & Htr1 & Hent1 & Hans1 & Hc1 & Hask1).
  change (sentText (pathOf isActiveCmd queryOptions) isActiveCmd)
    with isActiveCmd in Hent1, Hask1.
  pose proof (entries_reportsActive _ _ _ Hent1) as Hact1.
  assert (~ asks pgrepCmd d1) as Hnp1
    by (apply (entries_not_asked _ _ _ _ _ Hent1); discriminate).
  destruct (isActiveReply res1) eqn:Hre.
  - exists true, w1, d1. split; [reflexivity|]. split; [exact Htr1|].
    split; [split; [intros _; left; now apply Hact1 | reflexivity]|].
    split; [exact Hans1|]. split; [exact Hask1|].
    split; [contradiction|]. intros Hna. destruct Hna. now apply Hact1.
  - destruct (runRemote_asked pgrepCmd queryOptions w1 ltac:(cbn; lia))
      as (res2 & w2 & d2 & -> & Htr2 & Hent2 & Hans2 & Hc2 & Hask2).
    change (sentText (pathOf pgrepCmd queryOptions) pgrepCmd)
      with pgrepCmd in Hent2, Hask2.
    assert (~ reportsActive d2) as Hna2
      by (apply (entries_not_reportsActive _ _ _ _ Hent2); discriminate).
    assert (~ reportsActive d1) as Hna1
      by (rewrite Hact1; discriminate).
    assert (~ foundOutput d1) as Hno1.
    { intros (t & r & Hin & _).
      assert (isActiveCmd <> pgrepCmd) as Hne by discriminate.
      exact (entries_other_text _ _ _ _ _ _ _ Hent1 Hne Hin). }
    assert (foundOutput d2
            <-> exists r, res2 = inl r /\ truthy (trim (stdout r)) = true)
      as Hfound.
    { destruct Hent2 as [Hall Hok]. split.
      - intros (t & r & Hin & Hout).
        rewrite Forall_forall in Hall. destruct (Hall _ Hin) as [_ ->].
        apply Hok in Hin. eauto.
      - intros (r & -> & Hout). exists (timeoutOf queryOptions), r.
        split; [now apply Hok | exact Hout]. }
    assert (trace w2 = trace w ++ (d1 ++ d2)) as Htr
      by (now rewrite Htr2, Htr1, app_assoc).
    assert (answeredBy remote connection (calls w) (d1 ++ d2)) as Hans
      by (apply answeredBy_app; [exact Hans1 | now rewrite <- Hc1]).
    assert (forall b,
              (b = true <-> exists r, res2 = inl r /\ truthy (trim (stdout r)) = true)
              -> (b = true <-> reportsActive (d1 ++ d2) \/ foundOutput (d1 ++ d2)))
      as Hfinish.
    { intros b Hb. rewrite Hb, <- Hfound, reportsActive_app.
      assert (foundOutput (d1 ++ d2) <-> foundOutput d1 \/ foundOutput d2) as ->.
      { unfold foundOutput. split.
        - intros (t & r & Hin & Hout). apply elem_of_app in Hin as [Hin|Hin];
            [left | right]; eauto.
        - intros [(t & r & Hin & Hout)|(t & r & Hin & Hout)];
            exists t, r; (split; [apply elem_of_app; auto | exact Hout]). }
      tauto. }
    assert (asks isActiveCmd (d1 ++ d2)
            /\ (asks pgrepCmd (d1 ++ d2) <-> ~ reportsActive (d1 ++ d2)))
      as Hasked.
    { rewrite !asks_app, reportsActive_app. tauto. }
    destruct res2 as [r2|e2].
    + exists (truthy (trim (stdout r2))), w2, (d1 ++ d2).
      split; [reflexivity|]. split; [exact Htr|].
      split; [|split; [exact Hans | exact Hasked]]. apply Hfinish.
      split; [eauto|]. intros (r & Heq & Hout). now inversion Heq; subst.
    + exists false, w2, (d1 ++ d2).
      split; [reflexivity|]. split; [exact Htr|].
      split; [|split; [exact Hans | exact Hasked]]. apply Hfinish.
      split; [discriminate|]. intros (r & Heq & _). discriminate.
Qed.

End WithTarget.

Example status_of_unmanaged_process :
  fst (getStatus Samples.unmanaged (Some Samples.vm) Samples.world0)
  = inl {| isRunning := true; serviceStatus := "inactive";
           processIds := ["4242"; "4243"]; processDetails := "";
           serviceDetails := "not found" |}.
Proof. reflexivity. Qed.

End StatusFacts.

(** ** The time-out escalation of the runner *)

Module RunnerFacts.
Import JsString Ssh Runner RunnerReading.

Lemma run_app normalize (s : Exec) (h1 h2 : list Step) :
  run normalize s (h1 ++ h2) = run normalize (run normalize s h1) h2.
Proof. unfold run. apply fold_left_app. Qed.

Lemma elapsed_snoc (h : list Step) (st : Step) :
  elapsed (h ++ [st])
  = elapsed h + match st with Elapse d => Z.of_N d | Emit _ => 0 end.
Proof.
  unfold elapsed. rewrite fold_left_app. cbn. destruct st; lia.
Qed.

(** *** The promise *)

Section Promise.
Variable normalize : string -> string.

Lemma run_cons (s : Exec) (st : Step) (h : list Step) :
  run normalize s (st :: h) = run normalize (step normalize s st) h.
Proof. reflexivity. Qed.

Lemma settle_keeps (o o' : Outcome SshCommandResult) (s : Exec) :
  settled s = Some o -> settle o' s = s.
Proof. intros H. unfold settle. now rewrite H. Qed.

Lemma step_settled (s : Exec) (st : Step) (o : Outcome SshCommandResult) :
  settled s = Some o -> settled (step normalize s st) = Some o.
Proof.
  intros Hs. destruct st as [d|ev]; cbn [step].
  - unfold elapse.
    assert (forall t, settled (onTimeout t s) = Some o) as Hto.
    { intros t. unfold onTimeout. cbv zeta. cbn [finished].
      destruct (finished s); [exact Hs|].
      rewrite (settle_keeps o); [exact Hs | exact Hs]. }
    assert (forall t s1, settled s1 = Some o -> settled (onForceKill t s1) = Some o)
      as Hfk.
    { intros t s1 H1. unfold onForceKill. cbv zeta. cbn [pid].
      destruct (pid s1); exact H1. }
    assert (settled
              (match timer s with
               | Some t =>
                   if t <=? clock s + Z.of_N d
                   then onTimeout (Z.max (clock s) t) s else s
               | None => s
               end) = Some o) as H1.
    { destruct (timer s) as [t|]; [|exact Hs].
      destruct (t <=? clock s + Z.of_N d); [apply Hto | exact Hs]. }
    cbv zeta. cbn [settled].
    match goal with
    | |- settled (match killTimer ?s1 with _ => _ end) = _ =>
        destruct (killTimer s1) as [t|]; [|exact H1];
        destruct (t <=? clock s + Z.of_N d); [now apply Hfk | exact H1]
    end.
  - destruct ev as [chunk|chunk|code|err]; cbn [onEvent];
      try exact Hs; (rewrite (settle_keeps o); [exact Hs | exact Hs]).
Qed.

Lemma run_settled (s : Exec) (history : list Step)
    (o : Outcome SshCommandResult) :
  settled s = Some o -> settled (run normalize s history) = Some o.
Proof.
  revert s. induction history as [|st history IH]; intros s Hs; [exact Hs|].
  rewrite run_cons. apply IH. now apply step_settled.
Qed.

(** What no step changes, and the clock. *)
Lemma settle_static (o : Outcome SshCommandResult) (s : Exec) :
  cmd (settle o s) = cmd s /\ timeoutMs (settle o s) = timeoutMs s
  /\ clock (settle o s) = clock s /\ finished (settle o s) = finished s
  /\ timer (settle o s) = timer s.
Proof. unfold settle. destruct (settled s); cbn; auto. Qed.

Lemma onTimeout_static (t : Z) (s : Exec) :
  cmd (onTimeout t s) = cmd s /\ timeoutMs (onTimeout t s) = timeoutMs s.
Proof.
  unfold onTimeout. cbv zeta. cbn [finished].
  destruct (finished s); [cbn; auto|].
  match goal with |- context [settle ?o ?s0] =>
    destruct (settle_static o s0) as (-> & -> & _) end.
  cbn. auto.
Qed.

Lemma onForceKill_static (t : Z) (s : Exec) :
  cmd (onForceKill t s) = cmd s /\ timeoutMs (onForceKill t s) = timeoutMs s
  /\ settled (onForceKill t s) = settled s
  /\ finished (onForceKill t s) = finished s
  /\ timer (onForceKill t s) = timer s.
Proof.
  unfold onForceKill, kill. cbv zeta. cbn [pid]. destruct (pid s); cbn; auto.
Qed.

(** The state of a call after the first of its two timers has had its
    turn in a lapse of time. *)
Lemma elapse_second (d : N) (s : Exec) :
  exists s1,
    s1 = match timer s with
         | Some t =>
             if t <=? clock s + Z.of_N d
             then onTimeout (Z.max (clock s) t) s else s
         | None => s
         end
    /\ cmd (elapse d s) = cmd s1 /\ timeoutMs (elapse d s) = timeoutMs s1
    /\ settled (elapse d s) = settled s1
    /\ finished (elapse d s) = finished s1
    /\ timer (elapse d s) = timer s1
    /\ clock (elapse d s) = clock s + Z.of_N d.
Proof.
  eexists. split; [reflexivity|]. unfold elapse. cbv zeta.
  cbn [cmd timeoutMs settled finished timer clock].
  match goal with
  | |- context [match killTimer ?s1 with _ => _ end] =>
      destruct (killTimer s1) as [t|]; [|auto 7];
      destruct (t <=? clock s + Z.of_N d); [|auto 7];
      destruct (onForceKill_static (Z.max (clock s1) t) s1)
        as (-> & -> & -> & -> & ->); auto 7
  end.
Qed.

Lemma step_static (s : Exec) (st : Step) :
  cmd (step normalize s st) = cmd s
  /\ timeoutMs (step normalize s st) = timeoutMs s
  /\ clock (step normalize s st)
     = clock s + match st with Elapse d => Z.of_N d | Emit _ => 0 end.
Proof.
  destruct st as [d|ev]; cbn [step].
  - destruct (elapse_second d s) as (s1 & Hs1 & -> & -> & _ & _ & _ & ->).
    split; [|split; [|reflexivity]]; subst s1;
      (destruct (timer s) as [t|]; [|reflexivity];
       destruct (t <=? clock s + Z.of_N d); [|reflexivity];
       apply onTimeout_static).
  - destruct ev as [chunk|chunk|code|err]; cbn [onEvent].
    + cbn [cmd timeoutMs clock]. split; [reflexivity|]. split; [reflexivity | lia].
    + cbn [cmd timeoutMs clock]. split; [reflexivity|]. split; [reflexivity | lia].
    + match goal with |- context [settle ?o ?s0] =>
        destruct (settle_static o s0) as (-> & -> & -> & _) end.
      cbn [cmd timeoutMs clock]. split; [reflexivity|]. split; [reflexivity | lia].
    + match goal with |- context [settle ?o ?s0] =>
        destruct (settle_static o s0) as (-> & -> & -> & _) end.
      cbn [cmd timeoutMs clock]. split; [reflexivity|]. split; [reflexivity | lia].
Qed.

(** Time goes by and the time-out is not yet due: the promise, the flag
    and the timer stay. *)
Lemma elapse_before_due (s : Exec) (d : N) (t : Z) :
  timer s = Some t -> clock s + Z.of_N d < t ->
  settled (elapse d s) = settled s
  /\ finished (elapse d s) = finished s
  /\ timer (elapse d s) = timer s.
Proof.
  intros Ht Hlt.
  destruct (elapse_second d s) as (s1 & Hs1 & _ & _ & -> & -> & -> & _).
  rewrite Ht in Hs1.
  assert ((t <=? clock s + Z.of_N d) = false) as Hno by (apply Z.leb_gt; lia).
  rewrite Hno in Hs1. subst s1. auto.
Qed.

(** Time goes by and the time-out comes due with the child running: the
    promise is rejected with the error of the time-out. *)
Lemma elapse_due (s : Exec) (d : N) (t : Z) :
  timer s = Some t -> t <= clock s + Z.of_N d ->
  finished s = false -> settled s = None ->
  settled (elapse d s) = Some (inr (timeoutError (timeoutMs s) (cmd s))).
Proof.
  intros Ht Hle Hf Hs.
  destruct (elapse_second d s) as (s1 & Hs1 & _ & _ & -> & _).
  rewrite Ht in Hs1.
  assert ((t <=? clock s + Z.of_N d) = true) as Hyes by (apply Z.leb_le; lia).
  rewrite Hyes in Hs1. subst s1.
  unfold onTimeout. cbv zeta. cbn [finished]. rewrite Hf.
  unfold settle, kill. cbn [settled]. rewrite Hs. reflexivity.
Qed.

Lemma childEnded_snoc (history : list Step) (st : Step) :
  childEnded (history ++ [st])
  = childEnded history
    || match st with Emit ev => isExit ev | Elapse _ => false end.
Proof.
  unfold childEnded. rewrite existsb_app. cbn. now rewrite orb_false_r.
Qed.

(** The promise of a call is settled by the end of the child or by the
    time-out, and by nothing else. *)
Lemma Settlement_run (command : string) (T : Z) (child : option nat)
    (startTime : Z) (history : list Step) :
  cmd (run normalize (spawned command T child startTime) history) = command
  /\ timeoutMs (run normalize (spawned command T child startTime) history) = T
  /\ clock (run normalize (spawned command T child startTime) history)
     = startTime + elapsed history
  /\ Settlement command T startTime history
       (run normalize (spawned command T child startTime) history).
Proof.
  induction history as [|st history IH] using rev_ind.
  - cbn. unfold elapsed. cbn. repeat split; try lia. now apply Pending.
  - destruct IH as (Hcmd & Hms & Hclock & Hstage).
    rewrite run_app, elapsed_snoc. cbn [run fold_left].
    set (s := run normalize (spawned command T child startTime) history) in *.
    destruct (step_static s st) as (Hcmd' & Hms' & Hclock').
    split; [congruence|]. split; [congruence|]. split; [lia|].
    destruct Hstage as [Hrun Hset Hfin Ht | Hend | Hset Hdue].
    + destruct st as [d|ev]; cbn [step].
      * destruct (Z.lt_ge_cases (clock s + Z.of_N d) (startTime + timerDelay T))
          as [Hlt|Hge].
        -- destruct (elapse_before_due s d _ Ht Hlt) as (Hs' & Hf' & Ht').
           apply Pending; [|congruence..].
           rewrite childEnded_snoc, Hrun. reflexivity.
        -- apply ByTimeout; [|rewrite elapsed_snoc; lia].
           rewrite (elapse_due s d _ Ht Hge Hfin Hset). now rewrite Hcmd, Hms.
      * destruct ev as [chunk|chunk|code|err];
          [apply Pending; [rewrite childEnded_snoc, Hrun; reflexivity
                          |assumption..]
          |apply Pending; [rewrite childEnded_snoc, Hrun; reflexivity
                          |assumption..]
          |apply ByExit; rewrite childEnded_snoc; apply orb_true_r
          |apply ByExit; rewrite childEnded_snoc; apply orb_true_r].
    + apply ByExit. rewrite childEnded_snoc, Hend. reflexivity.
    + apply ByTimeout; [now apply step_settled|].
      rewrite elapsed_snoc. destruct st; lia.
Qed.

End Promise.

(** A delay between 1 and 2147483647 is kept as it is. *)
Lemma timerDelay_kept (T : Z) : 1 <= T <= 2147483647 -> timerDelay T = T.
Proof.
  intros HT. unfold timerDelay.
  destruct (T <? 1) eqn:H1; [apply Z.ltb_lt in H1; lia|].
  destruct (2147483647 <? T) eqn:H2; [apply Z.ltb_lt in H2; lia|].
  reflexivity.
Qed.

(** Any other delay becomes 1: a time-out of 2^31 ms fires after one
    millisecond, and so does a time-out of 0. *)
Example timerDelay_clamped :
  timerDelay 2147483648 = 1 /\ timerDelay 0 = 1
  /\ kills (run (fun m => m) (spawned "sleep 60" 2147483648 (Some 7%nat) 0)
              [Elapse 1]) = [(1, SIGTERM)].
Proof. repeat split. Qed.

Section Escalation.
Variable normalize : string -> string.
Variables (command : string) (T : Z) (child : nat) (startTime : Z).
Hypothesis T_range : 1 <= T <= 2147483647.

Local Abbreviation Inv := (Escalating command T child startTime).

Lemma Escalating_spawned : Inv 0 (spawned command T (Some child) startTime).
Proof.
  unfold Escalating, spawned. rewrite (timerDelay_kept T T_range). cbn.
  repeat split; try lia.
  apply Waiting; cbn; auto.
Qed.

Lemma Escalating_elapse (d : N) (e : Z) (s : Exec) :
  Inv e s -> Inv (e + Z.of_N d) (elapse d s).
Proof.
  intros (He & Hclock & Hcmd & Hms & Hpid & Hstage).
  unfold Escalating, elapse.
  destruct Hstage as [Hlt Ht Hk Hf Hkills Hset | Hle Hlt Ht Hk Hf Hkills Hset
                     | Hle Ht Hk Hf Hkills Hset].
  - rewrite Ht.
    destruct (startTime + T <=? clock s + Z.of_N d) eqn:Hdue.
    + apply Z.leb_le in Hdue.
      replace (Z.max (clock s) (startTime + T)) with (startTime + T) by lia.
      unfold onTimeout. cbn [finished]. rewrite Hf. cbv zeta.
      unfold settle, kill. cbn [settled kills clock cmd timeoutMs pid timer
                                 killTimer finished stdoutAcc stderrAcc].
      rewrite Hset. cbn [settled kills clock cmd timeoutMs pid timer
                         killTimer finished stdoutAcc stderrAcc].
      destruct (startTime + T + 5000 <=? clock s + Z.of_N d) eqn:Hdue2.
      * apply Z.leb_le in Hdue2.
        replace (Z.max (startTime + T) (startTime + T + 5000))
          with (startTime + T + 5000) by lia.
        unfold onForceKill. cbn [pid]. rewrite Hpid. unfold kill.
        cbn [settled kills clock cmd timeoutMs pid timer
             killTimer finished stdoutAcc stderrAcc].
        repeat split; try assumption; try lia.
        apply Killed; cbn; rewrite ?Hkills, ?Hms, ?Hcmd; auto; lia.
      * apply Z.leb_gt in Hdue2.
        cbn [settled kills clock cmd timeoutMs pid timer
             killTimer finished stdoutAcc stderrAcc].
        repeat split; try assumption; try lia.
        apply Terminating; cbn; rewrite ?Hkills, ?Hms, ?Hcmd; auto; lia.
    + apply Z.leb_gt in Hdue. rewrite Hk.
      cbn. repeat split; try assumption; try lia.
      apply Waiting; cbn; auto. lia.
  - rewrite Ht, Hk.
    destruct (startTime + T + 5000 <=? clock s + Z.of_N d) eqn:Hdue2.
    + apply Z.leb_le in Hdue2.
      unfold onForceKill. cbn [pid]. rewrite Hpid. unfold kill.
      cbn [settled kills clock cmd timeoutMs pid timer
           killTimer finished stdoutAcc stderrAcc].
      repeat split; try assumption; try lia.
      apply Killed; cbn; rewrite ?Hkills; auto; try lia.
      do 3 f_equal. lia.
    + apply Z.leb_gt in Hdue2.
      cbn. repeat split; try assumption; try lia.
      apply Terminating; cbn; auto; lia.
  - rewrite Ht, Hk. cbn. repeat split; try assumption; try lia.
    apply Killed; cbn; auto; lia.
Qed.

Lemma Escalating_data (ev : ProcessEvent) (e : Z) (s : Exec) :
  match ev with Close _ | ProcessError _ => False | _ => True end ->
  Inv e s -> Inv e (onEvent normalize ev s).
Proof.
  intros Hev (He & Hclock & Hcmd & Hms & Hpid & Hstage).
  destruct ev as [chunk|chunk|code|err]; try contradiction;
    (unfold Escalating; cbn; repeat split; try assumption;
     destruct Hstage; [apply Waiting | apply Terminating | apply Killed];
     cbn; assumption).
Qed.

Lemma Escalating_run (history : list Step) :
  neverExits history ->
  Inv (elapsed history)
    (run normalize (spawned command T (Some child) startTime) history).
Proof.
  induction history as [|st history IH] using rev_ind; intros Hnever.
  - apply Escalating_spawned.
  - apply Forall_app in Hnever as [Hh Hst]. apply Forall_cons in Hst as [Hst _].
    rewrite run_app, elapsed_snoc. cbn [run fold_left step].
    specialize (IH Hh). destruct st as [d|ev].
    + now apply Escalating_elapse.
    + rewrite Z.add_0_r. now apply Escalating_data.
Qed.

End Escalation.

(** C5.  A command run with a time-out [T] that [setTimeout] keeps, from
    1 to 2147483647, whose child never exits: nothing is sent before [T]
    has gone by; the graceful signal is sent once, at [T] after the spawn,
    and the promise is rejected there with the time-out error that carries
    [T] and the command text; the forceful signal is sent once, at
    [T + 5000] after the spawn, the child having been spawned. *)
Theorem timeout_escalation (normalize : string -> string) (command : string)
    (T : Z) (child : nat) (startTime : Z) (history : list Step) :
  1 <= T <= 2147483647 ->
  neverExits history ->
  let s := run normalize (spawned command T (Some child) startTime) history in
  let e := elapsed history in
  (e < T -> kills s = [] /\ settled s = None)
  /\ (T <= e -> e < T + 5000 ->
      kills s = [(startTime + T, SIGTERM)]
      /\ settled s = Some (inr (timeoutError T command)))
  /\ (T + 5000 <= e ->
      kills s = [(startTime + T, SIGTERM); (startTime + T + 5000, SIGKILL)]
      /\ settled s = Some (inr (timeoutError T command)))
  /\ message (timeoutError T command)
     = "SSH command timeout after " +:+ pretty T +:+ "ms: " +:+ command.
Proof.
  intros HT Hnever s e.
  destruct (Escalating_run normalize command T child startTime HT history Hnever)
    as (He & _ & _ & _ & _ & Hstage).
  fold s in Hstage. fold e in Hstage, He.
  repeat split; intros;
    destruct Hstage; try lia; assumption.
Qed.

(** The theorem on a call with a timeout of thirty seconds whose child
    writes one line and then hangs. *)
Lemma timeout_escalation_witness :
  1 <= 30000 <= 2147483647
  /\ neverExits [Elapse 12000; Emit (StdoutData "syncing"); Elapse 18000;
                 Elapse 5000]
  /\ kills (run (fun m => m)
              (spawned "celestia light start" 30000 (Some 4242%nat) 1000)
              [Elapse 12000; Emit (StdoutData "syncing"); Elapse 18000;
               Elapse 5000])
     = [(31000, SIGTERM); (36000, SIGKILL)]
  /\ settled (run (fun m => m)
                (spawned "celestia light start" 30000 (Some 4242%nat) 1000)
                [Elapse 12000; Emit (StdoutData "syncing"); Elapse 18000;
                 Elapse 5000])
     = Some (inr {| message :=
                      "SSH command timeout after 30000ms: celestia light start" |}).
Proof.
  assert (neverExits [Elapse 12000; Emit (StdoutData "syncing"); Elapse 18000;
                      Elapse 5000]) as Hnever
    by (repeat constructor).
  destruct (timeout_escalation (fun m => m) "celestia light start" 30000
              4242%nat 1000
              [Elapse 12000; Emit (StdoutData "syncing"); Elapse 18000;
               Elapse 5000] ltac:(lia) Hnever) as (_ & _ & Hkilled & _).
  destruct (Hkilled ltac:(vm_compute; discriminate)) as [Hk Hs].
  split; [lia|]. split; [exact Hnever|]. split; [exact Hk | exact Hs].
Defined.

End RunnerFacts.

(** ** The queue discipline of the connection pool *)

Module PoolFacts.
Import Ssh Pool.

(** *** Reading logs *)

Lemma observeAll_app key (l : option Lane) (a b : list Ev) :
  observeAll key l (a ++ b) = observeAll key (observeAll key l a) b.
Proof. unfold observeAll. apply fold_left_app. Qed.

Lemma observeAll_None key (evs : list Ev) : observeAll key None evs = None.
Proof. induction evs as [|ev evs IH]; [reflexivity | exact IH]. Qed.

Lemma observe_other key (l : Lane) (ev : Ev) :
  evKey ev <> key -> observe key l ev = Some l.
Proof.
  intros Hne. destruct ev as [k r|k r|k r ok]; cbn in *;
    (destruct (String.eqb_spec k key); [congruence | reflexivity]).
Qed.

Lemma observeAll_other key k0 (l : Lane) (evs : list Ev) :
  Forall (fun ev => evKey ev = k0) evs -> k0 <> key ->
  observeAll key (Some l) evs = Some l.
Proof.
  intros Hall Hne. induction Hall as [|ev evs Hev _ IH]; [reflexivity|].
  cbn. rewrite observe_other by congruence. exact IH.
Qed.

(** The shape of a serial log: the requests of the key were started in the
    order queued, and settled in that order. *)
Lemma serial_shape key (evs : list Ev) :
  forall l, serial key evs = Some l ->
    queuedOf key evs = done l ++ option_list (running l) ++ pending l
    /\ startedOf key evs = done l ++ option_list (running l)
    /\ settledOf key evs = done l.
Proof.
  induction evs as [|ev evs IH] using rev_ind; intros l Hl.
  - inversion Hl. repeat split.
  - unfold serial in Hl. rewrite observeAll_app in Hl.
    destruct (observeAll key (Some idle) evs) as [l0|] eqn:H0;
      [|cbn in Hl; discriminate].
    destruct (IH l0 H0) as (Hq & Hs & Hd).
    unfold queuedOf, startedOf, settledOf in *.
    rewrite !omap_app, Hq, Hs, Hd. cbn in Hl |- *.
    destruct ev as [k r|k r|k r ok]; cbn in Hl |- *;
      destruct (String.eqb k key); cbn in Hl |- *.
    + inversion Hl; subst; cbn. rewrite !app_nil_r, <- !app_assoc. repeat split.
    + inversion Hl; subst. rewrite !app_nil_r. repeat split.
    + destruct (running l0) eqn:Hr; [discriminate|].
      destruct (pending l0) as [|r' rest] eqn:Hp; [discriminate|].
      destruct (Nat.eqb_spec r r'); [|discriminate].
      inversion Hl; subst; cbn. rewrite !app_nil_r. repeat split.
    + inversion Hl; subst. rewrite !app_nil_r. repeat split.
    + destruct (running l0) as [r'|] eqn:Hr; [|discriminate].
      destruct (Nat.eqb_spec r r'); [|discriminate].
      inversion Hl; subst; cbn. rewrite !app_nil_r, <- !app_assoc. repeat split.
    + inversion Hl; subst. rewrite !app_nil_r. repeat split.
Qed.

(** *** The invariant and the ways a state changes *)

Lemma Inv_initial : Inv initial.
Proof.
  split.
  - intros key ref H. cbn in H. now rewrite lookup_empty in H.
  - intros ref p H. cbn in H. destruct ref; discriminate.
  - intros ref p H. cbn in H. destruct ref; discriminate.
  - intros key. exists idle. split; [reflexivity|].
    unfold liveObject. cbn. rewrite lookup_empty. cbn. auto.
Qed.

Lemma runningOf_settled (p : PooledConnection) :
  objOk p -> settledObj p -> runningOf (drains p) = None.
Proof.
  intros [(_ & -> & _)|(_ & a & Ha)] [_ Hno]; [reflexivity|].
  rewrite Ha in *. destruct a; [cbn in Hno; discriminate | reflexivity].
Qed.

Lemma laneMatches_settled (l : Lane) (p : PooledConnection) :
  objOk p -> settledObj p ->
  laneMatches l (Some p) <-> laneMatches l None.
Proof.
  intros Hok Hset. cbn. rewrite (runningOf_settled p Hok Hset).
  destruct Hset as [-> _]. reflexivity.
Qed.

(** One object changes, and the log grows by events of its key. *)
Lemma Inv_update (s s' : State) (ref : nat) (p p' : PooledConnection)
    (evs : list Ev) :
  Inv s ->
  store s !! ref = Some p ->
  store s' !! ref = Some p' ->
  (forall i, i <> ref -> store s' !! i = store s !! i) ->
  connectionPool s' = connectionPool s ->
  log s' = log s ++ evs ->
  connection p' = connection p ->
  objOk p' ->
  Forall (fun ev => evKey ev = keyOf (connection p)) evs ->
  (connectionPool s !! keyOf (connection p) = Some ref ->
   forall l, laneMatches l (Some p) ->
     exists l', observeAll (keyOf (connection p)) (Some l) evs = Some l'
                /\ laneMatches l' (Some p')) ->
  (connectionPool s !! keyOf (connection p) <> Some ref ->
   evs = [] /\ settledObj p') ->
  Inv s'.
Proof.
  intros [Hmap Hobj Horph Hlane] Hp Hp' Hrest Hpool Hlog Hconn Hok Hkeys
    Hlive Hdead.
  split.
  - intros key r Hr. rewrite Hpool in Hr.
    destruct (Hmap key r Hr) as (q & Hq & Hk).
    destruct (decide (r = ref)) as [->|Hne].
    + exists p'. split; [exact Hp'|]. rewrite Hconn. congruence.
    + exists q. split; [now rewrite Hrest | exact Hk].
  - intros r q Hq. destruct (decide (r = ref)) as [->|Hne].
    + congruence.
    + rewrite Hrest in Hq by exact Hne. eauto.
  - intros r q Hq Hno. rewrite Hpool in Hno.
    destruct (decide (r = ref)) as [->|Hne].
    + assert (q = p') as -> by congruence. rewrite Hconn in Hno.
      now apply Hdead.
    + rewrite Hrest in Hq by exact Hne. eauto.
  - intros key. destruct (Hlane key) as (l & Hser & Hmatch).
    unfold serial in *. rewrite Hlog, observeAll_app, Hser.
    unfold liveObject in *. rewrite Hpool.
    destruct (decide (keyOf (connection p) = key)) as [<-|Hk].
    + destruct (connectionPool s !! keyOf (connection p)) as [r|] eqn:Hr.
      * destruct (decide (r = ref)) as [->|Hne].
        -- cbn in Hmatch |- *. rewrite Hp in Hmatch. rewrite Hp'.
           now apply Hlive.
        -- destruct Hdead as [-> _]; [congruence|].
           cbn in Hmatch |- *. rewrite Hrest by exact Hne.
           exists l. split; [reflexivity | exact Hmatch].
      * destruct Hdead as [-> _]; [congruence|].
        exists l. split; [reflexivity | exact Hmatch].
    + rewrite (observeAll_other key _ l evs Hkeys Hk).
      exists l. split; [reflexivity|].
      destruct (connectionPool s !! key) as [r|] eqn:Hr; [|exact Hmatch].
      cbn in Hmatch |- *. rewrite Hrest; [exact Hmatch|].
      intros ->. destruct (Hmap key ref Hr) as (q & Hq & Hkq). congruence.
Qed.

Lemma Inv_updates (s s' : State) (ref : nat) (p p' : PooledConnection)
    (evs : list Ev) :
  Inv s ->
  store s !! ref = Some p ->
  updates s s' ref p' evs ->
  connection p' = connection p ->
  objOk p' ->
  Forall (fun ev => evKey ev = keyOf (connection p)) evs ->
  (connectionPool s !! keyOf (connection p) = Some ref ->
   forall l, laneMatches l (Some p) ->
     exists l', observeAll (keyOf (connection p)) (Some l) evs = Some l'
                /\ laneMatches l' (Some p')) ->
  (connectionPool s !! keyOf (connection p) <> Some ref ->
   evs = [] /\ settledObj p') ->
  Inv s'.
Proof.
  intros HI Hp (Hp' & Hrest & Hpool & Hlog). now apply Inv_update.
Qed.

Lemma updates_trans (s s1 s2 : State) (ref : nat) (p1 p2 : PooledConnection)
    (e1 e2 : list Ev) :
  updates s s1 ref p1 e1 -> updates s1 s2 ref p2 e2 ->
  updates s s2 ref p2 (e1 ++ e2).
Proof.
  intros (_ & Hr1 & Hm1 & Hl1) (Hp2 & Hr2 & Hm2 & Hl2).
  split; [exact Hp2|]. split; [|split].
  - intros i Hi. now rewrite Hr2, Hr1.
  - congruence.
  - now rewrite Hl2, Hl1, app_assoc.
Qed.

Lemma updates_insert (s : State) (ref : nat) (p q : PooledConnection)
    (evs : list Ev) :
  store s !! ref = Some p ->
  updates s (withLog (log s ++ evs) (withStore (<[ref := q]> (store s)) s))
    ref q evs.
Proof.
  intros Hp. apply lookup_lt_Some in Hp.
  split; [now apply list_lookup_insert_eq|].
  split; [|split; reflexivity].
  intros i Hi. cbn. now apply list_lookup_insert_ne.
Qed.

Lemma updates_insert_quiet (s : State) (ref : nat) (p q : PooledConnection) :
  store s !! ref = Some p ->
  updates s (withStore (<[ref := q]> (store s)) s) ref q [].
Proof.
  intros Hp. apply lookup_lt_Some in Hp.
  split; [now apply list_lookup_insert_eq|].
  split; [|split; [reflexivity | cbn; now rewrite app_nil_r]].
  intros i Hi. cbn. now apply list_lookup_insert_ne.
Qed.

(** What the loop does from its head to its next suspension. *)
Lemma drainLoop_updates (s : State) (ref : nat) (p : PooledConnection) (now : Z) :
  store s !! ref = Some p ->
  exists p' evs,
    updates s (drainLoop ref now s) ref p' evs
    /\ connection p' = connection p
    /\ ((commandQueue p = [] /\ evs = [] /\ isActive p' = false
         /\ drains p' = drains p /\ commandQueue p' = [])
        \/ (exists r rest,
              commandQueue p = r :: rest
              /\ evs = [Started (keyOf (connection p)) (rid r)]
              /\ isActive p' = isActive p
              /\ drains p' = drains p ++ [AwaitRunner r]
              /\ commandQueue p' = rest)).
Proof.
  intros Hp. unfold drainLoop. rewrite Hp.
  destruct (commandQueue p) as [|r rest] eqn:Hq.
  - eexists. exists []. split; [eapply updates_insert_quiet; exact Hp|].
    split; [reflexivity|]. left. cbn. repeat split; assumption.
  - eexists. eexists. split; [eapply updates_insert; exact Hp|].
    split; [reflexivity|]. right. exists r, rest. cbn. repeat split.
Qed.

(** A fresh session enters the store and the map. *)
Lemma Inv_create (s s' : State) (pnew : PooledConnection) :
  Inv s ->
  connectionPool s !! keyOf (connection pnew) = None ->
  store s' = store s ++ [pnew] ->
  connectionPool s'
  = <[keyOf (connection pnew) := length (store s)]> (connectionPool s) ->
  log s' = log s ->
  isActive pnew = false -> drains pnew = [] -> commandQueue pnew = [] ->
  Inv s'.
Proof.
  intros [Hmap Hobj Horph Hlane] Hfree Hstore Hpool Hlog Hact Hdr Hq.
  split.
  - intros key r Hr. rewrite Hpool in Hr. rewrite Hstore.
    destruct (decide (keyOf (connection pnew) = key)) as [<-|Hk].
    + rewrite lookup_insert_eq in Hr. inversion Hr; subst r.
      exists pnew. split; [|reflexivity].
      rewrite lookup_app_r by lia. now rewrite Nat.sub_diag.
    + rewrite lookup_insert_ne in Hr by exact Hk.
      destruct (Hmap key r Hr) as (q & Hq' & Hkq).
      exists q. split; [|exact Hkq].
      rewrite lookup_app_l; [exact Hq' | eauto using lookup_lt_Some].
  - intros r q Hq'. rewrite Hstore in Hq'.
    apply lookup_app_Some in Hq' as [Hq'|[_ Hq']]; [eauto|].
    destruct (r - length (store s))%nat; [|discriminate].
    inversion Hq'; subst q. left. auto.
  - intros r q Hq' Hno. rewrite Hstore in Hq'. rewrite Hpool in Hno.
    apply lookup_app_Some in Hq' as [Hq'|[Hge Hq']].
    + apply (Horph r q Hq').
      destruct (decide (keyOf (connection pnew) = keyOf (connection q))) as [He|Hk].
      * rewrite <- He, Hfree. discriminate.
      * now rewrite lookup_insert_ne in Hno by exact Hk.
    + destruct (r - length (store s))%nat eqn:Hr; [|discriminate].
      inversion Hq'; subst q. split; [exact Hq|]. now rewrite Hdr.
  - intros key. destruct (Hlane key) as (l & Hser & Hmatch).
    exists l. rewrite Hlog. split; [exact Hser|].
    unfold liveObject in *. rewrite Hpool, Hstore.
    destruct (decide (keyOf (connection pnew) = key)) as [<-|Hk].
    + rewrite lookup_insert_eq. cbn.
      rewrite lookup_app_r by lia. rewrite Nat.sub_diag. cbn.
      rewrite Hfree in Hmatch. cbn in Hmatch. now rewrite Hdr, Hq.
    + rewrite lookup_insert_ne by exact Hk.
      destruct (connectionPool s !! key) as [r|] eqn:Hr; [|exact Hmatch].
      cbn in Hmatch |- *. destruct (Hmap key r Hr) as (q & Hq' & _).
      rewrite lookup_app_l; [exact Hmatch | eauto using lookup_lt_Some].
Qed.

(** Sessions leave the map, each with nothing outstanding. *)
Lemma Inv_shrink (s s' : State) :
  Inv s ->
  store s' = store s ->
  log s' = log s ->
  (forall key ref, connectionPool s' !! key = Some ref ->
     connectionPool s !! key = Some ref) ->
  (forall key ref p, connectionPool s !! key = Some ref ->
     connectionPool s' !! key = None ->
     store s !! ref = Some p -> settledObj p) ->
  Inv s'.
Proof.
  intros [Hmap Hobj Horph Hlane] Hstore Hlog Hsub Hgone.
  split.
  - intros key r Hr. rewrite Hstore. eauto.
  - intros r q Hq. rewrite Hstore in Hq. eauto.
  - intros r q Hq Hno. rewrite Hstore in Hq.
    destruct (decide (connectionPool s !! keyOf (connection q) = Some r))
      as [Hlive|Hdead]; [|eauto].
    apply (Hgone _ _ _ Hlive); [|exact Hq].
    destruct (connectionPool s' !! keyOf (connection q)) as [r'|] eqn:Hr';
      [|reflexivity].
    apply Hsub in Hr'. congruence.
  - intros key. destruct (Hlane key) as (l & Hser & Hmatch).
    exists l. rewrite Hlog. split; [exact Hser|].
    unfold liveObject in *. rewrite Hstore.
    destruct (connectionPool s' !! key) as [r'|] eqn:Hr'.
    + now rewrite (Hsub _ _ Hr') in Hmatch.
    + destruct (connectionPool s !! key) as [r|] eqn:Hr; [|exact Hmatch].
      cbn in Hmatch |- *.
      destruct (Hmap key r Hr) as (q & Hq & _). rewrite Hq in Hmatch.
      apply (laneMatches_settled l q); eauto.
Qed.

(** *** The inputs keep the invariant *)

Lemma Inv_touch (s : State) (ref : nat) (p : PooledConnection) (now : Z) :
  Inv s -> store s !! ref = Some p ->
  Inv (withStore (alter (touch now) ref (store s)) s).
Proof.
  intros HI Hp.
  apply (Inv_update s _ ref p (touch now p) []); auto.
  - cbn. now rewrite list_lookup_alter_eq, Hp.
  - intros i Hi. cbn. now apply list_lookup_alter_ne.
  - cbn. now rewrite app_nil_r.
  - apply (inv_obj s HI ref p Hp).
  - intros _ l Hl. exists l. split; [reflexivity | exact Hl].
  - intros Hdead. split; [reflexivity|].
    apply (inv_orphan s HI ref p Hp Hdead).
Qed.

Lemma getPooledConnection_Inv (c : SshConnection) (now : Z) (s : State) :
  Inv s ->
  Inv (snd (getPooledConnection c now s))
  /\ connectionPool (snd (getPooledConnection c now s)) !! keyOf c
     = Some (fst (getPooledConnection c now s))
  /\ log (snd (getPooledConnection c now s)) = log s.
Proof.
  intros HI. unfold getPooledConnection.
  destruct (connectionPool s !! keyOf c) as [ref|] eqn:Hkey.
  - cbv zeta. rewrite Hkey. cbn [default fst snd].
    destruct (inv_map s HI _ _ Hkey) as (p & Hp & _).
    split; [now apply (Inv_touch s ref p)|]. split; [exact Hkey | reflexivity].
  - cbv zeta.
    set (pnew := {| connection := c; lastUsed := now; isActive := false;
                    commandQueue := []; drains := [] |}).
    set (s1 := {| store := store s ++ [pnew];
                  connectionPool := <[keyOf c := length (store s)]> (connectionPool s);
                  poolCleanupInterval := _; nextRid := nextRid s; log := log s |}).
    assert (Inv s1) as HI1 by (apply (Inv_create s s1 pnew); auto).
    assert (connectionPool s1 !! keyOf c = Some (length (store s))) as Hk1
      by apply lookup_insert_eq.
    rewrite Hk1. cbn [default fst snd].
    destruct (inv_map s1 HI1 _ _ Hk1) as (p & Hp & _).
    split; [now apply (Inv_touch s1 _ p)|]. split; [exact Hk1 | reflexivity].
Qed.

Lemma eqb_key (k : string) : String.eqb k k = true.
Proof. apply String.eqb_refl. Qed.

Lemma submit_effect (c : SshConnection) (command : string) (timeoutMs now : Z)
    (s : State) :
  Inv s ->
  Inv (executeRemoteCommandPooled c command timeoutMs now s)
  /\ exists evs,
      log (executeRemoteCommandPooled c command timeoutMs now s) = log s ++ evs
      /\ Forall (fun ev => evKey ev = keyOf c) evs.
Proof.
  intros HI. unfold executeRemoteCommandPooled.
  destruct (getPooledConnection_Inv c now s HI) as (HI1 & Hkey & Hlog1).
  destruct (getPooledConnection c now s) as [ref s1]. cbn [fst snd] in *.
  destruct (inv_map s1 HI1 _ _ Hkey) as (p & Hp & Hpk).
  rewrite Hp. cbv zeta.
  set (request := {| cmd := command; timeout := timeoutMs; rid := nextRid s1 |}).
  set (pq := setQueue (commandQueue p ++ [request]) p).
  set (s2 := {| store := <[ref := pq]> (store s1);
                connectionPool := connectionPool s1;
                poolCleanupInterval := poolCleanupInterval s1;
                nextRid := S (nextRid s1);
                log := log s1 ++ [Queued (keyOf c) (nextRid s1)] |}).
  assert (updates s1 s2 ref pq [Queued (keyOf c) (nextRid s1)]) as Hu2
    by exact (updates_insert s1 ref p pq _ Hp).
  pose proof (inv_obj s1 HI1 ref p Hp) as Hok.
  destruct (isActive p) eqn:Hact.
  - (* the session is busy: the request waits in the queue *)
    destruct Hok as [(Hf & _)|(_ & a & Ha)]; [congruence|].
    split; [|exists [Queued (keyOf c) (nextRid s1)]; cbn; rewrite Hlog1;
             split; [reflexivity | repeat constructor]].
    apply (Inv_updates s1 s2 ref p pq [Queued (keyOf c) (nextRid s1)]
             HI1 Hp Hu2 eq_refl).
    + right. split; [exact Hact | eauto].
    + repeat constructor. cbn. congruence.
    + intros _ l [Hrun Hpend]. cbn. rewrite <- Hpk, eqb_key. cbn.
      eexists. split; [reflexivity|]. cbn. split; [exact Hrun|].
      now rewrite Hpend, fmap_app.
    + intros Hdead. rewrite Hpk in Hdead. contradiction.
  - (* the session is at rest: the drain starts with this request *)
    destruct Hok as [(_ & Hdr & Hq)|(Ht & _)]; [|congruence].
    unfold processCommandQueue.
    destruct Hu2 as (Hp2 & Hr2 & Hm2 & Hl2). rewrite Hp2.
    assert (isActive pq || (length (commandQueue pq) =? 0)%nat = false) as ->.
    { subst pq. cbn. now rewrite Hact, Hq. }
    set (s3 := withStore (<[ref := setActive true pq]> (store s2)) s2).
    assert (updates s2 s3 ref (setActive true pq) []) as Hu3
      by exact (updates_insert_quiet s2 ref pq _ Hp2).
    destruct (drainLoop_updates s3 ref (setActive true pq) now)
      as (p' & evs & Hu4 & Hconn & Hcase); [apply Hu3|].
    destruct Hcase as [(Hempty & _)|(r & rest & Hqueue & -> & Hact' & Hdr' & Hq')].
    { subst pq. cbn in Hempty. rewrite Hq in Hempty. discriminate. }
    subst pq. cbn in Hqueue, Hact', Hdr', Hconn. rewrite Hq in Hqueue.
    cbn in Hqueue. injection Hqueue as Hr Hrest. subst r rest.
    rewrite Hdr in Hdr'. cbn in Hdr'.
    pose proof (updates_trans _ _ _ _ _ _ _ _
                  (updates_trans _ _ _ _ _ _ _ _
                     (conj Hp2 (conj Hr2 (conj Hm2 Hl2))) Hu3) Hu4) as Hu.
    split; [|eexists; split;
              [rewrite <- Hlog1; apply Hu
              |cbn; repeat constructor; cbn; congruence]].
    apply (Inv_updates s1 _ ref p p' _ HI1 Hp Hu Hconn).
    + right. split; [exact Hact' | eauto].
    + cbn. repeat constructor. cbn. congruence.
    + intros _ l [Hrun Hpend]. rewrite Hdr in Hrun. rewrite Hq in Hpend.
      cbn in Hrun, Hpend. cbn. rewrite <- Hpk, !eqb_key. cbn.
      rewrite Hrun, Hpend. cbn. rewrite Nat.eqb_refl.
      eexists. split; [reflexivity|]. cbn. rewrite Hdr', Hq'. auto.
    + intros Hdead. rewrite Hpk in Hdead. contradiction.
Qed.

Lemma resume_Inv (ref j : nat) (ok : bool) (now : Z) (s : State) :
  Inv s -> Inv (resume ref j ok now s).
Proof.
  intros HI. unfold resume.
  destruct (store s !! ref) as [p|] eqn:Hp; [|exact HI].
  destruct (drains p !! j) as [a|] eqn:Ha; [|exact HI].
  destruct (inv_obj s HI ref p Hp) as [(_ & Hdr & _)|(Hact & a0 & Hdr)];
    rewrite Hdr in Ha; [destruct j; discriminate|].
  destruct j as [|j]; [|destruct j; discriminate].
  injection Ha as ->. rewrite Hdr. cbn [delete list_delete].
  cbv zeta.
  set (p1 := setDrains [] p).
  destruct a as [r|].
  - (* the runner has returned *)
    assert (connectionPool s !! keyOf (connection p) = Some ref) as Hlive.
    { destruct (decide (connectionPool s !! keyOf (connection p) = Some ref))
        as [H|H]; [exact H|].
      destruct (inv_orphan s HI ref p Hp H) as [_ Hno].
      rewrite Hdr in Hno. discriminate. }
    destruct ok.
    + apply (Inv_updates s _ ref p (setDrains ([] ++ [AwaitDelay]) p1)
               [Settled (keyOf (connection p)) (rid r) true] HI Hp
               (updates_insert s ref p _ _ Hp) eq_refl).
      * right. split; [exact Hact | eauto].
      * repeat constructor.
      * intros _ l [Hrun Hpend]. rewrite Hdr in Hrun. cbn in Hrun.
        cbn. rewrite eqb_key, Hrun, Nat.eqb_refl.
        eexists. split; [reflexivity|]. cbn. auto.
      * intros H. contradiction.
    + set (s1 := withLog (log s ++ [Settled (keyOf (connection p)) (rid r) false])
                   (withStore (<[ref := p1]> (store s)) s)).
      assert (updates s s1 ref p1 [Settled (keyOf (connection p)) (rid r) false])
        as Hu1 by exact (updates_insert s ref p p1 _ Hp).
      destruct (drainLoop_updates s1 ref p1 now)
        as (p' & evs & Hu2 & Hconn & Hcase); [apply Hu1|].
      pose proof (updates_trans _ _ _ _ _ _ _ _ Hu1 Hu2) as Hu.
      apply (Inv_updates s _ ref p p' _ HI Hp Hu Hconn).
      * destruct Hcase as [(_ & _ & Hf & Hd & Hq)|(r2 & rest & _ & _ & Ha' & Hd & _)].
        -- left. auto.
        -- right. split; [now rewrite Ha'|]. rewrite Hd. cbn. eauto.
      * destruct Hcase as [(_ & -> & _)|(r2 & rest & _ & -> & _)];
          repeat constructor.
      * intros _ l [Hrun Hpend]. rewrite Hdr in Hrun. cbn in Hrun.
        destruct Hcase as [(Hq0 & -> & Hf & Hd & Hq)
                          |(r2 & rest & Hq0 & -> & Ha' & Hd & Hq)];
          cbn in Hq0; rewrite Hq0 in Hpend; cbn in Hpend;
          cbn; rewrite !eqb_key, Hrun, Nat.eqb_refl; cbn.
        -- eexists. split; [reflexivity|]. cbn. rewrite Hd, Hq. cbn. auto.
        -- rewrite Hpend, Nat.eqb_refl.
           eexists. split; [reflexivity|]. cbn. rewrite Hd, Hq. cbn. auto.
      * intros H. contradiction.
  - (* the delay is over *)
    set (s1 := withStore (<[ref := p1]> (store s)) s).
    assert (updates s s1 ref p1 []) as Hu1
      by exact (updates_insert_quiet s ref p p1 Hp).
    destruct (drainLoop_updates s1 ref p1 now)
      as (p' & evs & Hu2 & Hconn & Hcase); [apply Hu1|].
    pose proof (updates_trans _ _ _ _ _ _ _ _ Hu1 Hu2) as Hu.
    apply (Inv_updates s _ ref p p' _ HI Hp Hu Hconn).
    + destruct Hcase as [(_ & _ & Hf & Hd & Hq)|(r2 & rest & _ & _ & Ha' & Hd & _)].
      * left. auto.
      * right. split; [now rewrite Ha'|]. rewrite Hd. cbn. eauto.
    + destruct Hcase as [(_ & -> & _)|(r2 & rest & _ & -> & _)];
        repeat constructor.
    + intros _ l [Hrun Hpend]. rewrite Hdr in Hrun. cbn in Hrun.
      destruct Hcase as [(Hq0 & -> & Hf & Hd & Hq)
                        |(r2 & rest & Hq0 & -> & Ha' & Hd & Hq)];
        cbn in Hq0; rewrite Hq0 in Hpend; cbn in Hpend; cbn.
      * eexists. split; [reflexivity|]. cbn. rewrite Hd, Hq. cbn. auto.
      * rewrite eqb_key, Hrun, Hpend, Nat.eqb_refl.
        eexists. split; [reflexivity|]. cbn. rewrite Hd, Hq. cbn. auto.
    + intros Hdead. destruct (inv_orphan s HI ref p Hp Hdead) as [Hq0 _].
      destruct Hcase as [(_ & -> & Hf & Hd & Hq)
                        |(r2 & rest & Hq1 & _)].
      * split; [reflexivity|]. split; [exact Hq|]. now rewrite Hd.
      * cbn in Hq1. congruence.
Qed.

Lemma cleanupTick_Inv (now : Z) (s : State) :
  Inv s -> Inv (cleanupTick now s).
Proof.
  intros HI. unfold cleanupTick.
  destruct (poolCleanupInterval s); [|exact HI].
  apply (Inv_shrink s); [exact HI | reflexivity | reflexivity | |].
  - intros key ref H. cbn in H. now apply map_lookup_filter_Some in H.
  - intros key ref p Hkey Hgone Hp. cbn in Hgone.
    apply map_lookup_filter_None in Hgone as [Hnone|Hno]; [congruence|].
    specialize (Hno ref Hkey). cbn in Hno. unfold reapable in Hno.
    rewrite Hp in Hno.
    destruct (isActive p) eqn:Hact; [cbn in Hno; contradiction|].
    destruct (inv_obj s HI ref p Hp) as [(_ & Hdr & Hq)|(Ht & _)]; [|congruence].
    split; [exact Hq | now rewrite Hdr].
Qed.

Lemma cleanupConnectionPool_Inv (s : State) :
  Inv s -> quiescent s = true -> Inv (cleanupConnectionPool s).
Proof.
  intros HI Hquiet.
  apply (Inv_shrink s); [exact HI | reflexivity | reflexivity | |].
  - intros key ref H. cbn in H. now rewrite lookup_empty in H.
  - intros key ref p _ _ Hp. unfold quiescent in Hquiet.
    rewrite forallb_forall in Hquiet.
    assert (In p (store s)) as Hin
      by (apply list_elem_of_In, list_elem_of_lookup; eauto).
    apply Hquiet in Hin. apply andb_true_iff in Hin as [Hlen Hno].
    split.
    + destruct (commandQueue p); [reflexivity | discriminate].
    + now apply negb_true_iff in Hno.
Qed.

Lemma step_Inv (s : State) (i : Input) :
  Inv s -> match i with Teardown => quiescent s = true | _ => True end ->
  Inv (step s i).
Proof.
  intros HI Hi. destruct i as [c command timeoutMs now|ref j ok now|now|]; cbn.
  - now apply submit_effect.
  - now apply resume_Inv.
  - now apply cleanupTick_Inv.
  - now apply cleanupConnectionPool_Inv.
Qed.

Lemma run_Inv (inputs : list Input) :
  forall s, Inv s -> disciplined s inputs = true -> Inv (run s inputs).
Proof.
  induction inputs as [|i inputs IH]; intros s HI Hd; [exact HI|].
  cbn in Hd. apply andb_true_iff in Hd as [Hi Hrest].
  cbn. apply IH; [|exact Hrest].
  apply step_Inv; [exact HI|]. destruct i; auto.
Qed.

Lemma run_snoc (s : State) (inputs : list Input) (i : Input) :
  run s (inputs ++ [i]) = step (run s inputs) i.
Proof. unfold run. now rewrite fold_left_app. Qed.

(** C1, as amended.  The pool starts empty and takes any inputs in any
    order: submissions for any targets, runners that return, delays that
    end, ticks of the clean-up, and teardowns that find no request
    outstanding.  Then, for every key, the log of the key is serial: a
    command is handed to the runner only when the promise of every earlier
    command of the key has been settled and it is the oldest one waiting,
    so commands start in the order submitted and results are delivered in
    that order.  A submission for one key leaves the log of every other key
    as it is, and two sessions can each have a command in the hands of the
    runner at the same time.  The promise of a command is settled when its
    child has ended or when its time-out, a delay from 1 to 2147483647 that
    [setTimeout] keeps, has fired, and by nothing else: so
    the remote executions of two commands of a key do not overlap unless
    the earlier one timed out, whose child can still be alive when the
    next one starts. *)
Theorem pool_fifo_exclusive (inputs : list Input) :
  disciplined initial inputs = true ->
  (forall key, exists l,
      serial key (log (run initial inputs)) = Some l
      /\ queuedOf key (log (run initial inputs))
         = done l ++ option_list (running l) ++ pending l
      /\ startedOf key (log (run initial inputs))
         = done l ++ option_list (running l)
      /\ settledOf key (log (run initial inputs)) = done l)
  /\ (forall c command timeoutMs now key,
        key <> keyOf c ->
        serial key (log (run initial (inputs ++ [Submit c command timeoutMs now])))
        = serial key (log (run initial inputs)))
  /\ (exists l1 l2,
        serial (keyOf Samples.vm)
          (log (run initial [Submit Samples.vm "uptime" 30000 0;
                             Submit Samples.vm2 "uptime" 30000 1])) = Some l1
        /\ serial (keyOf Samples.vm2)
             (log (run initial [Submit Samples.vm "uptime" 30000 0;
                                Submit Samples.vm2 "uptime" 30000 1])) = Some l2
        /\ keyOf Samples.vm <> keyOf Samples.vm2
        /\ running l1 = Some 0%nat /\ running l2 = Some 1%nat)
  /\ (forall normalize command T child startTime history o,
        1 <= T <= 2147483647 ->
        Runner.settled
          (Runner.run normalize (Runner.spawned command T child startTime)
             history) = Some o ->
        RunnerReading.childEnded history = true
        \/ (o = inr (Runner.timeoutError T command)
            /\ T <= Runner.elapsed history)).
Proof.
  intros Hd.
  pose proof (run_Inv inputs initial Inv_initial Hd) as HI.
  split; [|split; [|split]];
    [| | |intros normalize command T child startTime history o HT Hset;
          destruct (RunnerFacts.Settlement_run normalize command T child
                      startTime history) as (_ & _ & _ & [_ Hnone|Hend|Hto Hdue]);
          [congruence | now left
          |right; split;
           [congruence | now rewrite (RunnerFacts.timerDelay_kept T HT) in Hdue]]].
  - intros key. destruct (inv_lane _ HI key) as (l & Hser & _).
    exists l. split; [exact Hser|]. now apply serial_shape.
  - intros c command timeoutMs now key Hne. rewrite run_snoc. cbn [step].
    destruct (submit_effect c command timeoutMs now _ HI) as (_ & evs & -> & Hall).
    unfold serial. rewrite observeAll_app.
    destruct (observeAll key (Some idle) (log (run initial inputs))) as [l|];
      [|apply observeAll_None].
    apply (observeAll_other key (keyOf c)); [exact Hall | congruence].
  - eexists. eexists. split; [vm_compute; reflexivity|].
    split; [vm_compute; reflexivity|]. split; [discriminate|].
    split; reflexivity.
Qed.

(** C1 as stated does not hold.  Two commands are submitted for one
    target.  The child of the first hangs; at its time-out of 30000 ms the
    graceful signal is sent and the promise is rejected, the child not
    having ended: the forceful signal is only due five seconds later.  In
    the turn of that rejection the queue hands the second command to the
    runner, so the second remote execution starts while the first child
    is alive. *)
Lemma timeout_overlaps_next_command :
  disciplined initial
    [Submit Samples.vm "sleep 60" 30000 0; Submit Samples.vm "uptime" 30000 1]
  = true
  /\ Runner.settled
       (Runner.run (fun m => m)
          (Runner.spawned "sleep 60" 30000 (Some 7%nat) 0)
          [Runner.Elapse 30000])
     = Some (inr (Runner.timeoutError 30000 "sleep 60"))
  /\ RunnerReading.childEnded [Runner.Elapse 30000] = false
  /\ Runner.kills
       (Runner.run (fun m => m)
          (Runner.spawned "sleep 60" 30000 (Some 7%nat) 0)
          [Runner.Elapse 30000])
     = [(30000, Runner.SIGTERM)]
  /\ Runner.killTimer
       (Runner.run (fun m => m)
          (Runner.spawned "sleep 60" 30000 (Some 7%nat) 0)
          [Runner.Elapse 30000])
     = Some 35000
  /\ log (PoolRunner.runnerReturns 0
            (Runner.run (fun m => m)
               (Runner.spawned "sleep 60" 30000 (Some 7%nat) 0)
               [Runner.Elapse 30000])
            (run initial [Submit Samples.vm "sleep 60" 30000 0;
                          Submit Samples.vm "uptime" 30000 1]))
     = [Queued (keyOf Samples.vm) 0; Started (keyOf Samples.vm) 0;
        Queued (keyOf Samples.vm) 1;
        Settled (keyOf Samples.vm) 0 false; Started (keyOf Samples.vm) 1].
Proof. vm_compute. repeat split. Qed.

(** An undisciplined teardown: the pool is cleared while a command of the
    key runs, the next submission makes a second session for the key, and
    two commands of the key run at once. *)
Example teardown_in_flight_overlaps :
  disciplined initial
    [Submit Samples.vm "uptime" 30000 0; Teardown;
     Submit Samples.vm "uptime" 30000 1] = false
  /\ serial (keyOf Samples.vm)
       (log (run initial [Submit Samples.vm "uptime" 30000 0; Teardown;
                          Submit Samples.vm "uptime" 30000 1])) = None.
Proof. vm_compute. split; reflexivity. Qed.

(** The theorem on a run with two targets: commands of one target are
    queued while another runs, some fail, the clean-up removes the idle
    sessions. *)
Lemma pool_fifo_exclusive_witness :
  disciplined initial Samples.busyDay = true
  /\ startedOf (keyOf Samples.vm) (log (run initial Samples.busyDay))
     = [0; 1; 3]%nat
  /\ settledOf (keyOf Samples.vm) (log (run initial Samples.busyDay))
     = [0; 1; 3]%nat
  /\ queuedOf (keyOf Samples.vm) (log (run initial Samples.busyDay))
     = [0; 1; 3]%nat.
Proof.
  destruct (pool_fifo_exclusive Samples.busyDay eq_refl) as (Hlanes & _).
  destruct (Hlanes (keyOf Samples.vm)) as (l & Hser & Hq & Hst & Hset).
  vm_compute in Hser. injection Hser as <-.
  split; [reflexivity|]. split; [exact Hst|]. split; [exact Hset | exact Hq].
Defined.

End PoolFacts.

(** ** More about the retry loops: success and bounds *)

Module RetryMore.
Import JsString JsStringFacts Ssh Retry RunRemote.

Section Loop.
Variables (remote : Remote) (p : Path) (connection : SshConnection).
Variables (text : string) (timeoutMs R : Z) (first : nat).

Lemma retryLoop_cons_ok (a : Z) (rest : list Z) (w : World) (r : SshCommandResult) :
  outcome (remote (calls w) connection text timeoutMs) = inl r ->
  retryLoop remote p connection text timeoutMs R (a :: rest) w
  = (inl r, snd (executeRemoteCommandPooled remote connection text timeoutMs w)).
Proof.
  intros Hok. cbn [retryLoop]. unfold tryCatch, executeRemoteCommandPooled.
  now rewrite Hok.
Qed.

Lemma retryLoop_cons_err (a : Z) (rest : list Z) (w : World) (e : JsError) :
  outcome (remote (calls w) connection text timeoutMs) = inr e ->
  retryLoop remote p connection text timeoutMs R (a :: rest) w
  = if a =? R
    then (inr e, snd (executeRemoteCommandPooled remote connection text timeoutMs w))
    else retryLoop remote p connection text timeoutMs R rest
           (snd (sleep (baseDelay p * a)
                   (snd (executeRemoteCommandPooled remote connection text
                           timeoutMs w)))).
Proof.
  intros Herr. cbn [retryLoop]. unfold tryCatch, executeRemoteCommandPooled.
  rewrite Herr. cbn [snd]. destruct (a =? R); reflexivity.
Qed.

(** The first [f] attempts fail, the next one succeeds. *)
Lemma retryLoop_succeeds_after (r : SshCommandResult) (f : nat) :
  forall (n : nat) (a : Z) (w : World),
    1 <= a -> a + Z.of_nat n = R + 1 -> (f < n)%nat ->
    calls w = (first + Z.to_nat (a - 1))%nat ->
    (forall j, (j < f)%nat ->
       exists e, outcome (remote (calls w + j)%nat connection text timeoutMs) = inr e) ->
    outcome (remote (calls w + f)%nat connection text timeoutMs) = inl r ->
    fst (retryLoop remote p connection text timeoutMs R (seqZ a (Z.of_nat n)) w)
    = inl r
    /\ calls (snd (retryLoop remote p connection text timeoutMs R
                     (seqZ a (Z.of_nat n)) w))
       = (calls w + S f)%nat
    /\ trace (snd (retryLoop remote p connection text timeoutMs R
                     (seqZ a (Z.of_nat n)) w))
       = trace w ++
         concat (failedAttempt remote connection text timeoutMs
                   (baseDelay p) R first <$> seqZ a (Z.of_nat f))
         ++ [Submitted text timeoutMs (inl r)].
Proof.
  induction f as [|f IH]; intros n a w Ha Hlen Hf Hcalls Hfail Hok.
  - destruct n as [|n]; [lia|]. rewrite seqZ_step.
    rewrite Nat.add_0_r in Hok.
    rewrite (retryLoop_cons_ok _ _ _ r Hok).
    cbn [fst snd executeRemoteCommandPooled calls trace]. rewrite Hok.
    change (seqZ a (Z.of_nat 0)) with (@nil Z). cbn.
    repeat split. lia.
  - destruct n as [|n]; [lia|]. rewrite !seqZ_step.
    destruct (Hfail 0%nat ltac:(lia)) as [e He]. rewrite Nat.add_0_r in He.
    rewrite (retryLoop_cons_err _ _ _ e He).
    assert ((a =? R) = false) as -> by (apply Z.eqb_neq; lia).
    destruct (IH n (a + 1)
                (snd (sleep (baseDelay p * a)
                        (snd (executeRemoteCommandPooled remote connection
                                text timeoutMs w)))))
      as (Hres & Hc & Htr); try lia.
    + cbn. rewrite Hcalls. replace (a + 1 - 1) with (Z.succ (a - 1)) by lia.
      rewrite Z2Nat.inj_succ by lia. lia.
    + intros j Hj. cbn [sleep executeRemoteCommandPooled snd calls].
      replace (S (calls w) + j)%nat with (calls w + S j)%nat by lia.
      apply Hfail. lia.
    + cbn [sleep executeRemoteCommandPooled snd calls].
      now replace (S (calls w) + f)%nat with (calls w + S f)%nat by lia.
    + split; [exact Hres|]. split.
      * rewrite Hc. cbn. lia.
      * rewrite Htr. cbn [sleep executeRemoteCommandPooled snd trace calls].
        rewrite fmap_cons. cbn [concat]. unfold failedAttempt at 2.
        assert ((a =? R) = false) as -> by (apply Z.eqb_neq; lia).
        rewrite <- Hcalls, He. cbn. now rewrite <- !app_assoc.
Qed.

(** Whatever the target does, the loop over the attempts [a .. R] submits
    at least once and at most once per attempt, waits once between two
    submissions, and lets an error out only when the last attempt has
    failed. *)
Lemma retryLoop_bounds (n : nat) :
  forall (a : Z) (w : World),
    a + Z.of_nat n = R + 1 -> (1 <= n)%nat ->
    (calls w < calls (snd (retryLoop remote p connection text timeoutMs R
                             (seqZ a (Z.of_nat n)) w)))%nat
    /\ (calls (snd (retryLoop remote p connection text timeoutMs R
                      (seqZ a (Z.of_nat n)) w)) <= calls w + n)%nat
    /\ (length (sleeps (trace (snd (retryLoop remote p connection text timeoutMs R
                                      (seqZ a (Z.of_nat n)) w))))
        + calls w + 1
        = length (sleeps (trace w))
          + calls (snd (retryLoop remote p connection text timeoutMs R
                          (seqZ a (Z.of_nat n)) w)))%nat
    /\ (forall e,
          fst (retryLoop remote p connection text timeoutMs R
                 (seqZ a (Z.of_nat n)) w) = inr e ->
          calls (snd (retryLoop remote p connection text timeoutMs R
                        (seqZ a (Z.of_nat n)) w)) = (calls w + n)%nat
          /\ outcome (remote (calls w + n - 1)%nat connection text timeoutMs)
             = inr e).
Proof.
  induction n as [|n IH]; intros a w Hlen Hn; [lia|].
  rewrite seqZ_step.
  destruct (outcome (remote (calls w) connection text timeoutMs)) as [r|e] eqn:Ho.
  - rewrite (retryLoop_cons_ok _ _ _ r Ho).
    cbn [fst snd executeRemoteCommandPooled calls trace].
    unfold sleeps. rewrite omap_app. cbn. rewrite app_nil_r.
    split; [lia|]. split; [lia|]. split; [lia|]. discriminate.
  - rewrite (retryLoop_cons_err _ _ _ e Ho).
    destruct (a =? R) eqn:HaR.
    + apply Z.eqb_eq in HaR. assert (n = 0%nat) as -> by lia.
      cbn [fst snd executeRemoteCommandPooled calls trace].
      unfold sleeps. rewrite omap_app. cbn. rewrite app_nil_r.
      split; [lia|]. split; [lia|]. split; [lia|].
      intros e' He'. split; [lia|].
      replace (calls w + 1 - 1)%nat with (calls w) by lia. congruence.
    + apply Z.eqb_neq in HaR.
      set (w1 := snd (sleep (baseDelay p * a)
                        (snd (executeRemoteCommandPooled remote connection
                                text timeoutMs w)))).
      assert (calls w1 = S (calls w)) as Hc1 by reflexivity.
      assert (length (sleeps (trace w1)) = S (length (sleeps (trace w)))) as Hs1.
      { subst w1. cbn [sleep executeRemoteCommandPooled snd trace].
        unfold sleeps. rewrite !omap_app, !length_app. cbn. lia. }
      destruct (IH (a + 1) w1) as (Hlt & Hle & Hsl & Herr); [lia | lia |].
      split; [lia|]. split; [lia|]. split; [lia|].
      intros e' He'. apply Herr in He'. destruct He' as [Hc He'].
      split; [lia|]. rewrite Hc1 in He'.
      now replace (calls w + S n - 1)%nat with (S (calls w) + n - 1)%nat by lia.
Qed.

End Loop.

Lemma sleeps_failed_prefix remote connection text timeoutMs base R first (f : nat) :
  forall a, a + Z.of_nat f <= R ->
    sleeps (concat (failedAttempt remote connection text timeoutMs base R first
                      <$> seqZ a (Z.of_nat f)))
    = (fun i => base * i) <$> seqZ a (Z.of_nat f).
Proof.
  induction f as [|f IH]; intros a Hle; [reflexivity|].
  rewrite seqZ_step, !fmap_cons. cbn [concat]. unfold failedAttempt at 1.
  assert ((a =? R) = false) as -> by (apply Z.eqb_neq; lia).
  cbn [app sleeps omap list_omap]. change (omap ?g ?l) with (sleeps l).
  now rewrite IH by lia.
Qed.

(** X1.  The loop stops at the first success.  When the first [f]
    submissions of a command fail and the next one succeeds, with [f] below
    [retries]: that result is returned, exactly [f + 1] submissions were
    made, the waits were [base * 1 .. base * f], and nothing is submitted
    after the success. *)
Theorem retry_stops_at_first_success (remote : Remote)
    (connection : SshConnection) (cmd : string) (options : CommandOptions)
    (w : World) (f : nat) (r : SshCommandResult) :
  let p := pathOf cmd options in
  let text := sentText p cmd in
  let run := executeRemoteCommandWithOptions remote connection cmd options w in
  Z.of_nat f < retriesOf options ->
  (forall j, (j < f)%nat ->
     exists e, outcome (remote (calls w + j)%nat connection text (timeoutOf options))
               = inr e) ->
  outcome (remote (calls w + f)%nat connection text (timeoutOf options)) = inl r ->
  fst run = inl r
  /\ calls (snd run) = (calls w + S f)%nat
  /\ trace (snd run)
     = trace w ++
       concat (failedAttempt remote connection text (timeoutOf options)
                 (baseDelay p) (retriesOf options) (calls w)
                 <$> seqZ 1 (Z.of_nat f))
       ++ [Submitted text (timeoutOf options) (inl r)]
  /\ sleeps (trace (snd run))
     = sleeps (trace w) ++ ((fun i => baseDelay p * i) <$> seqZ 1 (Z.of_nat f)).
Proof.
  intros p text run Hf Hfail Hok. subst run.
  rewrite executeRemoteCommandWithOptions_retryLoop. fold p. fold text.
  replace (seqZ 1 (retriesOf options))
    with (seqZ 1 (Z.of_nat (Z.to_nat (retriesOf options))))
    by (f_equal; lia).
  destruct (retryLoop_succeeds_after remote p connection text (timeoutOf options)
              (retriesOf options) (calls w) r f
              (Z.to_nat (retriesOf options)) 1 w)
    as (Hres & Hc & Htr); try lia; try assumption.
  split; [exact Hres|]. split; [exact Hc|]. split; [exact Htr|].
  rewrite Htr. unfold sleeps. rewrite !omap_app. cbn. rewrite app_nil_r.
  f_equal. apply sleeps_failed_prefix. lia.
Qed.

(** The theorem on a target that fails once and then answers. *)
Lemma retry_stops_at_first_success_witness :
  Z.of_nat 1 < retriesOf Samples.threeTries
  /\ fst (executeRemoteCommandWithOptions Samples.flaky Samples.vm
            "sudo systemctl stop celestia-light" Samples.threeTries Samples.world0)
     = Samples.ok "stopped"
  /\ sleeps (trace (snd (executeRemoteCommandWithOptions Samples.flaky Samples.vm
                           "sudo systemctl stop celestia-light"
                           Samples.threeTries Samples.world0)))
     = [2000].
Proof.
  destruct (retry_stops_at_first_success Samples.flaky Samples.vm
              "sudo systemctl stop celestia-light" Samples.threeTries
              Samples.world0 1 {| stdout := "stopped"; stderr := "" |})
    as (Hres & _ & _ & Hsl).
  - cbn. lia.
  - intros j Hj. assert (j = 0%nat) as -> by lia. eexists. reflexivity.
  - reflexivity.
  - split; [cbn; lia|]. split; [exact Hres | exact Hsl].
Defined.

(** X2.  The number of attempts is bounded by [retries], whatever the
    target does.  With [retries] below one nothing is submitted and the
    error of the fall-through is raised.  With [retries] at least one there
    is at least one submission and at most [retries], exactly one wait
    between two submissions, and an error reaches the caller only when all
    [retries] submissions were made, and then it is the error of the last
    one. *)
Theorem retry_attempts_bounded (remote : Remote) (connection : SshConnection)
    (cmd : string) (options : CommandOptions) (w : World) :
  let p := pathOf cmd options in
  let text := sentText p cmd in
  let R := retriesOf options in
  let run := executeRemoteCommandWithOptions remote connection cmd options w in
  (R <= 0 -> run = (inr (unexpectedEnd p), w))
  /\ (1 <= R ->
      (calls w < calls (snd run))%nat
      /\ (calls (snd run) <= calls w + Z.to_nat R)%nat
      /\ (length (sleeps (trace (snd run))) + calls w + 1
          = length (sleeps (trace w)) + calls (snd run))%nat
      /\ (forall e, fst run = inr e ->
            calls (snd run) = (calls w + Z.to_nat R)%nat
            /\ outcome (remote (calls w + Z.to_nat R - 1)%nat connection text
                          (timeoutOf options)) = inr e)).
Proof.
  intros p text R run. subst run.
  rewrite executeRemoteCommandWithOptions_retryLoop. fold p. fold text. fold R.
  split.
  - intros HR. unfold seqZ. replace (Z.to_nat R) with 0%nat by lia. reflexivity.
  - intros HR.
    replace (seqZ 1 R) with (seqZ 1 (Z.of_nat (Z.to_nat R))) by (f_equal; lia).
    apply (retryLoop_bounds remote p connection text (timeoutOf options) R
             (Z.to_nat R) 1 w); lia.
Qed.

End RetryMore.

(** ** More about the runner: exits, the promise, the signals *)

Module RunnerMore.
Import JsString Ssh Runner RunnerFacts RunnerReading.

Section Any.
Variable normalize : string -> string.

Lemma outOf_run (s : Exec) (history : list Step) :
  stdoutAcc (run normalize s history) = outOf normalize (stdoutAcc s) history
  /\ stderrAcc (run normalize s history) = errOf normalize (stderrAcc s) history.
Proof.
  revert s. induction history as [|st history IH]; intros s; [split; reflexivity|].
  rewrite run_cons. destruct (IH (step normalize s st)) as [Ho He].
  rewrite Ho, He. unfold outOf, errOf. cbn [fold_left].
  assert (stdoutAcc (step normalize s st)
          = match st with
            | Emit (StdoutData chunk) => stdoutAcc s +:+ normalize chunk
            | _ => stdoutAcc s
            end
          /\ stderrAcc (step normalize s st)
             = match st with
               | Emit (StderrData chunk) => stderrAcc s +:+ normalize chunk
               | _ => stderrAcc s
               end) as [-> ->]; [|split; reflexivity].
  destruct st as [d|ev]; cbn [step].
  - unfold elapse. cbv zeta. cbn [stdoutAcc stderrAcc].
    assert (forall t s0, stdoutAcc (onTimeout t s0) = stdoutAcc s0
                         /\ stderrAcc (onTimeout t s0) = stderrAcc s0) as Hto.
    { intros t s0. unfold onTimeout, settle, kill. cbv zeta. cbn.
      destruct (finished s0); [split; reflexivity|].
      destruct (settled s0); split; reflexivity. }
    assert (forall t s0, stdoutAcc (onForceKill t s0) = stdoutAcc s0
                         /\ stderrAcc (onForceKill t s0) = stderrAcc s0) as Hfk.
    { intros t s0. unfold onForceKill, kill. cbv zeta. cbn.
      destruct (pid s0); split; reflexivity. }
    set (s1 := match timer s with
               | Some t =>
                   if t <=? clock s + Z.of_N d
                   then onTimeout (Z.max (clock s) t) s else s
               | None => s
               end).
    assert (stdoutAcc s1 = stdoutAcc s /\ stderrAcc s1 = stderrAcc s) as [H1 H2].
    { subst s1. destruct (timer s) as [t|]; [|split; reflexivity].
      destruct (t <=? clock s + Z.of_N d); [apply Hto | split; reflexivity]. }
    destruct (killTimer s1) as [t|]; [|now rewrite H1, H2].
    destruct (t <=? clock s + Z.of_N d); [|now rewrite H1, H2].
    destruct (Hfk (Z.max (clock s1) t) s1) as [-> ->]. now rewrite H1, H2.
  - destruct ev as [chunk|chunk|code|err]; cbn [onEvent]; unfold settle; cbn;
      try (split; reflexivity);
      destruct (settled s); split; reflexivity.
Qed.

(** With both timers gone and no signal sent, nothing is ever sent. *)
Lemma cleared_step (s : Exec) (st : Step) :
  timer s = None -> killTimer s = None -> kills s = [] ->
  timer (step normalize s st) = None
  /\ killTimer (step normalize s st) = None
  /\ kills (step normalize s st) = [].
Proof.
  intros Ht Hk Hs. destruct st as [d|ev]; cbn [step].
  - unfold elapse. rewrite Ht. cbv zeta. rewrite Hk. cbn. auto.
  - destruct ev as [chunk|chunk|code|err]; cbn [onEvent]; unfold settle; cbn;
      auto; destruct (settled s); cbn; auto.
Qed.

Lemma cleared_run (history : list Step) :
  forall s, timer s = None -> killTimer s = None -> kills s = [] ->
    timer (run normalize s history) = None
    /\ killTimer (run normalize s history) = None
    /\ kills (run normalize s history) = [].
Proof.
  induction history as [|st history IH]; intros s Ht Hk Hs; [auto|].
  rewrite run_cons. destruct (cleared_step s st Ht Hk Hs) as (Ht' & Hk' & Hs').
  now apply IH.
Qed.

End Any.

Lemma elapsed_app (h1 h2 : list Step) :
  elapsed (h1 ++ h2) = elapsed h1 + elapsed h2.
Proof.
  induction h2 as [|st h2 IH] using rev_ind.
  - rewrite app_nil_r. unfold elapsed at 3. cbn. lia.
  - rewrite app_assoc, !elapsed_snoc, IH. lia.
Qed.

(** X4.  A child that ends before the time-out, a delay that [setTimeout]
    keeps, decides the result and is never signalled.  A close with code 0 fulfils the promise with the
    normalised text gathered from the normalised chunks; any other close
    rejects it with the code and the normalised error text; a process error
    rejects it with that error.  The timer is cleared, so no signal is sent
    however long the call is observed afterwards. *)
Theorem exit_before_timeout (normalize : string -> string) (command : string)
    (T : Z) (child : nat) (startTime : Z) (before : list Step)
    (ev : ProcessEvent) (after : list Step) :
  1 <= T <= 2147483647 ->
  neverExits before ->
  elapsed before < T ->
  isExit ev = true ->
  let s := run normalize (spawned command T (Some child) startTime)
             (before ++ Emit ev :: after) in
  kills s = []
  /\ timer s = None
  /\ settled s = exitOutcome normalize before ev.
Proof.
  intros HT Hnever Hlt Hexit s. subst s.
  rewrite run_app, run_cons.
  destruct (Escalating_run normalize command T child startTime HT before Hnever)
    as (_ & _ & _ & _ & _ & Hstage).
  destruct (outOf_run normalize (spawned command T (Some child) startTime) before)
    as [Hout Herr].
  cbn [spawned stdoutAcc stderrAcc] in Hout, Herr.
  set (s1 := run normalize (spawned command T (Some child) startTime) before) in *.
  destruct Hstage as [_ Ht Hk Hf Hkills Hset | Hle | Hle]; [|lia|lia].
  set (s2 := step normalize s1 (Emit ev)).
  assert (timer s2 = None /\ killTimer s2 = None /\ kills s2 = []
          /\ settled s2 = exitOutcome normalize before ev) as (Ht2 & Hk2 & Hs2 & Hset2).
  { subst s2. destruct ev as [chunk|chunk|code|err]; try discriminate;
      cbn [step onEvent]; unfold settle; cbn [settled]; rewrite Hset; cbn;
      rewrite ?Hout, ?Herr; repeat split; try assumption.
    destruct code as [[| |]|]; reflexivity. }
  destruct (cleared_run normalize after s2 Ht2 Hk2 Hs2) as (Ht3 & _ & Hs3).
  split; [exact Hs3|]. split; [exact Ht3|].
  destruct (exitOutcome normalize before ev) as [o|] eqn:Ho.
  - now apply run_settled.
  - destruct ev as [chunk|chunk|[[| |]|]|err]; discriminate.
Qed.

(** The theorem on a child that writes two chunks and exits with code 0
    after ten seconds, observed for two more minutes. *)
Lemma exit_before_timeout_witness :
  1 <= 30000 <= 2147483647
  /\ neverExits [Elapse 4000; Emit (StdoutData "ac"); Emit (StdoutData "tive");
                 Elapse 6000]
  /\ elapsed [Elapse 4000; Emit (StdoutData "ac"); Emit (StdoutData "tive");
              Elapse 6000] < 30000
  /\ kills (run (fun m => m) (spawned "systemctl is-active x" 30000 (Some 7%nat) 0)
              ([Elapse 4000; Emit (StdoutData "ac"); Emit (StdoutData "tive");
                Elapse 6000] ++ Emit (Close (Some 0)) :: [Elapse 120000])) = []
  /\ settled (run (fun m => m) (spawned "systemctl is-active x" 30000 (Some 7%nat) 0)
                ([Elapse 4000; Emit (StdoutData "ac"); Emit (StdoutData "tive");
                  Elapse 6000] ++ Emit (Close (Some 0)) :: [Elapse 120000]))
     = Some (inl {| stdout := "active"; stderr := "" |}).
Proof.
  assert (neverExits [Elapse 4000; Emit (StdoutData "ac"); Emit (StdoutData "tive");
                      Elapse 6000]) as Hnever by (repeat constructor).
  destruct (exit_before_timeout (fun m => m) "systemctl is-active x" 30000 7%nat 0
              [Elapse 4000; Emit (StdoutData "ac"); Emit (StdoutData "tive");
               Elapse 6000]
              (Close (Some 0)) [Elapse 120000]
              ltac:(lia) Hnever ltac:(vm_compute; reflexivity) eq_refl)
    as (Hk & _ & Hs).
  split; [lia|]. split; [exact Hnever|]. split; [vm_compute; reflexivity|].
  split; [exact Hk | exact Hs].
Defined.

Section Signals.
Variable normalize : string -> string.
Variables (T startTime : Z).

Lemma SignalStage_event (s : Exec) (ev : ProcessEvent) :
  SignalStage T startTime s -> SignalStage T startTime (onEvent normalize ev s).
Proof.
  intros Hst.
  assert (forall o s0, timer (settle o s0) = timer s0
                       /\ killTimer (settle o s0) = killTimer s0
                       /\ kills (settle o s0) = kills s0
                       /\ clock (settle o s0) = clock s0) as Hsettle.
  { intros o s0. unfold settle. destruct (settled s0); cbn; auto. }
  destruct ev as [chunk|chunk|code|err]; cbn [onEvent].
  - destruct Hst; [apply Armed | apply Cleared | apply TermSent
                   | apply TermOnly | apply KillSent]; assumption.
  - destruct Hst; [apply Armed | apply Cleared | apply TermSent
                   | apply TermOnly | apply KillSent]; assumption.
  - match goal with |- SignalStage _ _ (settle ?o ?s0) =>
      destruct (Hsettle o s0) as (Ht & Hk & Hs & Hc) end.
    cbn in Ht, Hk, Hs, Hc.
    destruct Hst; [apply Cleared | apply Cleared | apply TermSent
                   | apply TermOnly | apply KillSent]; congruence.
  - match goal with |- SignalStage _ _ (settle ?o ?s0) =>
      destruct (Hsettle o s0) as (Ht & Hk & Hs & Hc) end.
    cbn in Ht, Hk, Hs, Hc.
    destruct Hst; [apply Cleared | apply Cleared | apply TermSent
                   | apply TermOnly | apply KillSent]; congruence.
Qed.

Lemma onTimeout_fields (t : Z) (s : Exec) :
  timer (onTimeout t s) = None
  /\ pid (onTimeout t s) = pid s
  /\ clock (onTimeout t s) = t
  /\ (if finished s
      then killTimer (onTimeout t s) = killTimer s
           /\ kills (onTimeout t s) = kills s
      else killTimer (onTimeout t s) = Some (t + 5000)
           /\ kills (onTimeout t s) = kills s ++ [(t, SIGTERM)]).
Proof.
  unfold onTimeout. cbv zeta. cbn [finished].
  destruct (finished s); [cbn; auto|].
  unfold settle, kill. cbn [settled]. destruct (settled s); cbn; auto.
Qed.

Lemma onForceKill_fields (t : Z) (s : Exec) :
  timer (onForceKill t s) = timer s
  /\ killTimer (onForceKill t s) = None
  /\ kills (onForceKill t s)
     = match pid s with
       | Some _ => kills s ++ [(t, SIGKILL)]
       | None => kills s
       end.
Proof.
  unfold onForceKill, kill. cbv zeta. cbn [pid]. destruct (pid s); cbn; auto.
Qed.

Lemma SignalStage_elapse (s : Exec) (d : N) :
  SignalStage T startTime s -> SignalStage T startTime (elapse d s).
Proof.
  intros Hst. unfold elapse. cbv zeta.
  set (target := clock s + Z.of_N d).
  set (s1 := match timer s with
             | Some t => if t <=? target then onTimeout (Z.max (clock s) t) s else s
             | None => s
             end).
  set (s2 := match killTimer s1 with
             | Some t => if t <=? target then onForceKill (Z.max (clock s1) t) s1 else s1
             | None => s1
             end).
  (* the stage of [s2], with the bound its clock will have *)
  assert ((timer s2 = Some (startTime + T) /\ killTimer s2 = None /\ kills s2 = []
           /\ target <= startTime + T)
          \/ (timer s2 = None /\ killTimer s2 = None /\ kills s2 = [])
          \/ (timer s2 = None /\ killTimer s2 = Some (startTime + T + 5000)
              /\ kills s2 = [(startTime + T, SIGTERM)]
              /\ target < startTime + T + 5000)
          \/ (timer s2 = None /\ killTimer s2 = None
              /\ kills s2 = [(startTime + T, SIGTERM)])
          \/ (timer s2 = None /\ killTimer s2 = None
              /\ kills s2 = [(startTime + T, SIGTERM);
                             (startTime + T + 5000, SIGKILL)])) as Hcases.
  { destruct Hst as [Ht Hk Hs Hc | Ht Hk Hs | Ht Hk Hs Hc | Ht Hk Hs | Ht Hk Hs].
    - subst s2 s1. rewrite Ht. cbv iota.
      destruct (startTime + T <=? target) eqn:Hdue.
      + apply Z.leb_le in Hdue.
        replace (Z.max (clock s) (startTime + T)) with (startTime + T) by lia.
        destruct (onTimeout_fields (startTime + T) s) as (Ht1 & Hp1 & Hc1 & Hfin).
        destruct (finished s).
        * destruct Hfin as [Hk1 Hs1]. rewrite Hk1, Hk. cbv iota.
          right; left. rewrite Hs1. repeat split; try assumption; try congruence; try lia.
        * destruct Hfin as [Hk1 Hs1]. rewrite Hk1. cbv iota.
          destruct (startTime + T + 5000 <=? target) eqn:Hdue2.
          -- apply Z.leb_le in Hdue2. rewrite Hc1.
             replace (Z.max (startTime + T) (startTime + T + 5000))
               with (startTime + T + 5000) by lia.
             destruct (onForceKill_fields (startTime + T + 5000)
                         (onTimeout (startTime + T) s)) as (Ht2 & Hk2 & Hs2).
             rewrite Hp1, Hs1, Hs in Hs2. rewrite Ht1 in Ht2. cbn [app] in Hs2.
             destruct (pid s); [do 4 right | do 3 right; left]; repeat split; try assumption; try congruence; try lia.
          -- apply Z.leb_gt in Hdue2. right. right. left.
             rewrite Hs1, Hs. repeat split; try assumption; try congruence; try lia.
      + apply Z.leb_gt in Hdue. rewrite Hk. cbv iota. left. repeat split; try assumption; try congruence; try lia.
    - subst s2 s1. rewrite Ht. cbv iota. rewrite Hk. cbv iota. right; left. repeat split; try assumption; try congruence; try lia.
    - subst s2 s1. rewrite Ht. cbv iota. rewrite Hk. cbv iota.
      destruct (startTime + T + 5000 <=? target) eqn:Hdue2.
      + apply Z.leb_le in Hdue2.
        replace (Z.max (clock s) (startTime + T + 5000))
          with (startTime + T + 5000) by lia.
        destruct (onForceKill_fields (startTime + T + 5000) s) as (Ht2 & Hk2 & Hs2).
        rewrite Hs in Hs2. rewrite Ht in Ht2. cbn [app] in Hs2.
        destruct (pid s); [do 4 right | do 3 right; left]; repeat split; try assumption; try congruence; try lia.
      + apply Z.leb_gt in Hdue2. right. right; left. repeat split; try assumption; try congruence; try lia.
    - subst s2 s1. rewrite Ht. cbv iota. rewrite Hk. cbv iota. do 3 right; left. repeat split; try assumption; try congruence; try lia.
    - subst s2 s1. rewrite Ht. cbv iota. rewrite Hk. cbv iota. do 4 right. repeat split; try assumption; try congruence; try lia. }
  destruct Hcases as [(Ht & Hk & Hs & Hc)|[(Ht & Hk & Hs)|[(Ht & Hk & Hs & Hc)
                     |[(Ht & Hk & Hs)|(Ht & Hk & Hs)]]]].
  - apply Armed; cbn; assumption.
  - apply Cleared; cbn; assumption.
  - apply TermSent; cbn; assumption.
  - apply TermOnly; cbn; assumption.
  - apply KillSent; cbn; assumption.
Qed.

Lemma SignalStage_run (history : list Step) :
  forall s, SignalStage T startTime s ->
    SignalStage T startTime (run normalize s history).
Proof.
  induction history as [|st history IH]; intros s Hst; [exact Hst|].
  rewrite run_cons. apply IH. destruct st as [d|ev]; cbn [step].
  - now apply SignalStage_elapse.
  - now apply SignalStage_event.
Qed.

End Signals.

(** X5.  For a time-out [T] that [setTimeout] keeps, whatever the child
    does and however time goes by, the signals a call sends form a
    beginning of the one sequence it knows: the graceful signal at [T]
    after the spawn, then the forceful one five seconds later.  No signal is sent twice, none before its time, and the forceful
    one never without the graceful one before it. *)
Theorem signals_in_order (normalize : string -> string) (command : string)
    (T : Z) (child : option nat) (startTime : Z) (history : list Step) :
  1 <= T <= 2147483647 ->
  kills (run normalize (spawned command T child startTime) history)
  `prefix_of` [(startTime + T, SIGTERM); (startTime + T + 5000, SIGKILL)].
Proof.
  intros HT.
  assert (SignalStage T startTime (spawned command T child startTime)) as H0
    by (unfold spawned; rewrite (timerDelay_kept T HT);
        apply Armed; cbn; auto; lia).
  destruct (SignalStage_run normalize T startTime history _ H0)
    as [_ _ -> _ | _ _ -> | _ _ -> _ | _ _ -> | _ _ ->].
  - apply prefix_nil.
  - apply prefix_nil.
  - now exists [(startTime + T + 5000, SIGKILL)].
  - now exists [(startTime + T + 5000, SIGKILL)].
  - reflexivity.
Qed.

(** The theorem on a child that closes two seconds after the graceful
    signal. *)
Lemma signals_in_order_witness :
  1 <= 30000 <= 2147483647
  /\ kills (run (fun m => m) (spawned "sleep 60" 30000 (Some 7%nat) 100)
              [Elapse 30000; Elapse 2000; Emit (Close None)])
     `prefix_of` [(100 + 30000, SIGTERM); (100 + 30000 + 5000, SIGKILL)]
  /\ kills (run (fun m => m) (spawned "sleep 60" 30000 (Some 7%nat) 100)
              [Elapse 30000; Elapse 2000; Emit (Close None)])
     = [(30100, SIGTERM)].
Proof.
  split; [lia|]. split; [|reflexivity].
  apply (signals_in_order (fun m => m) "sleep 60" 30000 (Some 7%nat) 100). lia.
Defined.

Section AfterTheTerm.
Variable normalize : string -> string.
Variables (T : Z) (child : nat) (startTime : Z).

Lemma AfterTerm_step (e : Z) (s : Exec) (st : Step) :
  AfterTerm T child startTime e s ->
  AfterTerm T child startTime
    (e + match st with Elapse d => Z.of_N d | Emit _ => 0 end)
    (step normalize s st).
Proof.
  intros (Hpid & Hclock & Ht & Hcase).
  destruct st as [d|ev]; cbn [step].
  - unfold elapse, AfterTerm. cbv zeta. rewrite Ht. cbv iota.
    destruct Hcase as [(He & Hk & Hs)|(He & Hk & Hs)]; rewrite Hk; cbv iota.
    + destruct (startTime + T + 5000 <=? clock s + Z.of_N d) eqn:Hdue.
      * apply Z.leb_le in Hdue.
        replace (Z.max (clock s) (startTime + T + 5000))
          with (startTime + T + 5000) by lia.
        destruct (onForceKill_fields (startTime + T + 5000) s) as (Ht2 & Hk2 & Hs2).
        rewrite Hpid, Hs in Hs2. cbn [app] in Hs2.
        assert (pid (onForceKill (startTime + T + 5000) s) = pid s
                /\ clock (onForceKill (startTime + T + 5000) s)
                   = startTime + T + 5000) as (Hp2 & Hc2).
        { unfold onForceKill, kill. cbv zeta. cbn [pid].
          destruct (pid s); cbn; auto. }
        set (s2 := onForceKill (startTime + T + 5000) s) in *.
        cbn [pid clock timer killTimer kills].
        split; [congruence|]. split; [lia|]. split; [congruence|].
        right. split; [lia|]. split; assumption.
      * apply Z.leb_gt in Hdue. cbn [pid clock timer killTimer kills].
        split; [exact Hpid|]. split; [lia|]. split; [exact Ht|].
        left. split; [lia|]. split; assumption.
    + cbn [pid clock timer killTimer kills].
      split; [exact Hpid|]. split; [lia|]. split; [exact Ht|].
      right. split; [lia|]. split; assumption.
  - rewrite Z.add_0_r. unfold AfterTerm.
    assert (forall o s0, pid (settle o s0) = pid s0
                         /\ clock (settle o s0) = clock s0
                         /\ timer (settle o s0) = timer s0
                         /\ killTimer (settle o s0) = killTimer s0
                         /\ kills (settle o s0) = kills s0) as Hsettle.
    { intros o s0. unfold settle. destruct (settled s0); cbn; auto 6. }
    destruct ev as [chunk|chunk|code|err]; cbn [onEvent].
    + cbn. auto.
    + cbn. auto.
    + match goal with |- context [settle ?o ?s0] =>
        destruct (Hsettle o s0) as (-> & -> & -> & -> & ->) end.
      cbn. auto.
    + match goal with |- context [settle ?o ?s0] =>
        destruct (Hsettle o s0) as (-> & -> & -> & -> & ->) end.
      cbn. auto.
Qed.

Lemma AfterTerm_run (history : list Step) :
  forall e s, AfterTerm T child startTime e s ->
    AfterTerm T child startTime (e + elapsed history) (run normalize s history).
Proof.
  induction history as [|st history IH] using rev_ind; intros e s Hs.
  - unfold elapsed. cbn. now rewrite Z.add_0_r.
  - rewrite run_app, elapsed_snoc, Z.add_assoc. cbn [run fold_left].
    apply AfterTerm_step. now apply IH.
Qed.

End AfterTheTerm.

(** X6.  For a time-out [T] that [setTimeout] keeps: once the graceful
    signal has been sent, the forceful one follows at [T + 5000] after the
    spawn whatever the child does in between, a
    close or an error included: the callback only asks whether the child
    was ever spawned.  The promise keeps the time-out error. *)
Theorem kill_follows_term (normalize : string -> string) (command : string)
    (T : Z) (child : nat) (startTime : Z) (before after : list Step) :
  1 <= T <= 2147483647 ->
  neverExits before ->
  T <= elapsed before ->
  elapsed before < T + 5000 ->
  T + 5000 <= elapsed before + elapsed after ->
  let s := run normalize (spawned command T (Some child) startTime)
             (before ++ after) in
  kills s = [(startTime + T, SIGTERM); (startTime + T + 5000, SIGKILL)]
  /\ settled s = Some (inr (timeoutError T command)).
Proof.
  intros HT Hnever Hle Hlt Htotal s. subst s. rewrite run_app.
  destruct (Escalating_run normalize command T child startTime HT before Hnever)
    as (_ & Hclock & _ & _ & Hpid & Hstage).
  set (s1 := run normalize (spawned command T (Some child) startTime) before) in *.
  destruct Hstage as [Hw | _ _ Ht Hk Hf Hs Hset | Hk]; [lia | | lia].
  split; [|now apply run_settled].
  assert (AfterTerm T child startTime (elapsed before) s1) as Hafter.
  { split; [exact Hpid|]. split; [exact Hclock|]. split; [exact Ht|].
    left. auto. }
  destruct (AfterTerm_run normalize T child startTime after _ _ Hafter)
    as (_ & _ & _ & [(He & _)|(_ & _ & Hs')]); [lia | exact Hs'].
Qed.

(** The theorem on a child that closes two seconds after the graceful
    signal. *)
Lemma kill_follows_term_witness :
  1 <= 30000 <= 2147483647
  /\ neverExits [Elapse 30000; Elapse 2000]
  /\ kills (run (fun m => m) (spawned "sleep 60" 30000 (Some 7%nat) 100)
              ([Elapse 30000; Elapse 2000] ++ [Emit (Close None); Elapse 3000]))
     = [(30100, SIGTERM); (35100, SIGKILL)].
Proof.
  assert (neverExits [Elapse 30000; Elapse 2000]) as Hnever
    by (repeat constructor).
  destruct (kill_follows_term (fun m => m) "sleep 60" 30000 7%nat 100
              [Elapse 30000; Elapse 2000] [Emit (Close None); Elapse 3000]
              ltac:(lia) Hnever)
    as (Hk & _); try (vm_compute; congruence).
  split; [lia|]. split; [exact Hnever | exact Hk].
Defined.

End RunnerMore.

(** ** More on the pool: the clean-up, identities, progress *)

Module PoolMore.
Import Ssh Pool PoolReading PoolFacts.

(** *** What the queue functions leave alone *)

Lemma drainLoop_frame (ref : nat) (now : Z) (s : State) :
  connectionPool (drainLoop ref now s) = connectionPool s
  /\ poolCleanupInterval (drainLoop ref now s) = poolCleanupInterval s
  /\ nextRid (drainLoop ref now s) = nextRid s
  /\ exists evs, log (drainLoop ref now s) = log s ++ evs /\ queuedIds evs = [].
Proof.
  unfold drainLoop.
  destruct (store s !! ref) as [p|];
    [|repeat split; exists []; now rewrite app_nil_r].
  destruct (commandQueue p) as [|r rest]; cbn.
  - repeat split. exists []. now rewrite app_nil_r.
  - repeat split. eexists. split; reflexivity.
Qed.

Lemma processCommandQueue_frame (ref : nat) (now : Z) (s : State) :
  connectionPool (processCommandQueue ref now s) = connectionPool s
  /\ poolCleanupInterval (processCommandQueue ref now s) = poolCleanupInterval s
  /\ nextRid (processCommandQueue ref now s) = nextRid s
  /\ exists evs, log (processCommandQueue ref now s) = log s ++ evs
                 /\ queuedIds evs = [].
Proof.
  unfold processCommandQueue.
  destruct (store s !! ref) as [p|];
    [|repeat split; exists []; now rewrite app_nil_r].
  destruct (isActive p || (length (commandQueue p) =? 0)%nat);
    [repeat split; exists []; now rewrite app_nil_r|].
  match goal with |- context [drainLoop ref now ?s1] =>
    destruct (drainLoop_frame ref now s1) as (-> & -> & -> & evs & -> & Hq)
  end.
  cbn. repeat split. now exists evs.
Qed.

Lemma resume_frame (ref j : nat) (ok : bool) (now : Z) (s : State) :
  connectionPool (resume ref j ok now s) = connectionPool s
  /\ poolCleanupInterval (resume ref j ok now s) = poolCleanupInterval s
  /\ nextRid (resume ref j ok now s) = nextRid s
  /\ exists evs, log (resume ref j ok now s) = log s ++ evs
                 /\ queuedIds evs = [].
Proof.
  unfold resume.
  destruct (store s !! ref) as [p|];
    [|repeat split; exists []; now rewrite app_nil_r].
  destruct (drains p !! j) as [a|];
    [|repeat split; exists []; now rewrite app_nil_r].
  cbv zeta. destruct a as [r|]; [destruct ok|].
  - cbn. repeat split. eexists. split; reflexivity.
  - match goal with |- context [drainLoop ref now ?s1] =>
      destruct (drainLoop_frame ref now s1) as (-> & -> & -> & evs & -> & Hq)
    end.
    cbn. repeat split. eexists. rewrite <- app_assoc. split; [reflexivity|].
    cbn. exact Hq.
  - match goal with |- context [drainLoop ref now ?s1] =>
      destruct (drainLoop_frame ref now s1) as (-> & -> & -> & evs & -> & Hq)
    end.
    cbn. repeat split. now exists evs.
Qed.

(** What a submission does to the pool, apart from the store. *)
Lemma submit_frame (c : SshConnection) (command : string) (timeoutMs now : Z)
    (s : State) :
  let s1 := snd (getPooledConnection c now s) in
  let s' := executeRemoteCommandPooled c command timeoutMs now s in
  connectionPool s' = connectionPool s1
  /\ poolCleanupInterval s' = poolCleanupInterval s1
  /\ log s1 = log s /\ nextRid s1 = nextRid s
  /\ (store s1 !! fst (getPooledConnection c now s) = None
      -> s' = s1).
Proof.
  cbv zeta. unfold executeRemoteCommandPooled.
  assert (log (snd (getPooledConnection c now s)) = log s
          /\ nextRid (snd (getPooledConnection c now s)) = nextRid s)
    as (Hlog & Hrid).
  { unfold getPooledConnection. cbv zeta.
    destruct (connectionPool s !! keyOf c); cbn; auto. }
  destruct (getPooledConnection c now s) as [ref s1]. cbn [fst snd] in *.
  destruct (store s1 !! ref) as [p|]; [|auto 6].
  cbv zeta. destruct (isActive p).
  - cbn. repeat split; auto. discriminate.
  - match goal with |- context [processCommandQueue ref now ?s2] =>
      destruct (processCommandQueue_frame ref now s2) as (-> & -> & _)
    end.
    cbn. repeat split; auto. discriminate.
Qed.

(** *** The clean-up interval *)

Lemma getPooledConnection_armed (c : SshConnection) (now : Z) (s : State) :
  armed s -> armed (snd (getPooledConnection c now s)).
Proof.
  unfold armed, getPooledConnection. cbv zeta. intros Ha.
  destruct (connectionPool s !! keyOf c) as [ref|] eqn:Hkey; cbn; [exact Ha|].
  rewrite map_size_insert_None by exact Hkey.
  destruct (size (connectionPool s)) as [|n]; cbn in *; rewrite Ha; reflexivity.
Qed.

Lemma step_armed (s : State) (i : Input) : armed s -> armed (step s i).
Proof.
  intros Ha. destruct i as [c command timeoutMs now|ref j ok now|now|];
    cbn [step].
  - destruct (submit_frame c command timeoutMs now s) as (Hm & Hi & _).
    pose proof (getPooledConnection_armed c now s Ha) as H1.
    unfold armed in *. now rewrite Hm, Hi.
  - destruct (resume_frame ref j ok now s) as (Hm & Hi & _).
    unfold armed in *. now rewrite Hm, Hi.
  - unfold cleanupTick, armed in *.
    destruct (poolCleanupInterval s) eqn:Hp; [|now rewrite Hp].
    cbn. now destruct (size _ =? 0)%nat.
  - unfold armed. cbn. now rewrite map_size_empty.
Qed.

Lemma run_armed (inputs : list Input) :
  forall s, armed s -> armed (run s inputs).
Proof.
  induction inputs as [|i inputs IH]; intros s Ha; [exact Ha|].
  cbn. apply IH. now apply step_armed.
Qed.

Lemma armed_initial : armed initial.
Proof. unfold armed. cbn. now rewrite map_size_empty. Qed.

(** X7.  Whatever happens to the pool, teardowns in flight included, the
    clean-up interval runs exactly when the map holds at least one
    session: it is armed with the first session, and it is cleared by the
    tick that removes the last one and by the teardown. *)
Theorem cleanup_interval_runs_iff_sessions (inputs : list Input) :
  poolCleanupInterval (run initial inputs) = true
  <-> connectionPool (run initial inputs) <> ∅.
Proof.
  pose proof (run_armed inputs initial armed_initial) as Ha.
  unfold armed in Ha. rewrite Ha.
  rewrite negb_true_iff, Nat.eqb_neq. split.
  - intros Hn He. apply Hn. now rewrite He, map_size_empty.
  - intros Hne Hz. apply Hne. now apply map_size_empty_inv.
Qed.

(** *** The tick of the clean-up *)

Lemma tick_lookup (now : Z) (s : State) (key : string) (ref : nat) :
  armed s ->
  connectionPool s !! key = Some ref ->
  (connectionPool (cleanupTick now s) !! key = None
   <-> reapable (store s) now ref = true)
  /\ (reapable (store s) now ref = false
      -> connectionPool (cleanupTick now s) !! key = Some ref)
  /\ store (cleanupTick now s) = store s
  /\ log (cleanupTick now s) = log s.
Proof.
  intros Ha Hkey. unfold cleanupTick.
  assert (poolCleanupInterval s = true) as ->.
  { unfold armed in Ha. rewrite Ha. apply negb_true_iff, Nat.eqb_neq.
    intros Hz. apply map_size_empty_inv in Hz. rewrite Hz in Hkey.
    now rewrite lookup_empty in Hkey. }
  cbn. split; [|split; [|split; reflexivity]].
  - rewrite map_lookup_filter_None. cbn. split.
    + intros [Hnone|Hno]; [congruence|].
      specialize (Hno ref Hkey). now destruct (reapable (store s) now ref).
    + intros Hr. right. intros x Hx. congruence.
  - intros Hr. apply map_lookup_filter_Some. split; [exact Hkey | exact Hr].
Qed.

(** X8.  A tick of the clean-up, after any disciplined history: a session
    leaves the map exactly when it is not active and has been idle for
    more than 300000 ms; a session that has a request queued or a call
    suspended on it stays, however long ago it was used; the sessions'
    objects and the log are not touched. *)
Theorem tick_reaps_idle_only (inputs : list Input) (now : Z) (key : string)
    (ref : nat) (p : PooledConnection) :
  disciplined initial inputs = true ->
  connectionPool (run initial inputs) !! key = Some ref ->
  store (run initial inputs) !! ref = Some p ->
  let s := run initial inputs in
  let s' := step s (Tick now) in
  (connectionPool s' !! key = None
   <-> isActive p = false /\ 300000 < now - lastUsed p)
  /\ (connectionPool s' !! key = None \/ connectionPool s' !! key = Some ref)
  /\ (commandQueue p <> [] \/ drains p <> []
      -> connectionPool s' !! key = Some ref)
  /\ store s' = store s /\ log s' = log s.
Proof.
  intros Hd Hkey Hp s s'. subst s s'. cbn [step].
  pose proof (run_Inv inputs initial Inv_initial Hd) as HI.
  pose proof (run_armed inputs initial armed_initial) as Ha.
  destruct (tick_lookup now _ key ref Ha Hkey) as (Hgone & Hstay & Hst & Hlog).
  assert (reapable (store (run initial inputs)) now ref = true
          <-> isActive p = false /\ 300000 < now - lastUsed p) as Hreap.
  { unfold reapable, maxIdleTime. rewrite Hp.
    rewrite andb_true_iff, negb_true_iff, Z.ltb_lt. reflexivity. }
  split; [now rewrite Hgone|]. split; [|split; [|split; assumption]].
  - destruct (reapable (store (run initial inputs)) now ref) eqn:Hr.
    + left. now apply Hgone.
    + right. now apply Hstay.
  - intros Hbusy. apply Hstay.
    destruct (reapable (store (run initial inputs)) now ref) eqn:Hr;
      [|reflexivity].
    destruct (proj1 Hreap eq_refl) as [Hact _].
    destruct (inv_obj _ HI ref p Hp) as [(_ & Hdr & Hq)|(Ht & _)];
      [|congruence].
    destruct Hbusy; contradiction.
Qed.

(** The theorem on a session whose only command failed at time 9: the
    tick at 400000 removes it. *)
Lemma tick_reaps_idle_only_witness :
  disciplined initial
    [Submit Samples.vm "uptime" 30000 0; Resume 0 0 false 9] = true
  /\ connectionPool
       (run initial [Submit Samples.vm "uptime" 30000 0; Resume 0 0 false 9])
       !! keyOf Samples.vm = Some 0%nat
  /\ connectionPool
       (step (run initial [Submit Samples.vm "uptime" 30000 0;
                           Resume 0 0 false 9]) (Tick 400000))
       !! keyOf Samples.vm = None.
Proof.
  assert (disciplined initial
            [Submit Samples.vm "uptime" 30000 0; Resume 0 0 false 9] = true)
    as Hd by reflexivity.
  assert (connectionPool
            (run initial [Submit Samples.vm "uptime" 30000 0; Resume 0 0 false 9])
            !! keyOf Samples.vm = Some 0%nat) as Hkey by (vm_compute; reflexivity).
  assert (store
            (run initial [Submit Samples.vm "uptime" 30000 0; Resume 0 0 false 9])
            !! 0%nat
          = Some {| connection := Samples.vm; lastUsed := 9; isActive := false;
                    commandQueue := []; drains := [] |}) as Hp
    by (vm_compute; reflexivity).
  split; [exact Hd|]. split; [exact Hkey|].
  destruct (tick_reaps_idle_only _ 400000 _ 0%nat _ Hd Hkey Hp) as (Hgone & _).
  apply Hgone. cbn. split; [reflexivity | lia].
Defined.

(** *** The identities of the requests *)

Lemma submit_log (c : SshConnection) (command : string) (timeoutMs now : Z)
    (s : State) :
  let s' := executeRemoteCommandPooled c command timeoutMs now s in
  exists evs,
    log s' = log s ++ evs
    /\ ((queuedIds evs = [] /\ nextRid s' = nextRid s)
        \/ (queuedIds evs = [nextRid s] /\ nextRid s' = S (nextRid s))).
Proof.
  cbv zeta. unfold executeRemoteCommandPooled.
  assert (log (snd (getPooledConnection c now s)) = log s
          /\ nextRid (snd (getPooledConnection c now s)) = nextRid s)
    as (Hlog & Hrid).
  { unfold getPooledConnection. cbv zeta.
    destruct (connectionPool s !! keyOf c); cbn; auto. }
  destruct (getPooledConnection c now s) as [ref s1]. cbn [fst snd] in *.
  destruct (store s1 !! ref) as [p|].
  - cbv zeta. destruct (isActive p).
    + cbn. rewrite Hlog, Hrid. eexists. split; [reflexivity|]. right. auto.
    + match goal with |- context [processCommandQueue ref now ?s2] =>
        destruct (processCommandQueue_frame ref now s2)
          as (_ & _ & -> & evs & -> & Hq)
      end.
      cbn. rewrite Hlog, Hrid, <- app_assoc. eexists. split; [reflexivity|].
      right. unfold queuedIds in *. cbn. rewrite Hq. auto.
  - exists []. rewrite app_nil_r. auto.
Qed.

Lemma step_log (s : State) (i : Input) :
  exists evs,
    log (step s i) = log s ++ evs
    /\ ((queuedIds evs = [] /\ nextRid (step s i) = nextRid s)
        \/ (queuedIds evs = [nextRid s] /\ nextRid (step s i) = S (nextRid s))).
Proof.
  destruct i as [c command timeoutMs now|ref j ok now|now|]; cbn [step].
  - apply submit_log.
  - destruct (resume_frame ref j ok now s) as (_ & _ & Hr & evs & Hl & Hq).
    exists evs. auto.
  - exists []. rewrite app_nil_r. unfold cleanupTick.
    destruct (poolCleanupInterval s); auto.
  - exists []. rewrite app_nil_r. auto.
Qed.

Lemma run_fresh (inputs : list Input) :
  forall s,
    NoDup (queuedIds (log s)) ->
    Forall (fun r => (r < nextRid s)%nat) (queuedIds (log s)) ->
    NoDup (queuedIds (log (run s inputs)))
    /\ Forall (fun r => (r < nextRid (run s inputs))%nat)
         (queuedIds (log (run s inputs))).
Proof.
  induction inputs as [|i inputs IH]; intros s Hnd Hlt; [auto|].
  cbn. apply IH; destruct (step_log s i) as (evs & -> & Hcase);
    unfold queuedIds in *; rewrite omap_app;
    destruct Hcase as [(Hq & Hn)|(Hq & Hn)]; rewrite Hq, ?Hn, ?app_nil_r; auto.
  - apply NoDup_app. split; [exact Hnd|]. split; [|apply NoDup_singleton].
    intros r Hr Hin. apply list_elem_of_singleton in Hin. subst r.
    rewrite Forall_forall in Hlt. apply Hlt in Hr. lia.
  - apply Forall_app. split; [|repeat constructor].
    eapply Forall_impl; [exact Hlt|]. cbn. intros. lia.
Qed.

Lemma queuedOf_sublist (key : string) (evs : list Ev) :
  queuedOf key evs `sublist_of` queuedIds evs.
Proof.
  induction evs as [|ev evs IH]; [constructor|].
  unfold queuedOf, queuedIds in *.
  destruct ev as [k r|k r|k r ok]; cbn; try exact IH.
  destruct (String.eqb k key); [now constructor | now apply sublist_cons].
Qed.

(** X9.  After any disciplined history, every request has an identity of
    its own, and for each key the requests settled are the first of the
    requests started, which are the first of the requests queued: no
    request is started twice or settled twice, none is settled that was
    not started, none is started that was not queued. *)
Theorem requests_settled_at_most_once (inputs : list Input) (key : string) :
  disciplined initial inputs = true ->
  let evs := log (run initial inputs) in
  NoDup (queuedIds evs)
  /\ settledOf key evs `prefix_of` startedOf key evs
  /\ startedOf key evs `prefix_of` queuedOf key evs
  /\ NoDup (startedOf key evs)
  /\ NoDup (settledOf key evs).
Proof.
  intros Hd evs. subst evs.
  pose proof (run_Inv inputs initial Inv_initial Hd) as HI.
  destruct (run_fresh inputs initial) as (Hnd & _); [constructor..|].
  destruct (inv_lane _ HI key) as (l & Hser & _).
  destruct (serial_shape key _ l Hser) as (Hq & Hs & Hdone).
  assert (NoDup (queuedOf key (log (run initial inputs)))) as Hndq
    by (eapply sublist_NoDup; [exact Hnd | apply queuedOf_sublist]).
  split; [exact Hnd|].
  rewrite Hq, Hs, Hdone in *.
  split; [now eexists|]. split; [rewrite app_assoc; now eexists|].
  rewrite app_assoc in Hndq. apply NoDup_app in Hndq as (Hst & _).
  split; [exact Hst|]. now apply NoDup_app in Hst as (? & _).
Qed.

(** The theorem on the run with two targets. *)
Lemma requests_settled_at_most_once_witness :
  disciplined initial Samples.busyDay = true
  /\ NoDup (settledOf (keyOf Samples.vm) (log (run initial Samples.busyDay))).
Proof.
  split; [reflexivity|].
  apply (requests_settled_at_most_once Samples.busyDay (keyOf Samples.vm) eq_refl).
Defined.

(** *** Progress of a queue *)

Lemma resumes_S (ref : nat) (oks : nat -> bool) (at_ : nat -> Z) (n : nat) :
  resumes ref oks at_ (S n)
  = Resume ref 0 (oks 0%nat) (at_ 0%nat)
    :: resumes ref (fun i => oks (S i)) (fun i => at_ (S i)) n.
Proof.
  unfold resumes. cbn [seq]. rewrite fmap_cons. f_equal.
  rewrite <- fmap_S_seq, <- list_fmap_compose. reflexivity.
Qed.

Lemma resume_progress (s : State) (ref : nat) (p : PooledConnection)
    (a : Await) (ok : bool) (now : Z) :
  store s !! ref = Some p -> drains p = [a] ->
  exists p', store (resume ref 0 ok now s) !! ref = Some p'
             /\ (weight p' < weight p)%nat.
Proof.
  intros Hp Hdr. unfold resume. rewrite Hp, Hdr. cbn [lookup list_lookup].
  cbv zeta. cbn [delete list_delete].
  set (p1 := setDrains [] p).
  assert (forall s1 evs, updates s s1 ref p1 evs ->
            exists p', store (drainLoop ref now s1) !! ref = Some p'
                       /\ (weight p' <= 2 * length (commandQueue p))%nat)
    as Hloop.
  { intros s1 evs Hu1.
    destruct (drainLoop_updates s1 ref p1 now)
      as (p' & evs' & (Hp' & _) & _ & Hcase); [apply Hu1|].
    exists p'. split; [exact Hp'|]. unfold weight.
    destruct Hcase as [(_ & _ & _ & -> & ->)|(r & rest & Hq & _ & _ & -> & ->)];
      cbn in *; [lia|]. rewrite Hq. cbn. lia. }
  destruct a as [r|]; [destruct ok|].
  - eexists. split.
    + cbn. apply list_lookup_insert_eq. eauto using lookup_lt_Some.
    + unfold weight. rewrite Hdr. cbn. lia.
  - destruct (Hloop _ _ (updates_insert s ref p p1
                           [Settled (keyOf (connection p)) (rid r) false] Hp))
      as (p' & Hp' & Hw).
    exists p'. split; [exact Hp'|]. unfold weight at 2. rewrite Hdr. lia.
  - destruct (Hloop _ _ (updates_insert_quiet s ref p p1 Hp))
      as (p' & Hp' & Hw).
    exists p'. split; [exact Hp'|]. unfold weight at 2. rewrite Hdr. lia.
Qed.

Lemma drain_to_rest (N : nat) :
  forall (s : State) (ref : nat) (p : PooledConnection)
         (oks : nat -> bool) (at_ : nat -> Z),
    Inv s -> store s !! ref = Some p -> (weight p <= N)%nat ->
    exists n, (n <= N)%nat
      /\ Inv (run s (resumes ref oks at_ n))
      /\ connectionPool (run s (resumes ref oks at_ n)) = connectionPool s
      /\ (exists evs, log (run s (resumes ref oks at_ n)) = log s ++ evs
                      /\ queuedIds evs = [])
      /\ exists p', store (run s (resumes ref oks at_ n)) !! ref = Some p'
                    /\ isActive p' = false /\ drains p' = []
                    /\ commandQueue p' = [].
Proof.
  induction N as [|N IH]; intros s ref p oks at_ HI Hp Hw.
  - exists 0%nat. split; [lia|]. cbn. split; [exact HI|].
    split; [reflexivity|]. split; [exists []; now rewrite app_nil_r|].
    exists p. split; [exact Hp|].
    destruct (inv_obj s HI ref p Hp) as [Hrest|(_ & a & Ha)]; [exact Hrest|].
    unfold weight in Hw. rewrite Ha in Hw. destruct a; lia.
  - destruct (inv_obj s HI ref p Hp) as [Hrest|(_ & a & Ha)].
    + exists 0%nat. split; [lia|]. cbn. split; [exact HI|].
      split; [reflexivity|]. split; [exists []; now rewrite app_nil_r|].
      exists p. auto.
    + destruct (resume_progress s ref p a (oks 0%nat) (at_ 0%nat) Hp Ha)
        as (p1 & Hp1 & Hlt).
      destruct (resume_frame ref 0 (oks 0%nat) (at_ 0%nat) s)
        as (Hm & _ & _ & evs1 & Hl1 & Hq1).
      destruct (IH (resume ref 0 (oks 0%nat) (at_ 0%nat) s) ref p1
                  (fun i => oks (S i)) (fun i => at_ (S i)))
        as (n & Hn & HI' & Hm' & (evs2 & Hl2 & Hq2) & Hrest);
        [now apply resume_Inv | exact Hp1 | lia |].
      exists (S n). rewrite resumes_S.
      change (run s (?i :: ?l)) with (run (step s i) l). cbn [step].
      split; [lia|]. split; [exact HI'|]. split; [congruence|].
      split; [|exact Hrest].
      exists (evs1 ++ evs2). rewrite Hl2, Hl1, app_assoc. split; [reflexivity|].
      unfold queuedIds in *. now rewrite omap_app, Hq1, Hq2.
Qed.

Lemma queuedOf_quiet (key : string) (evs : list Ev) :
  queuedIds evs = [] -> queuedOf key evs = [].
Proof.
  intros Hq. apply sublist_nil_r. rewrite <- Hq. apply queuedOf_sublist.
Qed.

(** X10.  After any disciplined history, a queue drains if its runners
    return: for a key that has a session, whatever the outcomes of the
    commands, a number of turns of the session's suspended call, at most
    two for each request outstanding and one more, settles every request
    queued for the key and leaves the session inactive. *)
Theorem queue_drains (inputs : list Input) (key : string) (ref : nat)
    (oks : nat -> bool) (at_ : nat -> Z) :
  disciplined initial inputs = true ->
  connectionPool (run initial inputs) !! key = Some ref ->
  exists n,
    (n <= 2 * (length (queuedOf key (log (run initial inputs)))
               - length (settledOf key (log (run initial inputs)))) + 1)%nat
    /\ settledOf key (log (run initial (inputs ++ resumes ref oks at_ n)))
       = queuedOf key (log (run initial inputs))
    /\ queuedOf key (log (run initial (inputs ++ resumes ref oks at_ n)))
       = queuedOf key (log (run initial inputs))
    /\ exists p, liveObject (run initial (inputs ++ resumes ref oks at_ n)) key
                 = Some p
                 /\ isActive p = false /\ commandQueue p = [].
Proof.
  intros Hd Hkey.
  pose proof (run_Inv inputs initial Inv_initial Hd) as HI.
  set (s := run initial inputs) in *.
  destruct (inv_map s HI key ref Hkey) as (p & Hp & _).
  destruct (inv_lane s HI key) as (l & Hser & Hmatch).
  destruct (serial_shape key _ l Hser) as (Hq & _ & Hdone).
  unfold liveObject in Hmatch. rewrite Hkey in Hmatch. cbn in Hmatch.
  rewrite Hp in Hmatch. destruct Hmatch as [Hrun Hpend].
  destruct (drain_to_rest (weight p) s ref p oks at_ HI Hp (le_n _))
    as (n & Hn & HI' & Hm' & (evs & Hl' & Hq') & p' & Hp' & Hact & Hdr & Hcq).
  exists n.
  assert (run initial (inputs ++ resumes ref oks at_ n)
          = run s (resumes ref oks at_ n)) as ->
    by (unfold run; now rewrite fold_left_app).
  set (s' := run s (resumes ref oks at_ n)) in *.
  assert (queuedOf key (log s') = queuedOf key (log s)) as Hsame.
  { rewrite Hl'. unfold queuedOf. rewrite omap_app.
    fold (queuedOf key (log s)) (queuedOf key evs).
    now rewrite (queuedOf_quiet key evs Hq'), app_nil_r. }
  split; [|split; [|split; [exact Hsame|]]].
  - rewrite Hq, Hdone, !length_app.
    assert (weight p <= 2 * (length (option_list (running l))
                             + length (pending l)) + 1)%nat; [|lia].
    unfold weight. rewrite Hrun, Hpend, length_fmap.
    destruct (inv_obj s HI ref p Hp) as [(_ & -> & _)|(_ & a & ->)];
      [cbn; lia|].
    destruct a; cbn; lia.
  - destruct (inv_lane s' HI' key) as (l' & Hser' & Hmatch').
    destruct (serial_shape key _ l' Hser') as (Hq2 & _ & Hdone').
    unfold liveObject in Hmatch'. rewrite Hm', Hkey in Hmatch'.
    cbn in Hmatch'. rewrite Hp' in Hmatch'. destruct Hmatch' as [Hrun' Hpend'].
    rewrite Hdr in Hrun'. rewrite Hcq in Hpend'. cbn in Hrun', Hpend'.
    rewrite Hrun', Hpend' in Hq2. cbn in Hq2. rewrite app_nil_r in Hq2.
    rewrite Hdone', <- Hq2. exact Hsame.
  - exists p'. unfold liveObject. rewrite Hm', Hkey. cbn. auto.
Qed.

(** The theorem on a session with one command in the hands of the runner
    and one queued, the commands succeeding. *)
Lemma queue_drains_witness :
  disciplined initial
    [Submit Samples.vm "a" 30000 0; Submit Samples.vm "b" 30000 1] = true
  /\ connectionPool
       (run initial [Submit Samples.vm "a" 30000 0; Submit Samples.vm "b" 30000 1])
       !! keyOf Samples.vm = Some 0%nat
  /\ exists n,
       (n <= 5)%nat
       /\ settledOf (keyOf Samples.vm)
            (log (run initial
                    ([Submit Samples.vm "a" 30000 0;
                      Submit Samples.vm "b" 30000 1]
                     ++ resumes 0 (fun _ => true) (fun i => 2 + Z.of_nat i) n)))
          = [0; 1]%nat.
Proof.
  assert (disciplined initial
            [Submit Samples.vm "a" 30000 0; Submit Samples.vm "b" 30000 1] = true)
    as Hd by reflexivity.
  assert (connectionPool
            (run initial [Submit Samples.vm "a" 30000 0;
                          Submit Samples.vm "b" 30000 1])
            !! keyOf Samples.vm = Some 0%nat) as Hkey by (vm_compute; reflexivity).
  split; [exact Hd|]. split; [exact Hkey|].
  destruct (queue_drains _ (keyOf Samples.vm) 0%nat (fun _ => true)
              (fun i => 2 + Z.of_nat i) Hd Hkey) as (n & Hn & Hset & _).
  exists n. split; [exact Hn | exact Hset].
Defined.

(** *** Sessions are found by user and host *)

Lemma drainLoop_object (ref : nat) (now : Z) (s : State)
    (p : PooledConnection) :
  store s !! ref = Some p ->
  exists p', store (drainLoop ref now s) !! ref = Some p'
             /\ connection p' = connection p
             /\ (commandQueue p <> [] -> lastUsed p' = lastUsed p)
             /\ length (store (drainLoop ref now s)) = length (store s).
Proof.
  intros Hp. pose proof (lookup_lt_Some _ _ _ Hp) as Hlt.
  unfold drainLoop. rewrite Hp.
  destruct (commandQueue p) as [|r rest]; cbn; rewrite length_insert;
    (eexists; split; [now apply list_lookup_insert_eq|]); cbn; auto.
  split; [reflexivity|]. split; [congruence | reflexivity].
Qed.

Lemma processCommandQueue_object (ref : nat) (now : Z) (s : State)
    (p : PooledConnection) :
  store s !! ref = Some p -> commandQueue p <> [] ->
  exists p', store (processCommandQueue ref now s) !! ref = Some p'
             /\ connection p' = connection p
             /\ lastUsed p' = lastUsed p
             /\ length (store (processCommandQueue ref now s))
                = length (store s).
Proof.
  intros Hp Hq. pose proof (lookup_lt_Some _ _ _ Hp) as Hlt.
  unfold processCommandQueue. rewrite Hp.
  destruct (isActive p || (length (commandQueue p) =? 0)%nat);
    [exists p; auto|].
  destruct (drainLoop_object ref now
              (withStore (<[ref := setActive true p]> (store s)) s)
              (setActive true p))
    as (p' & Hp' & Hc & Hl & Hlen);
    [cbn; now apply list_lookup_insert_eq|].
  exists p'. split; [exact Hp'|]. split; [exact Hc|].
  split; [now apply Hl|]. rewrite Hlen. cbn. apply length_insert.
Qed.

(** X11.  A submission for a target whose key, user and host, has a
    session in the map makes no session: the map and the number of
    objects stay, the session keeps the connection it was made with, key
    file included, whatever connection the caller passed, and its time of
    last use becomes the time of the submission. *)
Theorem submission_reuses_session (s : State) (c : SshConnection)
    (command : string) (timeoutMs now : Z) (ref : nat) (p : PooledConnection) :
  connectionPool s !! keyOf c = Some ref ->
  store s !! ref = Some p ->
  let s' := step s (Submit c command timeoutMs now) in
  connectionPool s' = connectionPool s
  /\ length (store s') = length (store s)
  /\ exists p', store s' !! ref = Some p'
                /\ connection p' = connection p
                /\ lastUsed p' = now.
Proof.
  intros Hkey Hp s'. subst s'. cbn [step].
  pose proof (lookup_lt_Some _ _ _ Hp) as Hlt.
  assert (getPooledConnection c now s
          = (ref, withStore (alter (touch now) ref (store s)) s)) as Hg.
  { unfold getPooledConnection. cbv zeta. rewrite Hkey. cbv iota.
    now rewrite Hkey. }
  destruct (submit_frame c command timeoutMs now s) as (Hm & _).
  rewrite Hg in Hm. cbn [snd] in Hm. split; [exact Hm|].
  unfold executeRemoteCommandPooled. rewrite Hg.
  set (s1 := withStore (alter (touch now) ref (store s)) s).
  assert (store s1 !! ref = Some (touch now p)) as Hs1
    by (cbn; now rewrite list_lookup_alter_eq, Hp).
  assert (length (store s1) = length (store s)) as Hlen1
    by (cbn; apply length_alter).
  rewrite Hs1. cbv zeta.
  set (pq := setQueue _ (touch now p)).
  destruct (isActive (touch now p)).
  - cbn [store]. rewrite length_insert. split; [exact Hlen1|].
    exists pq. split; [apply list_lookup_insert_eq; congruence|]. auto.
  - match goal with |- context [processCommandQueue ref now ?s2] =>
      destruct (processCommandQueue_object ref now s2 pq)
        as (p' & Hp' & Hc & Hl & Hlen)
    end.
    + cbn [store]. apply list_lookup_insert_eq. congruence.
    + subst pq. cbn. now destruct (commandQueue p).
    + rewrite Hlen. cbn [store]. rewrite length_insert.
      split; [exact Hlen1|]. exists p'. split; [exact Hp'|].
      rewrite Hc, Hl. auto.
Qed.

(** The theorem on a second caller that names another key file for the
    same user and host. *)
Lemma submission_reuses_session_witness :
  connectionPool (run initial [Submit Samples.vm "a" 30000 0])
    !! keyOf {| sshKey := "~/.ssh/other.pem"; remoteUser := remoteUser Samples.vm;
                remoteHost := remoteHost Samples.vm |} = Some 0%nat
  /\ length (store (step (run initial [Submit Samples.vm "a" 30000 0])
                      (Submit {| sshKey := "~/.ssh/other.pem";
                                 remoteUser := remoteUser Samples.vm;
                                 remoteHost := remoteHost Samples.vm |}
                         "b" 30000 1))) = 1%nat.
Proof.
  assert (connectionPool (run initial [Submit Samples.vm "a" 30000 0])
            !! keyOf {| sshKey := "~/.ssh/other.pem";
                        remoteUser := remoteUser Samples.vm;
                        remoteHost := remoteHost Samples.vm |} = Some 0%nat)
    as Hkey by (vm_compute; reflexivity).
  split; [exact Hkey|].
  destruct (store (run initial [Submit Samples.vm "a" 30000 0]) !! 0%nat)
    as [p|] eqn:Hp; [|vm_compute in Hp; discriminate].
  destruct (submission_reuses_session _ _ "b" 30000 1 0%nat p Hkey Hp)
    as (_ & Hlen & _).
  rewrite Hlen. reflexivity.
Defined.

(** *** The pause between two commands *)

Lemma drainLoop_log (ref : nat) (now : Z) (s : State) (p : PooledConnection) :
  store s !! ref = Some p ->
  log (drainLoop ref now s)
  = log s ++ match commandQueue p with
             | q :: _ => [Started (keyOf (connection p)) (rid q)]
             | [] => []
             end.
Proof.
  intros Hp. unfold drainLoop. rewrite Hp.
  destruct (commandQueue p); cbn; [now rewrite app_nil_r | reflexivity].
Qed.

Lemma resume_runner_log (s : State) (ref : nat) (p : PooledConnection)
    (rq : Request) (ok : bool) (now : Z) :
  store s !! ref = Some p -> drains p = [AwaitRunner rq] ->
  log (resume ref 0 ok now s)
  = log s ++ Settled (keyOf (connection p)) (rid rq) ok
             :: (if ok then []
                 else match commandQueue p with
                      | q :: _ => [Started (keyOf (connection p)) (rid q)]
                      | [] => []
                      end)
  /\ (ok = true ->
      store (resume ref 0 ok now s) !! ref = Some (setDrains [AwaitDelay] p)).
Proof.
  intros Hp Hdr. pose proof (lookup_lt_Some _ _ _ Hp) as Hlt.
  unfold resume. rewrite Hp, Hdr. cbn [lookup list_lookup]. cbv zeta.
  cbn [delete list_delete]. destruct ok.
  - cbn [log withLog store withStore]. split; [reflexivity|]. intros _.
    now apply list_lookup_insert_eq.
  - split; [|discriminate].
    erewrite drainLoop_log
      by (cbn [store withLog withStore]; now apply list_lookup_insert_eq).
    cbn [log withLog withStore commandQueue setDrains connection].
    now rewrite <- app_assoc.
Qed.

Lemma resume_delay_log (s : State) (ref : nat) (p : PooledConnection)
    (ok : bool) (now : Z) :
  store s !! ref = Some p -> drains p = [AwaitDelay] ->
  log (resume ref 0 ok now s)
  = log s ++ match commandQueue p with
             | q :: _ => [Started (keyOf (connection p)) (rid q)]
             | [] => []
             end.
Proof.
  intros Hp Hdr. pose proof (lookup_lt_Some _ _ _ Hp) as Hlt.
  unfold resume. rewrite Hp, Hdr. cbn [lookup list_lookup]. cbv zeta.
  cbn [delete list_delete].
  erewrite drainLoop_log
    by (cbn [store withLog withStore]; now apply list_lookup_insert_eq).
  reflexivity.
Qed.

(** X22.  The pause of 100 ms is kept only after a command that
    succeeded.  After any disciplined history, when a command of a key is
    in the hands of the runner and another one waits: if the runner
    fails, the turn that rejects the first command also starts the
    second; if it succeeds, the turn resolves the first command and
    starts nothing, and the second starts in the turn that ends the
    pause. *)
Theorem pause_only_after_success (inputs : list Input) (key : string)
    (ref : nat) (l : Lane) (r r' : nat) (rest : list nat) (now now' : Z)
    (ok : bool) :
  disciplined initial inputs = true ->
  connectionPool (run initial inputs) !! key = Some ref ->
  serial key (log (run initial inputs)) = Some l ->
  running l = Some r ->
  pending l = r' :: rest ->
  let s := run initial inputs in
  log (step s (Resume ref 0 false now))
  = log s ++ [Settled key r false; Started key r']
  /\ log (step s (Resume ref 0 true now)) = log s ++ [Settled key r true]
  /\ log (step (step s (Resume ref 0 true now)) (Resume ref 0 ok now'))
     = log s ++ [Settled key r true; Started key r'].
Proof.
  intros Hd Hkey Hser Hrun Hpend s. subst s. cbn [step].
  pose proof (run_Inv inputs initial Inv_initial Hd) as HI.
  set (s := run initial inputs) in *.
  destruct (inv_map s HI key ref Hkey) as (p & Hp & Hpk).
  destruct (inv_lane s HI key) as (l0 & Hser0 & Hmatch).
  assert (l0 = l) as -> by congruence.
  unfold liveObject in Hmatch. rewrite Hkey in Hmatch. cbn in Hmatch.
  rewrite Hp in Hmatch. destruct Hmatch as [Hr Hq].
  rewrite Hrun in Hr. rewrite Hpend in Hq.
  assert (exists rq, drains p = [AwaitRunner rq] /\ rid rq = r)
    as (rq & Hdr & Hrid).
  { destruct (drains p) as [|[rq|] [|? ?]]; try discriminate.
    injection Hr as ->. eauto. }
  destruct (commandQueue p) as [|q qs] eqn:Hcq; [discriminate|].
  injection Hq as Hq' _.
  destruct (resume_runner_log s ref p rq false now Hp Hdr) as (Hlf & _).
  destruct (resume_runner_log s ref p rq true now Hp Hdr) as (Hlt & Hst).
  rewrite Hcq, Hpk, Hrid, <- Hq' in Hlf. rewrite Hpk, Hrid in Hlt.
  split; [exact Hlf|]. split; [exact Hlt|].
  rewrite (resume_delay_log _ ref (setDrains [AwaitDelay] p) ok now'
             (Hst eq_refl) eq_refl).
  rewrite Hlt. cbn [commandQueue setDrains connection].
  rewrite Hcq, Hpk, <- Hq', <- app_assoc. reflexivity.
Qed.

(** The theorem on a session with one command in the hands of the runner
    and one queued. *)
Lemma pause_only_after_success_witness :
  disciplined initial
    [Submit Samples.vm "a" 30000 0; Submit Samples.vm "b" 30000 1] = true
  /\ log (step (run initial [Submit Samples.vm "a" 30000 0;
                             Submit Samples.vm "b" 30000 1])
            (Resume 0 0 false 2))
     = log (run initial [Submit Samples.vm "a" 30000 0;
                         Submit Samples.vm "b" 30000 1])
       ++ [Settled (keyOf Samples.vm) 0 false; Started (keyOf Samples.vm) 1].
Proof.
  split; [reflexivity|].
  eapply (pause_only_after_success
            [Submit Samples.vm "a" 30000 0; Submit Samples.vm "b" 30000 1]
            (keyOf Samples.vm) 0%nat
            {| done := []; running := Some 0%nat; pending := [1%nat] |}
            0%nat 1%nat [] 2 3 true);
    vm_compute; reflexivity.
Defined.

End PoolMore.

(** ** More on the lifecycle procedures *)

Module StopMore.
Import JsString JsStringFacts Ssh Retry RunRemote Lifecycle LifecycleReading Stop.

Section WithTarget.
Variables (remote : Remote) (connection : SshConnection).

Lemma poll_once (w : World) :
  runRemote remote connection pgrepOrNoneCmd pollOptions w
  = executeRemoteCommandPooled remote connection pgrepOrNoneCmd 10000 w.
Proof. now rewrite runRemote_once by reflexivity. Qed.

Lemma pollUntilStopped_shape (startTime : Z) :
  forall (fuel : nat) (w w' : World) (o : Outcome unit),
    pollUntilStopped remote fuel connection startTime w = Some (o, w') ->
    o = inl tt
    /\ exists replies,
        trace w' = trace w ++ concat (pollRound <$> replies)
        /\ calls w' = (calls w + length replies)%nat
        /\ (replies = [] -> 30000 <= now w - startTime /\ w' = w)
        /\ (replies <> [] ->
            3000 * (Z.of_nat (length replies) - 1) < startTime + 30000 - now w)
        /\ (forall i res, replies !! i = Some res ->
              res = outcome (remote (calls w + i)%nat connection
                               pgrepOrNoneCmd 10000))
        /\ (forall i res, replies !! i = Some res ->
              (S i < length replies)%nat -> listsProcesses res = true)
        /\ (forall res, last replies = Some res -> listsProcesses res = true ->
              30000 <= now w' - startTime).
Proof.
  induction fuel as [|fuel IH]; intros w w' o Hrun; [discriminate|].
  cbn [pollUntilStopped] in Hrun.
  destruct (now w - startTime <? 30000) eqn:Hlt.
  - apply Z.ltb_lt in Hlt. rewrite poll_once in Hrun.
    unfold executeRemoteCommandPooled in Hrun.
    set (res := outcome (remote (calls w) connection pgrepOrNoneCmd 10000)) in *.
    set (w1 := {| now := now w + Z.of_N (took (remote (calls w) connection
                                                 pgrepOrNoneCmd 10000));
                  calls := S (calls w);
                  trace := trace w ++ [Submitted pgrepOrNoneCmd 10000 res] |}) in *.
    assert (listsProcesses res = false ->
            Some (inl tt, w1) = Some (o, w') ->
            o = inl tt
            /\ exists replies,
                trace w' = trace w ++ concat (pollRound <$> replies)
                /\ calls w' = (calls w + length replies)%nat
                /\ (replies = [] -> 30000 <= now w - startTime /\ w' = w)
                /\ (replies <> [] ->
                    3000 * (Z.of_nat (length replies) - 1)
                    < startTime + 30000 - now w)
                /\ (forall i res0, replies !! i = Some res0 ->
                      res0 = outcome (remote (calls w + i)%nat connection
                                        pgrepOrNoneCmd 10000))
                /\ (forall i res0, replies !! i = Some res0 ->
                      (S i < length replies)%nat -> listsProcesses res0 = true)
                /\ (forall res0, last replies = Some res0 ->
                      listsProcesses res0 = true ->
                      30000 <= now w' - startTime)) as Hstop.
    { intros Hno Heq. injection Heq as <- <-. split; [reflexivity|].
      exists [res]. cbn [fmap list_fmap concat length]. unfold pollRound.
      rewrite Hno. cbn [app].
      split; [reflexivity|]. split; [cbn; lia|]. split; [discriminate|].
      split; [intros _; lia|]. split; [|split].
      - intros [|i] res0 Hi; [|discriminate]. injection Hi as <-.
        now rewrite Nat.add_0_r.
      - intros [|i] res0 Hi Hlen; cbn in Hlen; lia.
      - intros res0 Hl. injection Hl as <-. congruence. }
    destruct res as [r|e] eqn:Hres; [|now apply Hstop].
    destruct (String.eqb (trim (stdout r)) "NO_PROCESSES") eqn:Htok.
    { apply Hstop; [cbn; now rewrite Htok | exact Hrun]. }
    apply IH in Hrun as (-> & replies & Htr & Hcalls & Hnil & Hbound & Hrep
                         & Hgo & Hlast).
    split; [reflexivity|].
    exists (inl r :: replies). cbn [fmap list_fmap concat length].
    unfold pollRound at 1. cbn [listsProcesses]. rewrite Htok. cbn [negb app].
    split; [rewrite Htr; cbn; now rewrite <- !app_assoc|].
    split; [rewrite Hcalls; cbn; lia|]. split; [discriminate|].
    split; [|split; [|split]].
    + intros _. destruct replies as [|res' replies']; [cbn; lia|].
      specialize (Hbound ltac:(discriminate)). cbn in Hbound |- *. lia.
    + intros [|i] res0 Hi.
      * injection Hi as <-. now rewrite Nat.add_0_r.
      * cbn in Hi. replace (calls w + S i)%nat with (S (calls w) + i)%nat by lia.
        exact (Hrep i res0 Hi).
    + intros [|i] res0 Hi Hlen.
      * injection Hi as <-. cbn. now rewrite Htok.
      * cbn in Hi, Hlen. apply (Hgo i res0 Hi). lia.
    + intros res0 Hl Hlists. destruct replies as [|res' replies'].
      * destruct (Hnil eq_refl) as (Hlate & ->). cbn in Hlate |- *. lia.
      * apply (Hlast res0); [exact Hl | exact Hlists].
  - apply Z.ltb_ge in Hlt. injection Hrun as <- <-.
    split; [reflexivity|]. exists []. cbn. rewrite app_nil_r.
    split; [reflexivity|]. split; [lia|]. split; [auto with lia|].
    split; [congruence|]. split; [|split]; intros; discriminate.
Qed.

(** X12.  The poll that follows the stop command ends, without an error,
    after at most ten rounds.  Each round is one submission of the process
    query with a time-out of 10000 ms; the poll returns at once at the
    first reply that fails or carries the token, and every reply before
    it, listing processes, is followed by a wait of 3000 ms; when the last
    reply still lists processes the poll gave up because thirty seconds
    had gone by. *)
Theorem verify_polls_at_most_ten (fuel : nat) (w : World) :
  (11 <= fuel)%nat ->
  exists w' replies,
    verifyNodeStopped remote fuel connection w = Some (inl tt, w')
    /\ trace w' = trace w ++ concat (pollRound <$> replies)
    /\ (1 <= length replies <= 10)%nat
    /\ (forall i res, replies !! i = Some res ->
          res = outcome (remote (calls w + i)%nat connection
                           pgrepOrNoneCmd 10000))
    /\ (forall i res, replies !! i = Some res ->
          (S i < length replies)%nat -> listsProcesses res = true)
    /\ (forall res, last replies = Some res -> listsProcesses res = true ->
          30000 <= now w' - now w).
Proof.
  intros Hfuel. unfold verifyNodeStopped.
  destruct (pollUntilStopped_total remote connection (now w) fuel w)
    as [w' Hrun]; [lia | lia |].
  rewrite Hrun. exists w'.
  destruct (pollUntilStopped_shape (now w) fuel w w' (inl tt) Hrun)
    as (_ & replies & Htr & _ & Hnil & Hbound & Hrep & Hgo & Hlast).
  exists replies. split; [reflexivity|]. split; [exact Htr|].
  split; [|auto].
  destruct replies as [|res replies]; [destruct (Hnil eq_refl); lia|].
  specialize (Hbound ltac:(discriminate)). cbn in Hbound |- *. lia.
Qed.

End WithTarget.

(** The theorem on a target whose process never leaves the process list:
    ten rounds, each followed by its wait. *)
Lemma verify_polls_at_most_ten_witness :
  (11 <= 11)%nat
  /\ exists w',
      verifyNodeStopped Samples.lingering 11 Samples.vm Samples.world0
      = Some (inl tt, w')
      /\ sleeps (trace w') = replicate 10 3000.
Proof.
  split; [lia|].
  destruct (verify_polls_at_most_ten Samples.lingering Samples.vm 11
              Samples.world0 (le_n 11)) as (w' & replies & Hrun & _).
  exists w'. split; [exact Hrun|].
  vm_compute in Hrun. injection Hrun as <-. reflexivity.
Defined.

End StopMore.

Module StartMore.
Import JsString JsStringFacts Ssh Retry RunRemote Lifecycle Start.

Section WithTarget.
Variables (remote : Remote) (connection : SshConnection).

Ltac count_starts :=
  repeat match goal with
  | |- context [startInvocations (?ev :: ?l)] =>
      let v := eval vm_compute in (startInvocations (ev :: l)) in
      change (startInvocations (ev :: l)) with v
  end.

Lemma length_submittedTexts (l : list Event) :
  (length (submittedTexts l) <= length l)%nat.
Proof.
  unfold submittedTexts. induction l as [|ev l IH]; [reflexivity|].
  destruct ev; cbn in *; lia.
Qed.

Lemma startInvocations_app (a b : list Event) :
  startInvocations (a ++ b) = (startInvocations a + startInvocations b)%nat.
Proof. unfold startInvocations. now rewrite filter_app, length_app. Qed.

(** The diagnostics after a failed start are at most two submissions, and
    none of them is the start command. *)
Lemma showServiceStatus_quiet (w : World) :
  exists w' rest,
    showServiceStatus remote connection w = (inl tt, w')
    /\ trace w' = trace w ++ rest
    /\ startInvocations rest = 0%nat
    /\ (length rest <= 2)%nat
    /\ ~ reportsActive rest.
Proof.
  assert (forall t x y,
            ~ reportsActive [Submitted (modifiedCommand statusLongCmd) t x;
                             Submitted (modifiedCommand journalCmd) t y]) as Hno2.
  { intros t x y (t' & r & Hin & _).
    apply elem_of_cons in Hin as [Hin|Hin]; [discriminate|].
    apply list_elem_of_singleton in Hin. discriminate. }
  assert (forall t x,
            ~ reportsActive [Submitted (modifiedCommand statusLongCmd) t x])
    as Hno1.
  { intros t x (t' & r & Hin & _).
    apply list_elem_of_singleton in Hin. discriminate. }
  unfold showServiceStatus, tryCatch, bind.
  rewrite runRemote_once by reflexivity.
  change (sentText (pathOf statusLongCmd noOptions) statusLongCmd)
    with (modifiedCommand statusLongCmd).
  unfold executeRemoteCommandPooled at 1.
  destruct (outcome (remote (calls w) connection _ _)) as [r1|e1].
  - rewrite runRemote_once by reflexivity.
    change (sentText (pathOf journalCmd noOptions) journalCmd)
      with (modifiedCommand journalCmd).
    unfold executeRemoteCommandPooled at 1. cbn [calls].
    destruct (outcome (remote (S (calls w)) connection _ _)) as [r2|e2];
      eexists; eexists (_ :: _ :: nil); cbn [trace];
      rewrite <- !app_assoc;
      (split; [reflexivity|]; split; [reflexivity|];
       split; [reflexivity|]; split; [cbn; lia | apply Hno2]).
  - eexists; eexists (_ :: nil); cbn [trace].
    split; [reflexivity|]. split; [reflexivity|].
    split; [reflexivity|]. split; [cbn; lia | apply Hno1].
Qed.

Lemma isActiveReply_reports (t : Z) (res : Outcome SshCommandResult)
    (l1 l2 : list Event) :
  isActiveReply res = true ->
  reportsActive (l1 ++ Submitted isActiveCmd t res :: l2).
Proof.
  destruct res as [r|e]; [|discriminate]. cbn. intros Hact.
  apply String.eqb_eq in Hact. exists t, r. split; [|exact Hact].
  apply elem_of_app. right. apply elem_of_cons. now left.
Qed.

(** X13.  The start procedure never rejects: it resolves to a boolean
    whatever the target answers.  It resolves to true only when the
    service manager answered a state query of this very call with the
    active token; it submits the start command at most once and at most
    five commands in all. *)
Theorem start_resolves (w : World) :
  exists b w' delta,
    start remote (Some connection) w = (inl b, w')
    /\ trace w' = trace w ++ delta
    /\ (b = true -> reportsActive delta)
    /\ (startInvocations delta <= 1)%nat
    /\ (length (submittedTexts delta) <= 5)%nat.
Proof.
  set (first := outcome (remote (calls w) connection isActiveCmd 30000)).
  destruct (isActiveReply first) eqn:Hfirst.
  - rewrite (start_active_eq remote connection w Hfirst).
    do 2 eexists.
    exists [Submitted isActiveCmd 30000 first;
            Submitted statusBriefCmd 30000
              (outcome (remote (S (calls w)) connection statusBriefCmd 30000))].
    split; [reflexivity|].
    split; [cbn [snd executeRemoteCommandPooled trace calls];
            now rewrite <- app_assoc|].
    split; [intros _; now apply (isActiveReply_reports 30000 first [])|].
    split; [count_starts; lia | cbn; lia].
  - rewrite (start_inactive_eq remote connection w Hfirst).
    set (issued := outcome (remote (S (calls w)) connection
                              (modifiedCommand startCmd) 30000)).
    set (recheck := outcome (remote (S (S (calls w))) connection
                               isActiveCmd 30000)).
    destruct issued as [r|e] eqn:Hissued.
    + cbv zeta. destruct (isActiveReply recheck) eqn:Hre.
      * do 2 eexists.
        exists [Submitted isActiveCmd 30000 first;
                Submitted (modifiedCommand startCmd) 30000 issued;
                Slept 3000; Slept 5000;
                Submitted isActiveCmd 30000 recheck].
        split; [reflexivity|].
        split; [cbn [snd executeRemoteCommandPooled sleep trace calls];
                rewrite <- !app_assoc; subst issued; now rewrite Hissued|].
        split; [intros _;
                now apply (isActiveReply_reports 30000 recheck
                             [Submitted isActiveCmd 30000 first;
                              Submitted (modifiedCommand startCmd) 30000 issued;
                              Slept 3000; Slept 5000] [])|].
        split; [count_starts; lia | cbn; lia].
      * match goal with
        | |- context [showServiceStatus remote connection ?w1] =>
            destruct (showServiceStatus_quiet w1)
              as (w' & rest & Hs & Htr & Hinv & Hlen & _)
        end.
        rewrite Hs. cbn [snd]. exists false, w'.
        exists ([Submitted isActiveCmd 30000 first;
                 Submitted (modifiedCommand startCmd) 30000 issued;
                 Slept 3000; Slept 5000;
                 Submitted isActiveCmd 30000 recheck] ++ rest).
        split; [reflexivity|].
        split; [rewrite Htr;
                cbn [snd executeRemoteCommandPooled sleep trace calls];
                rewrite <- !app_assoc; subst issued; now rewrite Hissued|].
        split; [discriminate|].
        split; [rewrite startInvocations_app, Hinv; count_starts; lia|].
        pose proof (length_submittedTexts rest) as Hle.
        unfold submittedTexts in *. rewrite omap_app, length_app. cbn. lia.
    + do 2 eexists.
      exists [Submitted isActiveCmd 30000 first;
              Submitted (modifiedCommand startCmd) 30000 issued].
      split; [reflexivity|].
      split; [cbn [snd executeRemoteCommandPooled trace calls];
              rewrite <- !app_assoc; subst issued; now rewrite Hissued|].
      split; [discriminate|]. split; [count_starts; lia | cbn; lia].
Qed.

End WithTarget.

(** The short circuit on a target whose service is active and whose
    status dump answers. *)
Lemma start_already_active_witness :
  isActiveReply
    (outcome (Samples.scripted [Samples.ok "active"] (Samples.ok "loaded")
                0%nat Samples.vm isActiveCmd 30000)) = true
  /\ fst (start (Samples.scripted [Samples.ok "active"] (Samples.ok "loaded"))
            (Some Samples.vm) Samples.world0) = inl true
  /\ submittedTexts
       (trace (snd (start
                      (Samples.scripted [Samples.ok "active"] (Samples.ok "loaded"))
                      (Some Samples.vm) Samples.world0)))
     = [isActiveCmd; statusBriefCmd].
Proof.
  split; [reflexivity|].
  destruct (start_already_active
              (Samples.scripted [Samples.ok "active"] (Samples.ok "loaded"))
              Samples.vm Samples.world0 eq_refl) as (Hres & Htr & _).
  rewrite Hres, Htr. split; reflexivity.
Defined.

End StartMore.

Module StatusMore.
Import JsString JsStringFacts Ssh Retry RunRemote Lifecycle StatusFacts.

(** *** The two readings of the process list *)

Lemma trimStart_head (s : string) :
  trimStart s = EmptyString
  \/ exists c t, trimStart s = String c t /\ isWhite c = false.
Proof.
  induction s as [|c s IH]; [now left|].
  cbn [trimStart]. destruct (isWhite c) eqn:Hc; [exact IH | right; eauto].
Qed.

Lemma trimEnd_head (c : Ascii.ascii) (s : string) :
  isWhite c = false -> exists t, trimEnd (String c s) = String c t.
Proof.
  intros Hc. cbn [trimEnd]. rewrite Hc. destruct (trimEnd s); eauto.
Qed.

Lemma trim_head (s : string) :
  trim s = EmptyString
  \/ exists c t, trim s = String c t /\ isWhite c = false.
Proof.
  unfold trim. destruct (trimStart_head s) as [->|(c & t & -> & Hc)];
    [now left|].
  right. destruct (trimEnd_head c t Hc) as [t' ->]. eauto.
Qed.

Lemma split_head (c : Ascii.ascii) (s : string) :
  isWhite c = false ->
  exists x xs, split newline (String c s) = String c x :: xs.
Proof.
  intros Hc. cbn [split].
  destruct (Ascii.eqb_spec c newline) as [->|_]; [discriminate|].
  destruct (split newline s); eauto.
Qed.

Lemma pidsOf_truthy (out : string) :
  truthy (trim out) = true <-> pidsOf out <> [].
Proof.
  unfold pidsOf. destruct (trim_head out) as [->|(c & t & -> & Hc)].
  - change (split newline "") with [""%string].
    rewrite filter_cons_False by (cbn; discriminate). rewrite filter_nil.
    cbn. split; [discriminate | congruence].
  - split; [|reflexivity]. intros _.
    destruct (split_head c t Hc) as (x & xs & ->).
    rewrite filter_cons_True; [discriminate|].
    unfold trim. cbn [trimStart]. rewrite Hc.
    now destruct (trimEnd_head c x Hc) as [t' ->].
Qed.

(** X15.  The boolean query and the detailed status read the reply of
    the process list by the same criterion: its trimmed output is not
    empty exactly when the list of process ids made of it is not empty.
    So a reply that makes one of them report a process makes the other
    report one. *)
Theorem process_readings_agree (tr : list Event) :
  (foundOutput tr <-> foundProcess tr)
  /\ (forall out, truthy (trim out) = true <-> pidsOf out <> []).
Proof.
  split; [|exact pidsOf_truthy].
  unfold foundOutput, foundProcess.
  split; intros (t & r & Hin & H); exists t, r; (split; [exact Hin|]);
    now apply pidsOf_truthy.
Qed.

(** *** A target that cannot be reached *)

Section Unreachable.
Variables (remote : Remote) (connection : SshConnection).
Hypothesis failing : alwaysFails remote connection.

(** A call with two attempts against such a target: two submissions of
    its text, the wait of the first failure between them, and the error
    of the second. *)
Lemma runRemote_twice_fails (cmd : string) (options : CommandOptions)
    (w : World) :
  retriesOf options = 2 ->
  exists e w1 delta,
    runRemote remote connection cmd options w = (inr e, w1)
    /\ trace w1 = trace w ++ delta
    /\ submittedTexts delta
       = [sentText (pathOf cmd options) cmd; sentText (pathOf cmd options) cmd]
    /\ sleeps delta = [baseDelay (pathOf cmd options)].
Proof.
  intros HR. unfold runRemote.
  rewrite executeRemoteCommandWithOptions_retryLoop, HR.
  change (seqZ 1 2) with [1; 2].
  rewrite (retryLoop_cons_fail remote _ connection _ _ _ failing). cbv zeta.
  change (1 =? 2) with false. cbv iota.
  rewrite (retryLoop_cons_fail remote _ connection _ _ _ failing). cbv zeta.
  change (2 =? 2) with true. cbv iota.
  match goal with
  | |- context [outcome (remote ?n connection ?text ?t)] =>
      destruct (failing n text t) as [e He]
  end.
  eexists e, _, [_; _; _]. rewrite He.
  split; [reflexivity|].
  split; [cbn [snd executeRemoteCommandPooled sleep trace];
          rewrite <- !app_assoc; reflexivity|].
  split; [reflexivity|]. cbn. now rewrite Z.mul_1_r.
Qed.

Lemma runRemote_once_fails (cmd : string) (options : CommandOptions)
    (w : World) :
  retriesOf options = 1 ->
  exists e w1 delta,
    runRemote remote connection cmd options w = (inr e, w1)
    /\ trace w1 = trace w ++ delta
    /\ submittedTexts delta = [sentText (pathOf cmd options) cmd]
    /\ sleeps delta = [].
Proof.
  intros HR. rewrite runRemote_once by exact HR.
  unfold executeRemoteCommandPooled.
  destruct (failing (calls w) (sentText (pathOf cmd options) cmd)
              (timeoutOf options)) as [e He].
  rewrite He. eexists e, _, [_]. repeat split.
Qed.

(** X16.  Against a target that fails every command, the start and the
    stop procedure resolve to false and do not reject.  The start
    procedure submits the state query and the start command once each and
    does not wait; the stop procedure submits the stop command twice,
    2000 ms apart, and polls nothing. *)
Theorem start_stop_unreachable (fuel : nat) (w : World) :
  (exists w1 delta,
      start remote (Some connection) w = (inl false, w1)
      /\ trace w1 = trace w ++ delta
      /\ submittedTexts delta = [isActiveCmd; modifiedCommand startCmd]
      /\ sleeps delta = [])
  /\ (exists w1 delta,
        stopNode remote (Some connection) fuel w = Some (false, w1)
        /\ trace w1 = trace w ++ delta
        /\ submittedTexts delta
           = [modifiedCommand stopCmd; modifiedCommand stopCmd]
        /\ sleeps delta = [2000]).
Proof.
  split.
  - destruct (failing (calls w) isActiveCmd 30000) as [e1 He1].
    destruct (failing (S (calls w)) (modifiedCommand startCmd) 30000)
      as [e2 He2].
    rewrite (Start.start_inactive_eq remote connection w)
      by now rewrite He1.
    rewrite He2. eexists _, [_; _].
    split; [reflexivity|].
    split; [cbn [snd executeRemoteCommandPooled trace calls];
            now rewrite <- !app_assoc|].
    split; reflexivity.
  - destruct (runRemote_twice_fails stopCmd stopOptions w eq_refl)
      as (e & w1 & delta & Hrun & Htr & Htexts & Hsl).
    exists w1, delta. unfold stopNode.
    rewrite (Stop.stopSystemdService_fail remote connection w w1 e Hrun).
    auto.
Qed.

Lemma app_delta (tr d1 d2 : list Event) (w1 w2 : World) :
  trace w1 = tr ++ d1 -> trace w2 = trace w1 ++ d2 ->
  trace w2 = tr ++ (d1 ++ d2).
Proof. intros H1 H2. now rewrite H2, H1, app_assoc. Qed.

(** X17.  Against a target that fails every command, the two status
    queries answer and do not reject.  The boolean query answers false
    after two attempts of the state query and two of the process list.
    The detailed status is not running, with the service state
    [unknown], no process ids and the two texts that stand for missing
    details; the command for the service details is never submitted. *)
Theorem status_unreachable (w : World) :
  (exists w1 delta,
      isCelestiaProcessesRunning remote (Some connection) w = (inl false, w1)
      /\ trace w1 = trace w ++ delta
      /\ submittedTexts delta = [isActiveCmd; isActiveCmd; pgrepCmd; pgrepCmd]
      /\ sleeps delta = [1000; 1000])
  /\ (exists w1 delta,
        getStatus remote (Some connection) w
        = (inl {| isRunning := false; serviceStatus := "unknown";
                  processIds := [];
                  processDetails := "Could not retrieve process details";
                  serviceDetails := "Could not retrieve service details" |},
           w1)
        /\ trace w1 = trace w ++ delta
        /\ submittedTexts delta
           = [isActiveCmd; isActiveCmd; pgrepCmd; pgrepCmd; psCmd; psCmd]
        /\ sleeps delta = [1000; 1000; 1000]).
Proof.
  destruct (runRemote_twice_fails isActiveCmd queryOptions w eq_refl)
    as (e1 & w1 & d1 & Hrun1 & Htr1 & Htexts1 & Hsl1).
  destruct (runRemote_twice_fails pgrepCmd queryOptions w1 eq_refl)
    as (e2 & w2 & d2 & Hrun2 & Htr2 & Htexts2 & Hsl2).
  destruct (runRemote_twice_fails psCmd psOptions w2 eq_refl)
    as (e3 & w3 & d3 & Hrun3 & Htr3 & Htexts3 & Hsl3).
  split.
  - exists w2, (d1 ++ d2).
    split; [unfold isCelestiaProcessesRunning, tryCatch;
            now rewrite Hrun1, Hrun2|].
    split; [exact (app_delta _ _ _ _ _ Htr1 Htr2)|].
    unfold submittedTexts, sleeps in *.
    rewrite !omap_app, Htexts1, Htexts2, Hsl1, Hsl2. split; reflexivity.
  - exists w3, (d1 ++ d2 ++ d3).
    assert (queryService remote connection w
            = (inl ("unknown"%string,
                    "Could not retrieve service details"%string), w1)) as Hq1
      by (unfold queryService; now rewrite Hrun1).
    assert (queryProcessIds remote connection w1 = (inl [], w2)) as Hq2
      by (unfold queryProcessIds, tryCatch, bind; now rewrite Hrun2).
    assert (queryProcessDetails remote connection w2
            = (inl "Could not retrieve process details"%string, w3)) as Hq3
      by (unfold queryProcessDetails, tryCatch, bind; now rewrite Hrun3).
    split.
    { unfold getStatus. erewrite tryCatch_ok; [reflexivity|].
      erewrite bind_ok by exact Hq1.
      erewrite bind_ok by exact Hq2.
      erewrite bind_ok by exact Hq3.
      reflexivity. }
    split; [exact (app_delta _ _ _ _ _ Htr1 (app_delta _ _ _ _ _ Htr2 Htr3))|].
    unfold submittedTexts, sleeps in *.
    rewrite !omap_app, Htexts1, Htexts2, Htexts3, Hsl1, Hsl2, Hsl3.
    split; reflexivity.
Qed.

End Unreachable.

(** The two theorems on the target that is down. *)
Lemma start_stop_unreachable_witness :
  alwaysFails Samples.downRemote Samples.vm
  /\ fst (start Samples.downRemote (Some Samples.vm) Samples.world0) = inl false
  /\ (fst <$> stopNode Samples.downRemote (Some Samples.vm) 11 Samples.world0)
     = Some false.
Proof.
  assert (alwaysFails Samples.downRemote Samples.vm) as Hdown
    by (intros n c t; eexists; reflexivity).
  destruct (start_stop_unreachable Samples.downRemote Samples.vm Hdown 11
              Samples.world0)
    as ((w1 & d1 & Hstart & _) & (w2 & d2 & Hstop & _)).
  split; [exact Hdown|]. rewrite Hstart, Hstop. split; reflexivity.
Defined.

Lemma status_unreachable_witness :
  alwaysFails Samples.downRemote Samples.vm
  /\ fst (isCelestiaProcessesRunning Samples.downRemote (Some Samples.vm)
            Samples.world0) = inl false
  /\ match fst (getStatus Samples.downRemote (Some Samples.vm) Samples.world0)
     with
     | inl st => serviceStatus st
     | inr e => message e
     end = "unknown"%string.
Proof.
  assert (alwaysFails Samples.downRemote Samples.vm) as Hdown
    by (intros n c t; eexists; reflexivity).
  destruct (status_unreachable Samples.downRemote Samples.vm Hdown
              Samples.world0)
    as ((w1 & d1 & Hbool & _) & (w2 & d2 & Hstatus & _)).
  split; [exact Hdown|]. rewrite Hbool, Hstatus. split; reflexivity.
Defined.

End StatusMore.

Module BoundsMore.
Import JsString JsStringFacts Ssh Retry RunRemote Lifecycle LifecycleReading.
Import Stop StatusFacts.

Section WithTarget.
Variables (remote : Remote) (connection : SshConnection).

(** A call submits at least once and at most [retries] times. *)
Lemma runRemote_calls (cmd : string) (options : CommandOptions) (w : World) :
  1 <= retriesOf options ->
  exists res w1,
    runRemote remote connection cmd options w = (res, w1)
    /\ (calls w < calls w1)%nat
    /\ (calls w1 <= calls w + Z.to_nat (retriesOf options))%nat.
Proof.
  intros HR.
  destruct (runRemote remote connection cmd options w) as [res w1] eqn:Hrun.
  exists res, w1. split; [reflexivity|].
  unfold runRemote in Hrun.
  rewrite executeRemoteCommandWithOptions_retryLoop in Hrun.
  replace (seqZ 1 (retriesOf options))
    with (seqZ 1 (Z.of_nat (Z.to_nat (retriesOf options)))) in Hrun
    by (f_equal; lia).
  destruct (RetryMore.retryLoop_bounds remote (pathOf cmd options) connection
              (sentText (pathOf cmd options) cmd) (timeoutOf options)
              (retriesOf options) (Z.to_nat (retriesOf options)) 1 w)
    as (Hlt & Hle & _); [lia | lia |].
  rewrite Hrun in Hlt, Hle. auto.
Qed.

Lemma stopSystemdService_calls (w : World) :
  exists o w1,
    stopSystemdService remote connection w = (o, w1)
    /\ (calls w < calls w1)%nat /\ (calls w1 <= calls w + 4)%nat.
Proof.
  destruct (runRemote_calls stopCmd stopOptions w ltac:(cbn; lia))
    as (res & w1 & Hrun & Hlt & Hle).
  change (Z.to_nat (retriesOf stopOptions)) with 2%nat in Hle.
  unfold stopSystemdService, tryCatch at 1, bind at 1. rewrite Hrun.
  destruct res as [r|e]; [|exists (inr e), w1; split; [reflexivity | lia]].
  unfold bind at 1, sleep at 1. unfold tryCatch, bind.
  match goal with
  | |- context [runRemote remote connection isActiveCmd queryOptions ?w2] =>
      destruct (runRemote_calls isActiveCmd queryOptions w2 ltac:(cbn; lia))
        as (res2 & w3 & Hrun2 & Hlt2 & Hle2)
  end.
  change (Z.to_nat (retriesOf queryOptions)) with 2%nat in Hle2.
  cbn [calls] in Hlt2, Hle2. rewrite Hrun2.
  destruct res2; eexists _, w3; (split; [reflexivity | lia]).
Qed.

Lemma verifyNodeStopped_calls (fuel : nat) (w : World) :
  (11 <= fuel)%nat ->
  exists w1,
    verifyNodeStopped remote fuel connection w = Some (inl tt, w1)
    /\ (calls w <= calls w1 <= calls w + 10)%nat.
Proof.
  intros Hfuel. unfold verifyNodeStopped.
  destruct (pollUntilStopped_total remote connection (now w) fuel w)
    as [w1 Hrun]; [lia | lia |].
  rewrite Hrun. exists w1. split; [reflexivity|].
  destruct (StopMore.pollUntilStopped_shape remote connection (now w) fuel w w1
              (inl tt) Hrun)
    as (_ & replies & _ & Hcalls & _ & Hbound & _).
  rewrite Hcalls.
  destruct replies as [|res replies]; [cbn; lia|].
  specialize (Hbound ltac:(discriminate)). cbn in Hbound |- *. lia.
Qed.

(** X23.  The work of the operations on the target is bounded, whatever
    the target answers.  The stop operation ends after at least one and
    at most fourteen submissions: two of the stop command, two of the
    state query, ten of the poll.  The boolean query submits at most four
    commands, and the detailed status at least three and at most eight. *)
Theorem operations_bounded (fuel : nat) (w : World) :
  (11 <= fuel)%nat ->
  (exists b w',
      stopNode remote (Some connection) fuel w = Some (b, w')
      /\ (calls w < calls w' <= calls w + 14)%nat)
  /\ (exists b w',
        isCelestiaProcessesRunning remote (Some connection) w = (inl b, w')
        /\ (calls w < calls w' <= calls w + 4)%nat)
  /\ (exists st w',
        getStatus remote (Some connection) w = (inl st, w')
        /\ (calls w + 3 <= calls w' <= calls w + 8)%nat).
Proof.
  intros Hfuel. split; [|split].
  - destruct (stopSystemdService_calls w) as (o & w1 & Hstop & Hlt & Hle).
    unfold stopNode. rewrite Hstop.
    destruct o as [u|e]; [|exists false, w1; split; [reflexivity | lia]].
    destruct (verifyNodeStopped_calls fuel w1 Hfuel) as (w2 & -> & Hle2).
    exists true, w2. split; [reflexivity | lia].
  - destruct (runRemote_calls isActiveCmd queryOptions w ltac:(cbn; lia))
      as (res1 & w1 & Hrun1 & Hlt1 & Hle1).
    destruct (runRemote_calls pgrepCmd queryOptions w1 ltac:(cbn; lia))
      as (res2 & w2 & Hrun2 & Hlt2 & Hle2).
    change (Z.to_nat (retriesOf queryOptions)) with 2%nat in Hle1, Hle2.
    unfold isCelestiaProcessesRunning, tryCatch. rewrite Hrun1.
    destruct (isActiveReply res1);
      [exists true, w1; split; [reflexivity | lia]|].
    rewrite Hrun2. destruct res2; eexists _, w2; (split; [reflexivity | lia]).
  - destruct (runRemote_calls isActiveCmd queryOptions w ltac:(cbn; lia))
      as (res1 & w1 & Hrun1 & Hlt1 & Hle1).
    change (Z.to_nat (retriesOf queryOptions)) with 2%nat in Hle1.
    assert (exists sv wq,
              queryService remote connection w = (inl sv, wq)
              /\ (calls w < calls wq <= calls w + 4)%nat)
      as (sv & wq & Hq1 & Hb1).
    { unfold queryService. rewrite Hrun1.
      destruct res1 as [r1|e1];
        [|eexists _, w1; split; [reflexivity | lia]].
      destruct (runRemote_calls serviceDetailsCmd detailsOptions w1
                  ltac:(cbn; lia)) as (res2 & w2 & Hrun2 & Hlt2 & Hle2).
      change (Z.to_nat (retriesOf detailsOptions)) with 2%nat in Hle2.
      rewrite Hrun2. destruct res2; eexists _, w2; (split; [reflexivity | lia]). }
    destruct (runRemote_calls pgrepCmd queryOptions wq ltac:(cbn; lia))
      as (res3 & w3 & Hrun3 & Hlt3 & Hle3).
    change (Z.to_nat (retriesOf queryOptions)) with 2%nat in Hle3.
    assert (exists pids, queryProcessIds remote connection wq = (inl pids, w3))
      as (pids & Hq2).
    { unfold queryProcessIds, tryCatch, bind. rewrite Hrun3.
      destruct res3; eauto. }
    destruct (runRemote_calls psCmd psOptions w3 ltac:(cbn; lia))
      as (res4 & w4 & Hrun4 & Hlt4 & Hle4).
    change (Z.to_nat (retriesOf psOptions)) with 2%nat in Hle4.
    assert (exists details,
              queryProcessDetails remote connection w3 = (inl details, w4))
      as (details & Hq3).
    { unfold queryProcessDetails, tryCatch, bind. rewrite Hrun4.
      destruct res4; eauto. }
    eexists _, w4. split; [|lia].
    unfold getStatus. erewrite tryCatch_ok; [reflexivity|].
    erewrite bind_ok by exact Hq1.
    erewrite bind_ok by exact Hq2.
    erewrite bind_ok by exact Hq3.
    reflexivity.
Qed.

End WithTarget.

(** The theorem on a target whose process never leaves the process list:
    the stop operation makes twelve submissions. *)
Lemma operations_bounded_witness :
  (11 <= 11)%nat
  /\ exists b w',
      stopNode Samples.lingering (Some Samples.vm) 11 Samples.world0
      = Some (b, w')
      /\ calls w' = 12%nat.
Proof.
  split; [lia|].
  destruct (operations_bounded Samples.lingering Samples.vm 11 Samples.world0
              (le_n 11)) as ((b & w' & Hstop & _) & _).
  exists b, w'. split; [exact Hstop|].
  vm_compute in Hstop. injection Hstop as _ <-. reflexivity.
Defined.

End BoundsMore.

(** ** The target of the environment and the initializer *)

Module InitializerFacts.
Import JsString JsStringFacts Ssh Retry RunRemote Initializer.

(** *** The target of the environment *)

Lemma truthy_nonempty (s : string) : truthy s = true <-> s <> ""%string.
Proof. destruct s; cbn; split; congruence. Qed.

Lemma orElse_falsy (a b : option string) :
  falsy (orElse a b) = true
  <-> (a = None \/ a = Some ""%string) /\ (b = None \/ b = Some ""%string).
Proof.
  destruct a as [[|c s]|], b as [[|c' s']|]; cbn;
    intuition (discriminate || auto).
Qed.

Lemma orElse_value (a b : option string) :
  falsy (orElse a b) = false ->
  default ""%string (orElse a b) <> ""%string
  /\ (forall u, a = Some u -> u <> ""%string ->
        default ""%string (orElse a b) = u)
  /\ (a = None \/ a = Some ""%string ->
        b = Some (default ""%string (orElse a b))).
Proof.
  destruct a as [[|c s]|], b as [[|c' s']|]; cbn; intros H;
    try discriminate;
    (split; [discriminate|]; split;
     [intros u Hu; now inversion Hu | intros [?|?]; congruence]).
Qed.

(** X20.  The target read from the environment.  There is none exactly
    when neither variable of the user, or neither variable of the host,
    holds a text that is not empty: an empty variable counts as unset.
    A target has the fixed key file and a user and a host that are not
    empty; [VM_USER] and [VM_IP_ADDRESS] win over [REMOTE_USER] and
    [REMOTE_HOST], which are read only when the first is unset or
    empty. *)
Theorem createConnection_reads_environment (env : Env) :
  (createConnection env = None
   <-> (unsetOrEmpty env "VM_USER" /\ unsetOrEmpty env "REMOTE_USER")
       \/ (unsetOrEmpty env "VM_IP_ADDRESS" /\ unsetOrEmpty env "REMOTE_HOST"))
  /\ (forall c, createConnection env = Some c ->
        sshKey c = "~/.ssh/id_rsa.pem"%string
        /\ remoteUser c <> ""%string /\ remoteHost c <> ""%string
        /\ (forall u, env !! "VM_USER"%string = Some u -> u <> ""%string ->
              remoteUser c = u)
        /\ (unsetOrEmpty env "VM_USER" ->
              env !! "REMOTE_USER"%string = Some (remoteUser c))
        /\ (forall h, env !! "VM_IP_ADDRESS"%string = Some h -> h <> ""%string ->
              remoteHost c = h)
        /\ (unsetOrEmpty env "VM_IP_ADDRESS" ->
              env !! "REMOTE_HOST"%string = Some (remoteHost c))).
Proof.
  unfold createConnection, unsetOrEmpty. cbv zeta.
  set (user := orElse (env !! "VM_USER"%string) (env !! "REMOTE_USER"%string)).
  set (host := orElse (env !! "VM_IP_ADDRESS"%string)
                 (env !! "REMOTE_HOST"%string)).
  pose proof (orElse_falsy (env !! "VM_USER"%string)
                (env !! "REMOTE_USER"%string)) as Hu.
  pose proof (orElse_falsy (env !! "VM_IP_ADDRESS"%string)
                (env !! "REMOTE_HOST"%string)) as Hh.
  fold user in Hu. fold host in Hh.
  destruct (falsy user) eqn:Hfu.
  - cbn [orb]. split; [split; [intros _; left; now apply Hu | reflexivity]|].
    discriminate.
  - destruct (falsy host) eqn:Hfh; cbn [orb].
    + split; [split; [intros _; right; now apply Hh | reflexivity]|].
      discriminate.
    + split.
      * split; [discriminate|]. intros [H|H]; [apply Hu in H | apply Hh in H];
          discriminate.
      * intros c Hc. injection Hc as <-. cbn [sshKey remoteUser remoteHost].
        destruct (orElse_value _ _ Hfu) as (Hu1 & Hu2 & Hu3).
        destruct (orElse_value _ _ Hfh) as (Hh1 & Hh2 & Hh3).
        fold user in Hu1, Hu2, Hu3. fold host in Hh1, Hh2, Hh3.
        repeat split; assumption.
Qed.

(** *** The initializer *)

Section WithTarget.
Variables (remote : Remote) (env : Env).

Lemma includes_append (a b p : string) :
  includes b p = true -> includes (a +:+ b) p = true.
Proof.
  intros Hb. induction a as [|c a IH]; [exact Hb|].
  change (String c a +:+ b) with (String c (a +:+ b)).
  cbn [includes]. rewrite IH. apply orb_true_r.
Qed.

(** X18.  The initializer with a target in the environment submits the
    init command once, with a time-out of 300000 ms, and does not wait.
    It resolves to true when the command succeeds, and also when the
    command fails with a message that contains [already exists], as the
    failure built from such an error output does; any other failure is
    passed on to the caller as it is. *)
Theorem initialize_outcome (targetNetwork : option string)
    (connection : SshConnection) (w : World) :
  createConnection env = Some connection ->
  let cmd := initCmd env (networkOf env targetNetwork) in
  let text := sentText (pathOf cmd initOptions) cmd in
  let res := outcome (remote (calls w) connection text 300000) in
  let run := initializeNode remote env targetNetwork w in
  trace (snd run) = trace w ++ [Submitted text 300000 res]
  /\ fst run
     = match res with
       | inl _ => inl true
       | inr e =>
           if includes (message e) "already exists" then inl true else inr e
       end
  /\ (forall code err,
        res = inr (Runner.failureError code err) ->
        includes err "already exists" = true ->
        fst run = inl true).
Proof.
  intros Hconn cmd text res run.
  assert (run = (match res with
                 | inl _ => inl true
                 | inr e =>
                     if includes (message e) "already exists"
                     then inl true else inr e
                 end,
                 snd (executeRemoteCommandPooled remote connection text
                        300000 w))) as Hrun.
  { subst run. unfold initializeNode. cbv zeta. rewrite Hconn.
    unfold tryCatch, bind. fold cmd.
    rewrite runRemote_once by reflexivity. fold text.
    change (timeoutOf initOptions) with 300000.
    unfold executeRemoteCommandPooled. fold res. cbn [snd].
    destruct res as [r|e]; [reflexivity|].
    destruct (includes (message e) "already exists"); reflexivity. }
  rewrite Hrun. cbn [fst snd executeRemoteCommandPooled trace]. fold res.
  split; [reflexivity|]. split; [reflexivity|].
  intros code err -> Herr.
  assert (includes (message (Runner.failureError code err)) "already exists"
          = true) as ->; [|reflexivity].
  unfold Runner.failureError. cbn [message].
  do 3 apply includes_append. exact Herr.
Qed.

(** X19.  The removal of the node store never rejects.  With a target in
    the environment it submits one command, the forced recursive removal
    of the node store, and resolves to true exactly when that command
    succeeds.  The directory removed is [.celestia-light-] followed by the
    network, in the home of the user given or, without one, in [$HOME]. *)
Theorem remove_outcome (targetNetwork celestiaUser : option string)
    (connection : SshConnection) (w : World) :
  createConnection env = Some connection ->
  let store := nodeStore env (networkOf env targetNetwork) celestiaUser in
  let res := outcome (remote (calls w) connection ("rm -rf " +:+ store) 30000) in
  let run := removeNodeInitialization remote env targetNetwork celestiaUser w in
  trace (snd run) = trace w ++ [Submitted ("rm -rf " +:+ store) 30000 res]
  /\ fst run = inl (match res with inl _ => true | inr _ => false end)
  /\ exists home,
       store = home +:+ "/.celestia-light-" +:+ networkOf env targetNetwork
       /\ (home = "$HOME"%string
           \/ exists u, u <> ""%string /\ home = "/home/" +:+ u).
Proof.
  intros Hconn store res run.
  assert (sentText (pathOf ("rm -rf " +:+ store) noOptions) ("rm -rf " +:+ store)
          = "rm -rf " +:+ store) as Htext.
  { destruct (pathOf _ _); [|reflexivity]. reflexivity. }
  split; [|split].
  - subst run. unfold removeNodeInitialization. cbv zeta. rewrite Hconn.
    unfold tryCatch, bind, removeCmd. fold store.
    rewrite runRemote_once by reflexivity. rewrite Htext.
    change (timeoutOf noOptions) with 30000.
    unfold executeRemoteCommandPooled. fold res. cbn [snd].
    destruct res; reflexivity.
  - subst run. unfold removeNodeInitialization. cbv zeta. rewrite Hconn.
    unfold tryCatch, bind, removeCmd. fold store.
    rewrite runRemote_once by reflexivity. rewrite Htext.
    change (timeoutOf noOptions) with 30000.
    unfold executeRemoteCommandPooled. fold res. cbn [snd].
    destruct res; reflexivity.
  - subst store. unfold nodeStore. cbv zeta.
    destruct (falsy (orElse celestiaUser (env !! "CELESTIA_USER"%string)))
      eqn:Hf.
    + exists "$HOME"%string. split; [reflexivity | now left].
    + destruct (orElse_value _ _ Hf) as (Hne & _).
      exists ("/home/" +:+ default ""%string
                (orElse celestiaUser (env !! "CELESTIA_USER"%string))).
      split; [reflexivity | right; eauto].
Qed.

End WithTarget.

(** The theorems at an environment that names a target. *)
Lemma initialize_outcome_witness :
  createConnection Samples.env0 = Some Samples.vm
  /\ fst (initializeNode Samples.alreadyThere Samples.env0 None Samples.world0)
     = inl true.
Proof.
  assert (createConnection Samples.env0 = Some Samples.vm) as Hconn
    by (vm_compute; reflexivity).
  split; [exact Hconn|].
  destruct (initialize_outcome Samples.alreadyThere Samples.env0 None
              Samples.vm Samples.world0 Hconn) as (_ & _ & Hthere).
  apply (Hthere (Some 1) "Error: node store already exists"); reflexivity.
Defined.

Lemma remove_outcome_witness :
  createConnection Samples.env0 = Some Samples.vm
  /\ fst (removeNodeInitialization Samples.downRemote Samples.env0
            (Some "mocha"%string) (Some "celestia"%string) Samples.world0)
     = inl false
  /\ submittedTexts
       (trace (snd (removeNodeInitialization Samples.downRemote Samples.env0
                      (Some "mocha"%string) (Some "celestia"%string)
                      Samples.world0)))
     = ["rm -rf /home/celestia/.celestia-light-mocha"%string].
Proof.
  assert (createConnection Samples.env0 = Some Samples.vm) as Hconn
    by (vm_compute; reflexivity).
  split; [exact Hconn|].
  destruct (remove_outcome Samples.downRemote Samples.env0
              (Some "mocha"%string) (Some "celestia"%string)
              Samples.vm Samples.world0 Hconn) as (Htr & Hres & _).
  rewrite Htr, Hres. split; reflexivity.
Defined.

End InitializerFacts.
